(** * Device service lifecycle of the EdgeX device SDK for C

    A shallow embedding of [src/c/service.c]: service creation
    ([edgex_device_service_new]), the startup sequence
    ([edgex_device_service_start] and [startConfigured]), the scheduled
    device job ([dev_invoker]), the ping handler and the teardown
    ([edgex_device_service_stop]).

    The service talks to collaborators whose code lives elsewhere (the
    registry, core-data and core-metadata clients, the configuration
    loader, the REST server, the scheduler, the protocol driver).  Each of
    them is an oracle of the environment [Env]: a function of the current
    program state, so that its answers may depend on everything that
    happened before.  Every call to a collaborator is recorded, in program
    order, in a trace of [action]s. *)

From Stdlib Require Import ZArith List String Ascii Bool Lia DecimalString.
Import ListNotations.

#[local] Open Scope string_scope.
#[local] Open Scope Z_scope.

(** ** C strings *)

(** The double quote and the newline, which appear in C literals as
    backslash escapes. *)
Definition dquote : string := String (ascii_of_nat 34) EmptyString.
Definition newline : string := String (ascii_of_nat 10) EmptyString.

(** [strcmp (a, b) != 0]. *)
Definition strcmp (a b : string) : bool := negb (String.eqb a b).

(** [strncmp (s, p, strlen (p)) != 0]: [s] does not start with [p]. *)
Definition strncmp (s p : string) : bool := negb (String.prefix p s).

(** Pointer arithmetic [s + n] on a string of length at least [n]. *)
Fixpoint skip (n : nat) (s : string) : string :=
  match n, s with
  | O, _ => s
  | S n', String _ s' => skip n' s'
  | S _, EmptyString => EmptyString
  end.

(** [printf]'s [%d]. *)
Definition fmt_d (z : Z) : string := NilZero.string_of_int (Z.to_int z).

(** [printf] of a format that comes with no argument: [%%] prints one
    percent sign.  Any other conversion would read an argument that is
    not there, which C leaves undefined; its text is kept as it is. *)
Fixpoint fmt_noargs (fmt : string) : string :=
  match fmt with
  | EmptyString => EmptyString
  | String c rest =>
      match rest with
      | EmptyString => String c EmptyString
      | String c' rest' =>
          if Ascii.eqb c "%" && Ascii.eqb c' "%"
          then String "%" (fmt_noargs rest')
          else String c (fmt_noargs rest)
      end
  end.

(** The value of a C [int] expression, kept in range by two's complement
    wrap-around. *)
Definition int_wrap (z : Z) : Z := (z + 2 ^ 31) mod 2 ^ 32 - 2 ^ 31.

(** ** REST paths and constants of [service.c] *)

Definition EDGEX_DEV_API_PING : string := "/api/v1/ping".
Definition EDGEX_DEV_API_DISCOVERY : string := "/api/v1/discovery".
Definition EDGEX_DEV_API_DEVICE : string := "/api/v1/device/".
Definition EDGEX_DEV_API_CALLBACK : string := "/api/v1/callback".
Definition EDGEX_DEV_API_CONFIG : string := "/api/v1/config".
Definition EDGEX_DEV_API_METRICS : string := "/api/v1/metrics".
Definition ADDR_EXT : string := "_addr".
Definition POOL_THREADS : nat := 8.
Definition MHD_HTTP_OK : Z := 200.

(** ** Errors *)

(** Modelled from the spec: [errorlist.h] is not part of the sources.  An
    [edgex_error] is identified by its code; the kinds are those of the
    error-handling section of the specification, [EDGEX_OK] being the one
    with code 0, and [EDGEX_ERROR n] standing for any other code. *)
Inductive edgex_error : Type :=
| EDGEX_OK
| EDGEX_NO_DEVICE_IMPL
| EDGEX_NO_DEVICE_NAME
| EDGEX_NO_DEVICE_VERSION
| EDGEX_INVALID_ARG
| EDGEX_BAD_CONFIG
| EDGEX_REMOTE_SERVER_DOWN
| EDGEX_DRIVER_UNSTART
| EDGEX_HTTP_CONFLICT
| EDGEX_HTTP_NOT_FOUND
| EDGEX_HTTP_SERVER_ERROR
| EDGEX_ERROR (n : positive).

(** [err->code != 0]. *)
Definition failed (e : edgex_error) : bool :=
  match e with EDGEX_OK => false | _ => true end.

(** [err->code == EDGEX_HTTP_CONFLICT.code]. *)
Definition is_conflict (e : edgex_error) : bool :=
  match e with EDGEX_HTTP_CONFLICT => true | _ => false end.

(** ** Data model *)

(** Modelled from the spec: the headers that declare the metadata types
    ([edgex.h]), the service structure and its configuration
    ([service.h], [config.h]) and the REST server ([rest_server.h]) are
    not part of the sources.  The records below carry the fields that
    [service.c] reads and writes, under the names it uses; the two state
    enumerations are listed in the order of the data model of the
    specification, the first value being the one that [memset] leaves. *)
Inductive edgex_device_adminstate : Type := LOCKED | UNLOCKED.
Inductive edgex_device_operatingstate : Type := ENABLED | DISABLED.

Inductive edgex_http_method : Type := GET | POST | PUT | PATCH | DELETE.

Inductive loglevel : Type := LogError | LogInfo | LogDebug.

Definition edgex_nvpairs : Type := list (string * string).

Record timespec : Type := { tv_sec : Z; tv_nsec : Z }.

Record edgex_addressable : Type := {
  addr_id : option string;
  addr_name : string;
  addr_origin : Z;
  addr_protocol : string;
  addr_method : string;
  addr_address : string;
  addr_port : Z;
  addr_path : string
}.

Record edgex_deviceservice : Type := {
  ds_id : option string;
  ds_name : string;
  ds_addressable : edgex_addressable;
  ds_operatingState : edgex_device_operatingstate;
  ds_adminState : edgex_device_adminstate;
  ds_created : Z;
  ds_labels : list string
}.

Record edgex_schedule : Type := {
  sch_name : string;
  sch_frequency : string
}.

Record edgex_scheduleevent : Type := {
  se_name : string;
  se_schedule : string;
  se_addressable : edgex_addressable
}.

(** *** Configuration *)

Record edgex_device_serviceinfo : Type := {
  host : string;
  port : Z;
  timeout : Z;
  connectretries : Z;
  checkinterval : option string;
  labels : list string;
  startupmsg : option string
}.

Record edgex_device_logginginfo : Type := {
  file : option string;
  remoteurl : option string
}.

Record edgex_device_scheduleeventinfo : Type := {
  schedule : string;
  path : string
}.

(** Maps of the configuration are association lists in the order in which
    [edgex_map_next] enumerates them. *)
Record edgex_device_config : Type := {
  service : edgex_device_serviceinfo;
  logging : edgex_device_logginginfo;
  profilesdir : option string;
  schedules : list (string * string);
  scheduleevents : list (string * edgex_device_scheduleeventinfo);
  driverconf : edgex_nvpairs
}.

(** [memset (..., 0, ...)] on the configuration. *)
Definition zero_config : edgex_device_config :=
  {| service := {| host := EmptyString; port := 0; timeout := 0;
                   connectretries := 0; checkinterval := None;
                   labels := []; startupmsg := None |};
     logging := {| file := None; remoteurl := None |};
     profilesdir := None;
     schedules := [];
     scheduleevents := [];
     driverconf := [] |}.

Definition set_profilesdir (d : option string) (c : edgex_device_config)
  : edgex_device_config :=
  {| service := service c; logging := logging c; profilesdir := d;
     schedules := schedules c; scheduleevents := scheduleevents c;
     driverconf := driverconf c |}.

(** *** The service *)

Inductive log_impl : Type := iot_log_tofile | edgex_log_torest.

Record iot_logging_client : Type := {
  lc_name : string;
  lc_loggers : list (log_impl * string)
}.

Record rwlock : Type := { rw_initialised : bool; rw_prefer_writer : bool }.
Record mutex : Type := { mx_initialised : bool }.

Record threadpool : Type := { pool_threads : nat }.

(** The scheduler is built on the worker pool it is given. *)
Record iot_scheduler : Type := { sched_pool : threadpool }.

(** The REST server, as far as the service sees it: the TCP port. *)
Record edgex_rest_server : Type := { rest_port : Z }.

(** A cached device or profile is kept abstract: the lifecycle code only
    stores and frees them. *)
Definition cache : Type := list (string * string).

Record edgex_device_service : Type := {
  name : string;
  version : string;
  userdata : N;
  logger : option iot_logging_client;
  config : edgex_device_config;
  adminstate : edgex_device_adminstate;
  opstate : edgex_device_operatingstate;
  daemon : option edgex_rest_server;
  sjobs : list string;
  thpool : threadpool;
  scheduler : option iot_scheduler;
  devices : cache;
  name_to_id : cache;
  profiles : cache;
  deviceslock : rwlock;
  discolock : mutex;
  profileslock : mutex
}.

Definition set_logger (l : option iot_logging_client)
  (svc : edgex_device_service) : edgex_device_service :=
  {| name := name svc; version := version svc; userdata := userdata svc;
     logger := l; config := config svc; adminstate := adminstate svc;
     opstate := opstate svc; daemon := daemon svc; sjobs := sjobs svc;
     thpool := thpool svc; scheduler := scheduler svc;
     devices := devices svc; name_to_id := name_to_id svc;
     profiles := profiles svc; deviceslock := deviceslock svc;
     discolock := discolock svc; profileslock := profileslock svc |}.

Definition set_config (c : edgex_device_config)
  (svc : edgex_device_service) : edgex_device_service :=
  {| name := name svc; version := version svc; userdata := userdata svc;
     logger := logger svc; config := c; adminstate := adminstate svc;
     opstate := opstate svc; daemon := daemon svc; sjobs := sjobs svc;
     thpool := thpool svc; scheduler := scheduler svc;
     devices := devices svc; name_to_id := name_to_id svc;
     profiles := profiles svc; deviceslock := deviceslock svc;
     discolock := discolock svc; profileslock := profileslock svc |}.

Definition set_states (a : edgex_device_adminstate)
  (o : edgex_device_operatingstate)
  (svc : edgex_device_service) : edgex_device_service :=
  {| name := name svc; version := version svc; userdata := userdata svc;
     logger := logger svc; config := config svc; adminstate := a;
     opstate := o; daemon := daemon svc; sjobs := sjobs svc;
     thpool := thpool svc; scheduler := scheduler svc;
     devices := devices svc; name_to_id := name_to_id svc;
     profiles := profiles svc; deviceslock := deviceslock svc;
     discolock := discolock svc; profileslock := profileslock svc |}.

Definition set_daemon (d : option edgex_rest_server)
  (svc : edgex_device_service) : edgex_device_service :=
  {| name := name svc; version := version svc; userdata := userdata svc;
     logger := logger svc; config := config svc; adminstate := adminstate svc;
     opstate := opstate svc; daemon := d; sjobs := sjobs svc;
     thpool := thpool svc; scheduler := scheduler svc;
     devices := devices svc; name_to_id := name_to_id svc;
     profiles := profiles svc; deviceslock := deviceslock svc;
     discolock := discolock svc; profileslock := profileslock svc |}.

Definition set_sjobs (j : list string)
  (svc : edgex_device_service) : edgex_device_service :=
  {| name := name svc; version := version svc; userdata := userdata svc;
     logger := logger svc; config := config svc; adminstate := adminstate svc;
     opstate := opstate svc; daemon := daemon svc; sjobs := j;
     thpool := thpool svc; scheduler := scheduler svc;
     devices := devices svc; name_to_id := name_to_id svc;
     profiles := profiles svc; deviceslock := deviceslock svc;
     discolock := discolock svc; profileslock := profileslock svc |}.

(** The caches, written by the metadata side of the SDK. *)
Definition set_caches (d n p : cache)
  (svc : edgex_device_service) : edgex_device_service :=
  {| name := name svc; version := version svc; userdata := userdata svc;
     logger := logger svc; config := config svc; adminstate := adminstate svc;
     opstate := opstate svc; daemon := daemon svc; sjobs := sjobs svc;
     thpool := thpool svc; scheduler := scheduler svc;
     devices := d; name_to_id := n;
     profiles := p; deviceslock := deviceslock svc;
     discolock := discolock svc; profileslock := profileslock svc |}.

(** ** Calls to collaborators *)

Inductive edgex_registry : Type := Registry (url : string).
Inductive toml_table_t : Type :=
| TomlTable (dir : string) (profile : option string).

Inductive rest_handler : Type :=
| Handler_callback | Handler_device | Handler_discovery
| Handler_metrics | Handler_config | Handler_ping.

(** What a schedule runs when it fires: discovery, or [dev_invoker] on a
    job carrying a URL. *)
Inductive sched_fn : Type :=
| Fn_do_discovery
| Fn_dev_invoker (url : string).

Inductive map_id : Type := Map_name_to_id | Map_devices | Map_profiles.

(** One constructor per collaborator function that [service.c] calls; the
    arguments are those of the call, and for the pings, the registry
    lookup, the driver's [init] and the dispatcher also the value
    returned. *)
Inductive action : Type :=
| iot_log (lvl : loglevel) (msg : string)
| iot_logging_client_create (svcname : string)
| iot_log_addlogger (impl : log_impl) (target : string)
| iot_logging_client_destroy
| edgex_registry_get_registry (url : string) (found : bool)
| edgex_registry_ping (pong : bool)
| edgex_registry_get_config (svcname : string) (profile : option string)
| edgex_registry_put_config (svcname profile : string) (c : edgex_nvpairs)
| edgex_registry_register_service (svcname hostname : string) (p : Z)
    (interval : string)
| edgex_registry_free (r : option edgex_registry)
| edgex_registry_fini
| edgex_device_populateConfigNV (pairs : edgex_nvpairs)
| edgex_device_loadConfig (dir : string) (profile : option string)
| edgex_device_populateConfig (t : option toml_table_t)
| edgex_device_validateConfig
| edgex_device_dumpConfig
| edgex_device_freeConfig
| toml_free (t : option toml_table_t)
| nanosleep (delay : timespec)
| edgex_data_client_ping (pong : bool)
| edgex_metadata_client_ping (pong : bool)
| edgex_metadata_client_get_deviceservice (svcname : string)
| edgex_device_millitime
| edgex_metadata_client_get_addressable (svcname : string)
| edgex_metadata_client_create_addressable (a : edgex_addressable)
| edgex_metadata_client_create_deviceservice (ds : edgex_deviceservice)
| edgex_device_profiles_upload
| edgex_device_devices
| edgex_rest_server_create (p : Z)
| edgex_rest_server_register_handler (url : string)
    (methods : list edgex_http_method) (h : rest_handler)
| edgex_rest_server_destroy
| edgex_device_process_configured_devices (t : toml_table_t)
| userfns_init (ok : bool)
| userfns_stop (force : bool)
| edgex_metadata_client_create_schedule (key frequency : string)
| edgex_metadata_client_create_scheduleevent
    (key sched addressable svcname : string)
| edgex_metadata_client_get_scheduleevents (svcname : string)
| edgex_metadata_client_get_schedule (schedname : string)
| iot_schedule_create (fn : sched_fn) (interval_ns : Z)
| iot_schedule_add
| iot_scheduler_start
| iot_scheduler_stop
| iot_scheduler_fini
| thpool_destroy
| free_job (url : string)
| edgex_map_deinit (m : map_id)
| edgex_device_free (key : string)
| edgex_deviceprofile_free (key : string)
| free_service
| edgex_device_handler_device (url : string) (method : edgex_http_method)
    (status : Z)
| edgex_device_handler_do_discovery.

(** ** Program state *)

(** The service structure, the caller's [*err], and the calls made so
    far. *)
Record state : Type := {
  st_svc : edgex_device_service;
  st_err : edgex_error;
  st_trace : list action
}.

(** A statement either falls through with a value or executes [return]. *)
Inductive outcome (A : Type) : Type :=
| Next (a : A)
| Returned.
Arguments Next {A} a.
Arguments Returned {A}.

Definition M (A : Type) : Type := state -> outcome A * state.

Definition ret {A} (a : A) : M A := fun s => (Next a, s).

Definition bind {A B} (m : M A) (k : A -> M B) : M B :=
  fun s =>
    match m s with
    | (Next a, s') => k a s'
    | (Returned, s') => (Returned, s')
    end.

Declare Scope stmt_scope.
Delimit Scope stmt_scope with stmt.
Notation "x <- m ;; k" := (bind m (fun x => k))
  (at level 61, m at next level, right associativity) : stmt_scope.
Notation "m ;; k" := (bind m (fun _ => k))
  (at level 61, right associativity) : stmt_scope.
#[local] Open Scope stmt_scope.

(** [return;] *)
Definition return_ {A} : M A := fun s => (Returned, s).

(** A call of a [void] function: its [return] ends the callee only. *)
Definition call {A} (m : M A) : M unit :=
  fun s => (Next tt, snd (m s)).

Definition emit (a : action) : M unit :=
  fun s => (Next tt, {| st_svc := st_svc s; st_err := st_err s;
                        st_trace := st_trace s ++ [a] |}).

(** [*err = e]. *)
Definition set_err (e : edgex_error) : M unit :=
  fun s => (Next tt, {| st_svc := st_svc s; st_err := e;
                        st_trace := st_trace s |}).

Definition get_err : M edgex_error := fun s => (Next (st_err s), s).

Definition get_svc : M edgex_device_service := fun s => (Next (st_svc s), s).

Definition modify_svc (f : edgex_device_service -> edgex_device_service)
  : M unit :=
  fun s => (Next tt, {| st_svc := f (st_svc s); st_err := st_err s;
                        st_trace := st_trace s |}).

(** A call that may write [*err]. *)
Definition extcall {R} (act : R -> action) (o : state -> R * edgex_error)
  : M R :=
  fun s => (Next (fst (o s)),
            {| st_svc := st_svc s; st_err := snd (o s);
               st_trace := st_trace s ++ [act (fst (o s))] |}).

(** A call that has no [err] parameter. *)
Definition extcall_ {R} (act : R -> action) (o : state -> R) : M R :=
  fun s => (Next (o s),
            {| st_svc := st_svc s; st_err := st_err s;
               st_trace := st_trace s ++ [act (o s)] |}).

Definition when_ (b : bool) (m : M unit) : M unit :=
  if b then m else ret tt.

(** [if (p == NULL) ... else ...] *)
Definition if_null {A B} (p : option A) (null : M B) (nonnull : A -> M B)
  : M B :=
  match p with None => null | Some a => nonnull a end.

(** [while ((key = edgex_map_next (...)))] and walks of linked lists. *)
Fixpoint for_each {X} (l : list X) (body : X -> M unit) : M unit :=
  match l with
  | [] => ret tt
  | x :: l' => body x ;; for_each l' body
  end.

Definition log (lvl : loglevel) (msg : string) : M unit :=
  emit (iot_log lvl msg).

Definition is_some {A} (o : option A) : bool :=
  match o with Some _ => true | None => false end.

(** ** The environment *)

(** Every oracle reads the state at the moment of the call.  Those of
    functions with an [edgex_error *err] parameter also give the error
    left in [*err]. *)
Record Env : Type := {
  CSDK_VERSION_STR : string;
  err_reason : edgex_error -> string;
  (* registry *)
  registry_get_registry : string -> state -> option edgex_registry;
  registry_ping : state -> bool * edgex_error;
  registry_get_config :
    string -> option string -> state -> option edgex_nvpairs * edgex_error;
  registry_put_config :
    string -> string -> edgex_nvpairs -> state -> unit * edgex_error;
  registry_register_service :
    string -> string -> Z -> string -> state -> unit * edgex_error;
  (* configuration *)
  populateConfigNV :
    edgex_nvpairs -> state -> edgex_device_config * edgex_error;
  loadConfig :
    string -> option string -> state -> option toml_table_t * edgex_error;
  populateConfig :
    option toml_table_t -> state -> edgex_device_config * edgex_error;
  validateConfig : state -> unit * edgex_error;
  getConfig : edgex_device_service -> edgex_nvpairs;
  parse8601 : string -> option string * Z;
  (* core-data and core-metadata *)
  data_client_ping : state -> bool * edgex_error;
  metadata_client_ping : state -> bool * edgex_error;
  get_deviceservice :
    string -> state -> option edgex_deviceservice * edgex_error;
  millitime : state -> Z;
  get_addressable :
    string -> state -> option edgex_addressable * edgex_error;
  create_addressable :
    edgex_addressable -> state -> option string * edgex_error;
  create_deviceservice :
    edgex_deviceservice -> state -> option string * edgex_error;
  profiles_upload : state -> cache * edgex_error;
  device_devices : state -> (cache * cache) * edgex_error;
  process_configured_devices :
    toml_table_t -> state -> (cache * cache) * edgex_error;
  create_schedule : string -> string -> state -> unit * edgex_error;
  create_scheduleevent :
    string -> string -> string -> string -> state -> unit * edgex_error;
  get_scheduleevents :
    string -> state -> list edgex_scheduleevent * edgex_error;
  get_schedule : string -> state -> edgex_schedule * edgex_error;
  (* REST server, driver, dispatcher *)
  rest_server_create : Z -> state -> option edgex_rest_server * edgex_error;
  driver_init : state -> bool;
  handler_device : string -> edgex_http_method -> state -> Z
}.

(** ** [edgex_device_service_new] *)

Definition thpool_init (n : nat) : threadpool := {| pool_threads := n |}.

Definition iot_scheduler_init (p : threadpool) : iot_scheduler :=
  {| sched_pool := p |}.

(** The result of [edgex_device_service_new]: the returned pointer, the
    value left in [*err], and what went to the default logger.  Pointer
    arguments are options, [None] standing for [NULL].  [glibc_2_1] tells
    whether the build has [__GLIBC_PREREQ(2, 1)]. *)
Definition edgex_device_service_new (glibc_2_1 : bool)
  (name version : option string) (impldata : option N)
  : option edgex_device_service * edgex_error * list action :=
  match impldata with
  | None =>
      (None, EDGEX_NO_DEVICE_IMPL,
       [iot_log LogError
          "edgex_device_service_new: no implementation object"])
  | Some data =>
      match name with
      | None | Some EmptyString =>
          (None, EDGEX_NO_DEVICE_NAME,
           [iot_log LogError "edgex_device_service_new: no name specified"])
      | Some nm =>
          match version with
          | None | Some EmptyString =>
              (None, EDGEX_NO_DEVICE_VERSION,
               [iot_log LogError
                  "edgex_device_service_new: no version specified"])
          | Some ver =>
              let pool := thpool_init POOL_THREADS in
              (Some {| name := nm; version := ver; userdata := data;
                       logger := None; config := zero_config;
                       adminstate := LOCKED; opstate := ENABLED;
                       daemon := None; sjobs := [];
                       thpool := pool;
                       scheduler := Some (iot_scheduler_init pool);
                       devices := []; name_to_id := []; profiles := [];
                       deviceslock :=
                         {| rw_initialised := true;
                            rw_prefer_writer := glibc_2_1 |};
                       discolock := {| mx_initialised := true |};
                       profileslock := {| mx_initialised := true |} |},
               EDGEX_OK, [])
          end
      end
  end.

(** ** [ping_handler] *)

Record http_reply : Type := {
  reply_status : Z;
  reply_body : string;
  reply_type : string
}.

Definition ping_handler (url : string) (method : edgex_http_method)
  (upload_data : option string) : http_reply :=
  {| reply_status := MHD_HTTP_OK;
     reply_body :=
       "{" ++ dquote ++ "value" ++ dquote ++ ":" ++ dquote ++ "pong"
           ++ dquote ++ "}" ++ newline;
     reply_type := "application/json" |}.

(** ** Retry loops

    [while (!ping (...) && --retries) nanosleep (&delay, NULL);]
    The result is the value of [retries] after the loop.  The counter is
    an [int], decremented with wrap-around (what compilers make of the
    overflow that C leaves undefined): it reaches 0 again after at most
    [2 ^ 32] decrements, which bounds the number of iterations.  [retry]
    gives the loop that many turns, so the case [O] is never reached. *)
Fixpoint retry_loop (fuel : nat) (ping : M bool) (delay : timespec)
  (retries : Z) : M Z :=
  match fuel with
  | O => ret retries
  | S fuel' =>
      pong <- ping ;;
      if pong then ret retries
      else
        let retries' := int_wrap (retries - 1) in
        if retries' =? 0 then ret retries'
        else emit (nanosleep delay) ;; retry_loop fuel' ping delay retries'
  end.

Definition retry (ping : M bool) (delay : timespec) (retries : Z) : M Z :=
  retry_loop (S (Z.to_nat ((retries - 1) mod 2 ^ 32))) ping delay retries.

(** Modelled from the spec: the macro [IOT_SEC_TO_NS] of the scheduler's
    header is not part of the sources; intervals are in nanoseconds. *)
Definition IOT_SEC_TO_NS (s : Z) : Z := s * 1000000000.

Section Lifecycle.

Variable E : Env.

(** ** [dev_invoker] *)

Definition dev_invoker (url : string) : M unit :=
  rc <- extcall_ (edgex_device_handler_device url GET)
          (handler_device E url GET) ;;
  when_ (negb (rc =? MHD_HTTP_OK))
    (log LogError
       ("Scheduled request to " ++ EDGEX_DEV_API_DEVICE ++ url
          ++ ": HTTP " ++ fmt_d rc)).

(** What the scheduler runs when a schedule fires. *)
Definition fire (fn : sched_fn) : M unit :=
  match fn with
  | Fn_do_discovery => emit edgex_device_handler_do_discovery
  | Fn_dev_invoker url => dev_invoker url
  end.

(** ** [startConfigured] *)

Definition add_logger (impl : log_impl) (target : string)
  (svc : edgex_device_service) : edgex_device_service :=
  set_logger
    (match logger svc with
     | Some lc => Some {| lc_name := lc_name lc;
                          lc_loggers := (impl, target) :: lc_loggers lc |}
     | None => None
     end) svc.

(** The three-way test that follows each create call of the schedule
    upload: created, already there, or failed. *)
Definition check_created (created skipped unable : string) : M unit :=
  e <- get_err ;;
  if negb (failed e) then log LogInfo created
  else if is_conflict e then log LogInfo skipped
  else (log LogError unable ;; return_).

(** Register device service in metadata. *)
Definition register_deviceservice : M unit :=
  svc <- get_svc ;;
  ds <- extcall (fun _ => edgex_metadata_client_get_deviceservice (name svc))
          (get_deviceservice E (name svc)) ;;
  e <- get_err ;;
  when_ (failed e) (log LogError "get_deviceservice failed" ;; return_) ;;
  if_null ds
    (millis <- extcall_ (fun _ => edgex_device_millitime) (millitime E) ;;
     addr <- extcall
               (fun _ => edgex_metadata_client_get_addressable (name svc))
               (get_addressable E (name svc)) ;;
     e <- get_err ;;
     when_ (failed e) (log LogError "get_addressable failed" ;; return_) ;;
     addr <- if_null addr
               (let a :=
                  {| addr_id := None; addr_name := name svc;
                     addr_origin := millis; addr_protocol := "HTTP";
                     addr_method := "POST";
                     addr_address := host (service (config svc));
                     addr_port := port (service (config svc));
                     addr_path := EDGEX_DEV_API_CALLBACK |} in
                id <- extcall
                        (fun _ => edgex_metadata_client_create_addressable a)
                        (create_addressable E a) ;;
                e <- get_err ;;
                when_ (failed e)
                  (log LogError "create_addressable failed" ;; return_) ;;
                ret {| addr_id := id; addr_name := addr_name a;
                       addr_origin := addr_origin a;
                       addr_protocol := addr_protocol a;
                       addr_method := addr_method a;
                       addr_address := addr_address a;
                       addr_port := addr_port a;
                       addr_path := addr_path a |})
               (fun a => ret a) ;;
     let ds :=
       {| ds_id := None; ds_name := name svc; ds_addressable := addr;
          ds_operatingState := ENABLED; ds_adminState := UNLOCKED;
          ds_created := millis;
          ds_labels :=
            fold_left (fun acc l => l :: acc)
              (labels (service (config svc))) [] |} in
     extcall (fun _ => edgex_metadata_client_create_deviceservice ds)
       (create_deviceservice E ds) ;;
     e <- get_err ;;
     when_ (failed e)
       (log LogError "Unable to create device service in metadata" ;;
        return_))
    (fun _ => ret tt).

(** Upload Schedules: one turn of the loop. *)
Definition upload_schedule (key frequency : string) : M unit :=
  set_err EDGEX_OK ;;
  extcall (fun _ => edgex_metadata_client_create_schedule key frequency)
    (create_schedule E key frequency) ;;
  check_created ("Created schedule " ++ key)
    ("Skipping already existing schedule " ++ key)
    ("Unable to create schedule " ++ key).

(** Upload ScheduleEvents: one turn of the loop. *)
Definition upload_scheduleevent (key : string)
  (schedevt : edgex_device_scheduleeventinfo) : M unit :=
  when_ (strcmp (path schedevt) EDGEX_DEV_API_DISCOVERY
         && strncmp (path schedevt) EDGEX_DEV_API_DEVICE)
    (log LogError
       ("Scheduled Event " ++ key
          ++ " not valid, only discovery and device commands are allowed") ;;
     set_err EDGEX_BAD_CONFIG ;;
     return_) ;;
  set_err EDGEX_OK ;;
  svc <- get_svc ;;
  let addr_name := key ++ ADDR_EXT in
  let add :=
    {| addr_id := None; addr_name := addr_name; addr_origin := 0;
       addr_protocol := "HTTP"; addr_method := "GET";
       addr_address := host (service (config svc));
       addr_port := port (service (config svc));
       addr_path := path schedevt |} in
  extcall (fun _ => edgex_metadata_client_create_addressable add)
    (create_addressable E add) ;;
  check_created ("Created addressable " ++ addr_name)
    ("Skipping already existing addressable " ++ addr_name)
    ("Unable to create addressable " ++ addr_name) ;;
  set_err EDGEX_OK ;;
  extcall
    (fun _ => edgex_metadata_client_create_scheduleevent key
                (schedule schedevt) addr_name (name svc))
    (create_scheduleevent E key (schedule schedevt) addr_name (name svc)) ;;
  check_created ("Created ScheduleEvent " ++ key)
    ("Skipping already existing ScheduleEvent " ++ key)
    ("Unable to create ScheduleEvent " ++ key).

(** Retrieve schedule events: one turn of the loop over the list that
    metadata returned.  In the last branch the source prints the loop
    variable [key] of the upload loop, which is [NULL] by then. *)
Definition schedule_event (ev : edgex_scheduleevent) : M unit :=
  sched <- extcall
             (fun _ => edgex_metadata_client_get_schedule (se_schedule ev))
             (get_schedule E (se_schedule ev)) ;;
  e <- get_err ;;
  when_ (failed e)
    (log LogError
       ("Unable to obtain Schedule " ++ se_schedule ev ++ " from metadata") ;;
     return_) ;;
  let estr := fst (parse8601 E (sch_frequency sched)) in
  let interval := snd (parse8601 E (sch_frequency sched)) in
  if_null estr (ret tt)
    (fun msg =>
       log LogError
         ("Unable to parse frequency for schedule " ++ se_schedule ev
            ++ ", " ++ msg) ;;
       set_err EDGEX_BAD_CONFIG ;;
       return_) ;;
  (if negb (strcmp (addr_path (se_addressable ev)) EDGEX_DEV_API_DISCOVERY)
   then emit (iot_schedule_create Fn_do_discovery (IOT_SEC_TO_NS interval))
   else if negb (strncmp (addr_path (se_addressable ev))
                   EDGEX_DEV_API_DEVICE)
   then
     let url :=
       skip (String.length EDGEX_DEV_API_DEVICE)
         (addr_path (se_addressable ev)) in
     modify_svc (fun svc => set_sjobs (url :: sjobs svc) svc) ;;
     emit (iot_schedule_create (Fn_dev_invoker url) (IOT_SEC_TO_NS interval))
   else
     (log LogError
        ("Scheduled Event (null) is invalid, "
           ++ "only discovery and device commands are allowed") ;;
      set_err EDGEX_BAD_CONFIG ;;
      return_)) ;;
  emit iot_schedule_add.

Definition retrieve_scheduleevents : M unit :=
  set_err EDGEX_OK ;;
  svc <- get_svc ;;
  events <- extcall
              (fun _ => edgex_metadata_client_get_scheduleevents (name svc))
              (get_scheduleevents E (name svc)) ;;
  e <- get_err ;;
  when_ (failed e)
    (log LogError "Unable to obtain ScheduleEvents from metadata" ;;
     return_) ;;
  for_each events schedule_event.

(** The delay between two pings of core-data or core-metadata. *)
Definition connect_delay (timeout : Z) : timespec :=
  {| tv_sec := Z.quot timeout 1000;
     tv_nsec := 1000000 * Z.rem timeout 1000 |}.

(** Wait for metadata and data to be available. *)
Definition wait_for_core_services : M unit :=
  svc <- get_svc ;;
  let delay := connect_delay (timeout (service (config svc))) in
  retries <- retry (extcall edgex_data_client_ping (data_client_ping E))
               delay (int_wrap (connectretries (service (config svc)))) ;;
  when_ (retries =? 0)
    (log LogError "core-data service not running" ;;
     set_err EDGEX_REMOTE_SERVER_DOWN ;;
     return_) ;;
  retries <- retry
               (extcall edgex_metadata_client_ping (metadata_client_ping E))
               delay (int_wrap (connectretries (service (config svc)))) ;;
  when_ (retries =? 0)
    (log LogError "core-metadata service not running" ;;
     set_err EDGEX_REMOTE_SERVER_DOWN ;;
     return_) ;;
  set_err EDGEX_OK.

(** Validation, loggers and the upload of the configuration: the head of
    [startConfigured]. *)
Definition configure_and_upload (profile : option string) : M unit :=
  extcall (fun _ => edgex_device_validateConfig) (validateConfig E) ;;
  e <- get_err ;;
  when_ (failed e) return_ ;;
  svc <- get_svc ;;
  if_null (file (logging (config svc))) (ret tt)
    (fun f =>
       emit (iot_log_addlogger iot_log_tofile f) ;;
       modify_svc (add_logger iot_log_tofile f)) ;;
  if_null (remoteurl (logging (config svc))) (ret tt)
    (fun u =>
       emit (iot_log_addlogger edgex_log_torest u) ;;
       modify_svc (add_logger edgex_log_torest u)) ;;
  if_null profile (ret tt)
    (fun p =>
       log LogInfo "Uploading configuration to registry." ;;
       svc <- get_svc ;;
       let c := getConfig E svc in
       extcall (fun _ => edgex_registry_put_config (name svc) p c)
         (registry_put_config E (name svc) p c) ;;
       e <- get_err ;;
       when_ (failed e)
         (log LogError ("Unable to upload config: " ++ err_reason E e) ;;
          return_)) ;;
  log LogDebug
    ("Starting " ++ name svc ++ " device service, version " ++ version svc) ;;
  log LogDebug ("EdgeX device SDK for C, version " ++ CSDK_VERSION_STR E) ;;
  emit edgex_device_dumpConfig ;;
  modify_svc (set_states UNLOCKED ENABLED).

Definition startConfigured (registry : option edgex_registry)
  (toml : option toml_table_t) (profile : option string) : M unit :=
  configure_and_upload profile ;;
  wait_for_core_services ;;
  register_deviceservice ;;
  (* Load DeviceProfiles from files and register in metadata *)
  p <- extcall (fun _ => edgex_device_profiles_upload) (profiles_upload E) ;;
  modify_svc (fun svc => set_caches (devices svc) (name_to_id svc) p svc) ;;
  e <- get_err ;;
  when_ (failed e) return_ ;;
  (* Obtain Devices from metadata *)
  d <- extcall (fun _ => edgex_device_devices) (device_devices E) ;;
  modify_svc (fun svc => set_caches (fst d) (snd d) (profiles svc) svc) ;;
  e <- get_err ;;
  when_ (failed e) return_ ;;
  (* Start REST server *)
  svc <- get_svc ;;
  srv <- extcall
           (fun _ => edgex_rest_server_create (port (service (config svc))))
           (rest_server_create E (port (service (config svc)))) ;;
  modify_svc (set_daemon srv) ;;
  e <- get_err ;;
  when_ (failed e) return_ ;;
  emit (edgex_rest_server_register_handler EDGEX_DEV_API_CALLBACK
          [PUT; POST; DELETE] Handler_callback) ;;
  (* Obtain Devices from configuration *)
  if_null toml (ret tt)
    (fun t =>
       d <- extcall (fun _ => edgex_device_process_configured_devices t)
              (process_configured_devices E t) ;;
       modify_svc
         (fun svc => set_caches (fst d) (snd d) (profiles svc) svc) ;;
       e <- get_err ;;
       when_ (failed e) return_) ;;
  (* Driver configuration *)
  ok <- extcall_ userfns_init (driver_init E) ;;
  when_ (negb ok)
    (set_err EDGEX_DRIVER_UNSTART ;;
     log LogError "Protocol driver initialization failed" ;;
     return_) ;;
  (* Handle device and discovery requests *)
  emit (edgex_rest_server_register_handler EDGEX_DEV_API_DEVICE
          [GET; PUT; POST] Handler_device) ;;
  emit (edgex_rest_server_register_handler EDGEX_DEV_API_DISCOVERY
          [POST] Handler_discovery) ;;
  (* Upload Schedules and ScheduleEvents *)
  for_each (schedules (config svc))
    (fun kv => upload_schedule (fst kv) (snd kv)) ;;
  for_each (scheduleevents (config svc))
    (fun kv => upload_scheduleevent (fst kv) (snd kv)) ;;
  (* Retrieve schedule events *)
  retrieve_scheduleevents ;;
  (* Start scheduled events *)
  emit iot_scheduler_start ;;
  (* Ready. Enable SMA handlers and log that we have started *)
  emit (edgex_rest_server_register_handler EDGEX_DEV_API_METRICS
          [GET] Handler_metrics) ;;
  emit (edgex_rest_server_register_handler EDGEX_DEV_API_CONFIG
          [GET] Handler_config) ;;
  emit (edgex_rest_server_register_handler EDGEX_DEV_API_PING
          [GET] Handler_ping) ;;
  match registry, checkinterval (service (config svc)) with
  | Some _, Some interval =>
      extcall
        (fun _ => edgex_registry_register_service (name svc)
                    (host (service (config svc)))
                    (port (service (config svc))) interval)
        (registry_register_service E (name svc)
           (host (service (config svc)))
           (port (service (config svc))) interval) ;;
      e <- get_err ;;
      when_ (failed e)
        (log LogError "Unable to register service in registry" ;; return_)
  | _, _ => ret tt
  end ;;
  (* the message is the format of the log call *)
  if_null (startupmsg (service (config svc))) (ret tt)
    (fun msg => log LogDebug (fmt_noargs msg)).

(** ** [edgex_device_service_start] *)

Definition registry_delay : timespec := {| tv_sec := 1; tv_nsec := 0 |}.

Definition edgex_device_service_start
  (registryURL profile confDir : option string) : M unit :=
  svc <- get_svc ;;
  emit (iot_logging_client_create (name svc)) ;;
  modify_svc
    (set_logger (Some {| lc_name := name svc; lc_loggers := [] |})) ;;
  let confDir :=
    match confDir with
    | None | Some EmptyString => "res"
    | Some d => d
    end in
  set_err EDGEX_OK ;;
  registry <- if_null registryURL (ret None)
                (fun url =>
                   r <- extcall_
                          (fun r => edgex_registry_get_registry url
                                      (is_some r))
                          (registry_get_registry E url) ;;
                   if_null r (set_err EDGEX_INVALID_ARG ;; return_)
                     (fun r => ret (Some r))) ;;
  uploadConfig <-
    if_null registry (ret false)
      (fun _ =>
         (* Wait for registry to be ready *)
         retries <- retry (extcall edgex_registry_ping (registry_ping E))
                      registry_delay 5 ;;
         when_ (retries =? 0)
           (log LogError "registry service not running" ;;
            set_err EDGEX_REMOTE_SERVER_DOWN ;;
            emit (edgex_registry_free registry) ;;
            return_) ;;
         confpairs <- extcall
                        (fun _ => edgex_registry_get_config (name svc)
                                    profile)
                        (registry_get_config E (name svc) profile) ;;
         if_null confpairs
           (log LogInfo "Unable to get configuration from registry." ;;
            log LogInfo "Will load from file." ;;
            set_err EDGEX_OK ;;
            ret true)
           (fun pairs =>
              c <- extcall (fun _ => edgex_device_populateConfigNV pairs)
                     (populateConfigNV E pairs) ;;
              modify_svc (set_config c) ;;
              e <- get_err ;;
              when_ (failed e)
                (emit (edgex_registry_free registry) ;; return_) ;;
              ret false)) ;;
  toml <-
    (if uploadConfig || negb (is_some registry)
     then
       t <- extcall (fun _ => edgex_device_loadConfig confDir profile)
              (loadConfig E confDir profile) ;;
       e <- get_err ;;
       when_ (failed e) (emit (edgex_registry_free registry) ;; return_) ;;
       c <- extcall (fun _ => edgex_device_populateConfig t)
              (populateConfig E t) ;;
       modify_svc (set_config c) ;;
       ret t
     else ret None) ;;
  svc <- get_svc ;;
  when_ (negb (is_some (profilesdir (config svc))))
    (modify_svc
       (fun svc => set_config (set_profilesdir (Some confDir) (config svc))
                     svc)) ;;
  call (startConfigured registry toml
          (if uploadConfig then profile else None)) ;;
  emit (edgex_registry_free registry) ;;
  emit (toml_free toml).

End Lifecycle.

(** ** [edgex_device_service_stop]

    The final [free (svc)] is the action [free_service]. *)
Definition edgex_device_service_stop (force : bool) : M unit :=
  set_err EDGEX_OK ;;
  log LogDebug "Stop device service" ;;
  svc <- get_svc ;;
  when_ (is_some (scheduler svc))
    (emit iot_scheduler_stop ;; emit iot_scheduler_fini) ;;
  when_ (is_some (daemon svc)) (emit edgex_rest_server_destroy) ;;
  emit (userfns_stop force) ;;
  emit thpool_destroy ;;
  log LogDebug "Stopped device service" ;;
  for_each (sjobs svc) (fun url => emit (free_job url)) ;;
  modify_svc (set_sjobs []) ;;
  emit edgex_device_freeConfig ;;
  emit iot_logging_client_destroy ;;
  emit (edgex_map_deinit Map_name_to_id) ;;
  for_each (devices svc) (fun kv => emit (edgex_device_free (fst kv))) ;;
  emit (edgex_map_deinit Map_devices) ;;
  for_each (profiles svc)
    (fun kv => emit (edgex_deviceprofile_free (fst kv))) ;;
  emit (edgex_map_deinit Map_profiles) ;;
  emit edgex_registry_fini ;;
  emit free_service.

(** Running a statement on a service, from an empty trace. *)
Definition run {A} (m : M A) (svc : edgex_device_service)
  (err : edgex_error) : outcome A * state :=
  m {| st_svc := svc; st_err := err; st_trace := [] |}.

Definition trace_of {A} (m : M A) (svc : edgex_device_service)
  (err : edgex_error) : list action :=
  st_trace (snd (run m svc err)).

Definition err_of {A} (m : M A) (svc : edgex_device_service)
  (err : edgex_error) : edgex_error :=
  st_err (snd (run m svc err)).

(** ** A concrete deployment

    An environment driven by a few switches, for running the model on
    concrete inputs. *)
Module Scenario.

Record switches : Type := {
  data_down : nat;            (* failed core-data pings before a pong *)
  registry_config : option edgex_nvpairs;
  file_config : edgex_device_config;
  ds_known : bool;            (* device service already in metadata *)
  addr_known : bool;          (* its addressable already in metadata *)
  create_addr_err : edgex_error;
  create_sched_err : edgex_error;
  init_ok : bool;
  device_status : Z;
  md_events : list edgex_scheduleevent
}.

Definition is_data_ping (a : action) : bool :=
  match a with edgex_data_client_ping _ => true | _ => false end.

Definition the_addressable (path : string) : edgex_addressable :=
  {| addr_id := Some "a1"; addr_name := "addr"; addr_origin := 0;
     addr_protocol := "HTTP"; addr_method := "GET";
     addr_address := "localhost"; addr_port := 49990; addr_path := path |}.

Definition env (sw : switches) : Env :=
  {| CSDK_VERSION_STR := "0.7.2";
     err_reason := fun _ => "reason";
     registry_get_registry := fun url _ => Some (Registry url);
     registry_ping := fun _ => (true, EDGEX_OK);
     registry_get_config := fun _ _ _ => (registry_config sw, EDGEX_OK);
     registry_put_config := fun _ _ _ _ => (tt, EDGEX_OK);
     registry_register_service := fun _ _ _ _ _ => (tt, EDGEX_OK);
     populateConfigNV := fun _ _ => (file_config sw, EDGEX_OK);
     loadConfig := fun d p _ => (Some (TomlTable d p), EDGEX_OK);
     populateConfig := fun _ s => (file_config sw, st_err s);
     validateConfig := fun s => (tt, st_err s);
     getConfig := fun svc => [("Service/Host", host (service (config svc)))];
     parse8601 := fun f => if String.eqb f "PT5S" then (None, 5)
                           else (Some "bad duration", 0);
     data_client_ping :=
       fun s => (Nat.leb (data_down sw)
                   (List.length (filter is_data_ping (st_trace s))),
                 EDGEX_OK);
     metadata_client_ping := fun _ => (true, EDGEX_OK);
     get_deviceservice :=
       fun n _ =>
         (if ds_known sw
          then Some {| ds_id := Some "ds1"; ds_name := n;
                       ds_addressable :=
                         the_addressable EDGEX_DEV_API_CALLBACK;
                       ds_operatingState := ENABLED;
                       ds_adminState := UNLOCKED;
                       ds_created := 0; ds_labels := [] |}
          else None, EDGEX_OK);
     millitime := fun _ => 1546300800000;
     get_addressable :=
       fun _ _ =>
         (if addr_known sw then Some (the_addressable EDGEX_DEV_API_CALLBACK)
          else None, EDGEX_OK);
     create_addressable := fun _ _ => (Some "a2", create_addr_err sw);
     create_deviceservice := fun _ _ => (Some "ds2", EDGEX_OK);
     profiles_upload := fun s => (profiles (st_svc s), EDGEX_OK);
     device_devices :=
       fun s => ((devices (st_svc s), name_to_id (st_svc s)), EDGEX_OK);
     process_configured_devices :=
       fun _ s => ((devices (st_svc s), name_to_id (st_svc s)), EDGEX_OK);
     create_schedule := fun _ _ _ => (tt, create_sched_err sw);
     create_scheduleevent := fun _ _ _ _ _ => (tt, EDGEX_OK);
     get_scheduleevents := fun _ _ => (md_events sw, EDGEX_OK);
     get_schedule :=
       fun n _ => ({| sch_name := n; sch_frequency := "PT5S" |}, EDGEX_OK);
     rest_server_create := fun p _ => (Some {| rest_port := p |}, EDGEX_OK);
     driver_init := fun _ => init_ok sw;
     handler_device := fun _ _ _ => device_status sw |}.

Definition the_config (retries : Z)
  (events : list (string * edgex_device_scheduleeventinfo))
  : edgex_device_config :=
  {| service := {| host := "localhost"; port := 49990; timeout := 5000;
                   connectretries := retries; checkinterval := Some "10s";
                   labels := ["demo"]; startupmsg := Some "started" |};
     logging := {| file := None; remoteurl := None |};
     profilesdir := None;
     schedules := [("s1", "PT5S")];
     scheduleevents := events;
     driverconf := [] |}.

Definition good_events : list (string * edgex_device_scheduleeventinfo) :=
  [("e1", {| schedule := "s1"; path := "/api/v1/discovery" |});
   ("e2", {| schedule := "s1"; path := "/api/v1/device/all/temp" |})].

Definition the_md_events : list edgex_scheduleevent :=
  [{| se_name := "e1"; se_schedule := "s1";
      se_addressable := the_addressable "/api/v1/discovery" |};
   {| se_name := "e2"; se_schedule := "s1";
      se_addressable := the_addressable "/api/v1/device/all/temp" |}].

Definition normal : switches :=
  {| data_down := 0; registry_config := None;
     file_config := the_config 3 good_events;
     ds_known := false; addr_known := false;
     create_addr_err := EDGEX_OK; create_sched_err := EDGEX_OK;
     init_ok := true; device_status := 200;
     md_events := the_md_events |}.


(** Every schedule is already in metadata. *)
Definition sched_conflict : switches :=
  {| data_down := 0; registry_config := None;
     file_config := the_config 3 good_events;
     ds_known := true; addr_known := true;
     create_addr_err := EDGEX_OK; create_sched_err := EDGEX_HTTP_CONFLICT;
     init_ok := true; device_status := 200;
     md_events := the_md_events |}.

(** The configuration leaves [ConnectRetries] at 0. *)
Definition no_retries : switches :=
  {| data_down := 0; registry_config := None;
     file_config := the_config 0 good_events;
     ds_known := false; addr_known := false;
     create_addr_err := EDGEX_OK; create_sched_err := EDGEX_OK;
     init_ok := true; device_status := 200;
     md_events := the_md_events |}.

(** Core-data answers the third ping. *)
Definition slow_data : switches :=
  {| data_down := 2; registry_config := None;
     file_config := the_config 3 good_events;
     ds_known := false; addr_known := false;
     create_addr_err := EDGEX_OK; create_sched_err := EDGEX_OK;
     init_ok := true; device_status := 200;
     md_events := the_md_events |}.

(** The dispatcher answers 204 No Content. *)
Definition no_content : switches :=
  {| data_down := 0; registry_config := None;
     file_config := the_config 3 good_events;
     ds_known := false; addr_known := false;
     create_addr_err := EDGEX_OK; create_sched_err := EDGEX_OK;
     init_ok := true; device_status := 204;
     md_events := the_md_events |}.

Definition bad_events : list (string * edgex_device_scheduleeventinfo) :=
  [("e1", {| schedule := "s1"; path := "/api/v1/discovery" |});
   ("e3", {| schedule := "s1"; path := "/api/v1/ping" |})].

(** A schedule event of the configuration points at the ping path. *)
Definition bad_config : switches :=
  {| data_down := 0; registry_config := None;
     file_config := the_config 3 bad_events;
     ds_known := false; addr_known := false;
     create_addr_err := EDGEX_OK; create_sched_err := EDGEX_OK;
     init_ok := true; device_status := 200;
     md_events := the_md_events |}.

Definition bad_md_event : edgex_scheduleevent :=
  {| se_name := "e3"; se_schedule := "s1";
     se_addressable := the_addressable "/api/v1/ping" |}.

(** A service fresh from [edgex_device_service_new]. *)
Definition fresh : edgex_device_service :=
  {| name := "device-demo"; version := "1.0"; userdata := 1%N;
     logger := None; config := zero_config;
     adminstate := LOCKED; opstate := ENABLED;
     daemon := None; sjobs := [];
     thpool := thpool_init POOL_THREADS;
     scheduler := Some (iot_scheduler_init (thpool_init POOL_THREADS));
     devices := []; name_to_id := []; profiles := [];
     deviceslock := {| rw_initialised := true; rw_prefer_writer := true |};
     discolock := {| mx_initialised := true |};
     profileslock := {| mx_initialised := true |} |}.

(** The startup of the fresh service without a registry. *)
Definition startup : list action :=
  trace_of (edgex_device_service_start (env normal) None None None)
    fresh EDGEX_OK.

(** The state in which the fresh service starts. *)
Definition initial : state :=
  {| st_svc := fresh; st_err := EDGEX_OK; st_trace := [] |}.

(** The same service once configured from [the_config]. *)
Definition configured_service
  (events : list (string * edgex_device_scheduleeventinfo)) : state :=
  {| st_svc := set_config (the_config 3 events) fresh;
     st_err := EDGEX_OK; st_trace := [] |}.

Definition device_event : edgex_scheduleevent :=
  {| se_name := "e2"; se_schedule := "s1";
     se_addressable := the_addressable "/api/v1/device/all/temp" |}.

Definition registry_url : string := "consul://localhost:8500".

End Scenario.

(** ** Vocabulary of the properties *)

(** A string argument that is [NULL] or empty. *)
Definition null_or_empty (s : option string) : bool :=
  match s with
  | None => true
  | Some s => (String.length s =? 0)%nat
  end.

(** The JSON document that a ping is answered with. *)
Definition pong_json : string :=
  "{" ++ dquote ++ "value" ++ dquote ++ ":" ++ dquote ++ "pong" ++ dquote
      ++ "}".

Definition is_2xx (status : Z) : bool := (200 <=? status) && (status <? 300).

(** The two shapes of path that a schedule event may have. *)
Definition is_discovery_path (p : string) : bool :=
  String.eqb p EDGEX_DEV_API_DISCOVERY.

Definition is_device_path (p : string) : bool :=
  String.prefix EDGEX_DEV_API_DEVICE p.

(** The same state with another value in [*err]. *)
Definition with_err (e : edgex_error) (s : state) : state :=
  {| st_svc := st_svc s; st_err := e; st_trace := st_trace s |}.

(** The same state after one more call. *)
Definition after_call (a : action) (e : edgex_error) (s : state) : state :=
  {| st_svc := st_svc s; st_err := e; st_trace := st_trace s ++ [a] |}.

(** How a create call against metadata ended. *)
Inductive creation : Type := Created | AlreadyThere | Refused.

Definition creation_of (e : edgex_error) : creation :=
  match e with
  | EDGEX_OK => Created
  | EDGEX_HTTP_CONFLICT => AlreadyThere
  | _ => Refused
  end.

Definition creation_log (c : creation) (created skipped unable : string)
  : action :=
  match c with
  | Created => iot_log LogInfo created
  | AlreadyThere => iot_log LogInfo skipped
  | Refused => iot_log LogError unable
  end.

Definition continues (c : creation) : outcome unit :=
  match c with
  | Refused => Returned
  | _ => Next tt
  end.

(** The teardown in the order in which the specification lists it, with
    the two log lines and the registry finaliser of the source. *)
Definition teardown_order (force : bool) (svc : edgex_device_service)
  : list action :=
  [iot_log LogDebug "Stop device service"]
  ++ (if is_some (scheduler svc)
      then [iot_scheduler_stop; iot_scheduler_fini] else [])
  ++ (if is_some (daemon svc) then [edgex_rest_server_destroy] else [])
  ++ [userfns_stop force; thpool_destroy;
      iot_log LogDebug "Stopped device service"]
  ++ map free_job (sjobs svc)
  ++ [edgex_device_freeConfig; iot_logging_client_destroy;
      edgex_map_deinit Map_name_to_id]
  ++ map (fun kv => edgex_device_free (fst kv)) (devices svc)
  ++ [edgex_map_deinit Map_devices]
  ++ map (fun kv => edgex_deviceprofile_free (fst kv)) (profiles svc)
  ++ [edgex_map_deinit Map_profiles; edgex_registry_fini; free_service].

(** The addressable that the service creates for itself, and the one it
    creates for a schedule event. *)
Definition service_addressable (svc : edgex_device_service) (millis : Z)
  : edgex_addressable :=
  {| addr_id := None; addr_name := name svc; addr_origin := millis;
     addr_protocol := "HTTP"; addr_method := "POST";
     addr_address := host (service (config svc));
     addr_port := port (service (config svc));
     addr_path := EDGEX_DEV_API_CALLBACK |}.

Definition event_addressable (svc : edgex_device_service) (key p : string)
  : edgex_addressable :=
  {| addr_id := None; addr_name := key ++ ADDR_EXT; addr_origin := 0;
     addr_protocol := "HTTP"; addr_method := "GET";
     addr_address := host (service (config svc));
     addr_port := port (service (config svc));
     addr_path := p |}.

(** The pings of a retry loop with the sleeps between them. *)
Fixpoint ping_trace (ping : bool -> action) (delay : timespec)
  (pongs : list bool) : list action :=
  match pongs with
  | [] => []
  | [p] => [ping p]
  | p :: ps => ping p :: nanosleep delay :: ping_trace ping delay ps
  end.

(** ** Reading traces *)

(** The part of a trace before, and after, the first action that
    satisfies [p]. *)
Fixpoint before (p : action -> bool) (tr : list action) : list action :=
  match tr with
  | [] => []
  | a :: tr' => if p a then [] else a :: before p tr'
  end.

Fixpoint after (p : action -> bool) (tr : list action) : list action :=
  match tr with
  | [] => []
  | a :: tr' => if p a then tr' else after p tr'
  end.

Definition registers (url : string) (a : action) : bool :=
  match a with
  | edgex_rest_server_register_handler u _ _ => String.eqb u url
  | _ => false
  end.

(** The metadata reconciliation of the first half of the startup:
    device-service lookup and creation, profile upload, device load. *)
Definition is_reconciliation (a : action) : bool :=
  match a with
  | edgex_metadata_client_get_deviceservice _
  | edgex_metadata_client_create_deviceservice _
  | edgex_device_profiles_upload
  | edgex_device_devices => true
  | _ => false
  end.

(** The upload and retrieval of schedules and schedule events. *)
Definition is_schedule_reconciliation (a : action) : bool :=
  match a with
  | edgex_metadata_client_create_schedule _ _
  | edgex_metadata_client_create_scheduleevent _ _ _ _
  | edgex_metadata_client_get_scheduleevents _
  | edgex_metadata_client_get_schedule _ => true
  | _ => false
  end.

Definition is_configured_devices (a : action) : bool :=
  match a with
  | edgex_device_process_configured_devices _ => true
  | _ => false
  end.

(** The order in which the handlers are registered. *)
Definition registration_order : list string :=
  [EDGEX_DEV_API_CALLBACK; EDGEX_DEV_API_DEVICE; EDGEX_DEV_API_DISCOVERY;
   EDGEX_DEV_API_METRICS; EDGEX_DEV_API_CONFIG; EDGEX_DEV_API_PING].

Definition is_driver_init (a : action) : bool :=
  match a with userfns_init _ => true | _ => false end.

Definition is_put_config (a : action) : bool :=
  match a with edgex_registry_put_config _ _ _ => true | _ => false end.

Definition is_ping (a : action) : bool :=
  match a with
  | edgex_registry_ping _ | edgex_data_client_ping _
  | edgex_metadata_client_ping _ => true
  | _ => false
  end.

(** ** The startup sequence

    The calls that make up the startup are numbered in the order of the
    program text of [startConfigured]; logging, pings, sleeps and the
    creation of addressables carry no number. *)
Section Sequence.

#[local] Open Scope nat_scope.

Definition step_of (a : action) : option nat :=
  match a with
  | edgex_metadata_client_get_deviceservice _ => Some 1
  | edgex_metadata_client_create_deviceservice _ => Some 2
  | edgex_device_profiles_upload => Some 3
  | edgex_device_devices => Some 4
  | edgex_rest_server_create _ => Some 5
  | edgex_rest_server_register_handler url _ _ =>
      if String.eqb url EDGEX_DEV_API_CALLBACK then Some 6
      else if String.eqb url EDGEX_DEV_API_DEVICE then Some 9
      else if String.eqb url EDGEX_DEV_API_DISCOVERY then Some 10
      else if String.eqb url EDGEX_DEV_API_METRICS then Some 16
      else if String.eqb url EDGEX_DEV_API_CONFIG then Some 17
      else if String.eqb url EDGEX_DEV_API_PING then Some 18
      else None
  | edgex_device_process_configured_devices _ => Some 7
  | userfns_init true => Some 8
  | edgex_metadata_client_create_schedule _ _ => Some 11
  | edgex_metadata_client_create_scheduleevent _ _ _ _ => Some 12
  | edgex_metadata_client_get_scheduleevents _ => Some 13
  | edgex_metadata_client_get_schedule _
  | iot_schedule_create _ _
  | iot_schedule_add => Some 14
  | iot_scheduler_start => Some 15
  | edgex_registry_register_service _ _ _ _ => Some 19
  | _ => None
  end.

(** Steps that every startup takes once it has got that far. *)
Definition mandatory (n : nat) : bool :=
  existsb (Nat.eqb n) [1; 3; 4; 5; 6; 8; 9; 10; 13; 15; 16; 17; 18].

(** Steps inside loops. *)
Definition repeatable (n : nat) : bool :=
  existsb (Nat.eqb n) [11; 12; 14].

Definition follows (x y : nat) : Prop :=
  x < y \/ (x = y /\ repeatable x = true).

Definition can_follow (hi r : nat) : bool :=
  (hi <? r) || ((hi <=? r) && repeatable r).

Definition no_gap (lo r : nat) : bool :=
  forallb (fun q => negb (mandatory q)) (seq (S lo) (r - S lo)).

Definition steps (tr : list action) : list nat :=
  flat_map (fun a => match step_of a with Some r => [r] | None => [] end) tr.

Inductive increasing : list nat -> Prop :=
| increasing_nil : increasing []
| increasing_cons x l :
    Forall (follows x) l -> increasing l -> increasing (x :: l).

Definition closed (rs : list nat) : Prop :=
  forall r q, In r rs -> mandatory q = true -> q < r -> In q rs.

(** A trace is in sequence when its numbered calls come in increasing
    order, only those of loops being repeated, and no mandatory step
    below a step taken is missing. *)
Definition in_sequence (tr : list action) : Prop :=
  increasing (steps tr) /\ closed (steps tr).

(** The startup has taken every mandatory step up to [lo] and no step
    beyond [hi]. *)
Definition reached (lo hi : nat) (tr : list action) : Prop :=
  in_sequence tr
  /\ Forall (fun r => r <= hi) (steps tr)
  /\ (forall q, mandatory q = true -> q <= lo -> In q (steps tr)).

(** From a trace that has [reached lo hi], statement [m] either falls
    through with a trace that has reached [post], or returns with a trace
    in sequence. *)
Definition advances {A} (lo hi : nat) (m : M A) (post : A -> nat * nat)
  : Prop :=
  forall s, reached lo hi (st_trace s) ->
    match m s with
    | (Next a, s') => reached (fst (post a)) (snd (post a)) (st_trace s')
    | (Returned, s') => in_sequence (st_trace s')
    end.

(** Statements that take no numbered step. *)
Definition neutral {A} (m : M A) : Prop :=
  forall lo hi, advances lo hi m (fun _ => (lo, hi)).

End Sequence.

(** ** Statements and the configuration

    [hoare P m Q R]: from a state in [P], statement [m] either falls
    through with a value and a state in [Q], or returns in a state in
    [R]. *)
Definition hoare {A} (P : state -> Prop) (m : M A)
  (Q : A -> state -> Prop) (R : state -> Prop) : Prop :=
  forall s, P s ->
    match m s with
    | (Next a, s') => Q a s'
    | (Returned, s') => R s'
    end.

Definition configured (c : edgex_device_config) (s : state) : Prop :=
  config (st_svc s) = c.

Definition has_failed (s : state) : Prop := failed (st_err s) = true.

(** Statements that leave the configuration alone and return only with
    an error in [*err]. *)
Definition keeps {A} (m : M A) : Prop :=
  forall c, hoare (configured c) m (fun _ => configured c) has_failed.

(** Statements that never push a configuration to the registry. *)
Definition uploads_nothing {A} (m : M A) : Prop :=
  forall s, existsb is_put_config (st_trace s) = false ->
            existsb is_put_config (st_trace (snd (m s))) = false.

(** Statements that return at once, whatever is in [*err]. *)
Definition gives_up {A} (m : M A) : Prop :=
  forall s, fst (m s) = Returned
            /\ st_err (snd (m s)) = st_err s.

(** ** Frames

    A frame is a condition on states together with the calls and the
    updates of the service structure that cannot break it.  A statement
    preserves a frame when, from a state in [holds], it falls through in
    [holds] or returns in [leaves]. *)
Record frame : Type := {
  holds : state -> Prop;
  leaves : state -> Prop;
  quiet : action -> bool;
  gentle : (edgex_device_service -> edgex_device_service) -> Prop
}.

(** The same state with an updated service structure. *)
Definition with_svc (f : edgex_device_service -> edgex_device_service)
  (s : state) : state :=
  {| st_svc := f (st_svc s); st_err := st_err s; st_trace := st_trace s |}.

Definition sound (F : frame) : Prop :=
  (forall a e s, quiet F a = true -> holds F s -> holds F (after_call a e s))
  /\ (forall e s, holds F s -> holds F (with_err e s))
  /\ (forall f s, gentle F f -> holds F s -> holds F (with_svc f s)).

Definition preserves (F : frame) {A} (m : M A) : Prop :=
  hoare (holds F) m (fun _ => holds F) (leaves F).

(** No call so far satisfies [p]. *)
Definition never (p : action -> bool) : frame :=
  {| holds := fun s => existsb p (st_trace s) = false;
     leaves := fun s => existsb p (st_trace s) = false;
     quiet := fun a => negb (p a);
     gentle := fun _ => True |}.

(** Calls that go to the registry. *)
Definition is_registry_call (a : action) : bool :=
  match a with
  | edgex_registry_get_registry _ _
  | edgex_registry_ping _
  | edgex_registry_get_config _ _
  | edgex_registry_put_config _ _ _
  | edgex_registry_register_service _ _ _ _ => true
  | _ => false
  end.

(** Calls that read the configuration file or act on its contents. *)
Definition is_file_config (a : action) : bool :=
  match a with
  | edgex_device_loadConfig _ _
  | edgex_device_populateConfig _
  | edgex_device_process_configured_devices _
  | edgex_registry_put_config _ _ _ => true
  | _ => false
  end.

(** ** Faulty deployments *)
Module Faults.

(** The environment [e] with another registry lookup and registry
    ping. *)
Definition with_registry
  (lookup : string -> state -> option edgex_registry)
  (ping : state -> bool * edgex_error) (e : Env) : Env :=
  {| CSDK_VERSION_STR := CSDK_VERSION_STR e;
     err_reason := err_reason e;
     registry_get_registry := lookup;
     registry_ping := ping;
     registry_get_config := registry_get_config e;
     registry_put_config := registry_put_config e;
     registry_register_service := registry_register_service e;
     populateConfigNV := populateConfigNV e;
     loadConfig := loadConfig e;
     populateConfig := populateConfig e;
     validateConfig := validateConfig e;
     getConfig := getConfig e;
     parse8601 := parse8601 e;
     data_client_ping := data_client_ping e;
     metadata_client_ping := metadata_client_ping e;
     get_deviceservice := get_deviceservice e;
     millitime := millitime e;
     get_addressable := get_addressable e;
     create_addressable := create_addressable e;
     create_deviceservice := create_deviceservice e;
     profiles_upload := profiles_upload e;
     device_devices := device_devices e;
     process_configured_devices := process_configured_devices e;
     create_schedule := create_schedule e;
     create_scheduleevent := create_scheduleevent e;
     get_scheduleevents := get_scheduleevents e;
     get_schedule := get_schedule e;
     rest_server_create := rest_server_create e;
     driver_init := driver_init e;
     handler_device := handler_device e |}.

(** The environment [e] with another validation of the
    configuration. *)
Definition with_validation (validate : state -> unit * edgex_error)
  (e : Env) : Env :=
  {| CSDK_VERSION_STR := CSDK_VERSION_STR e;
     err_reason := err_reason e;
     registry_get_registry := registry_get_registry e;
     registry_ping := registry_ping e;
     registry_get_config := registry_get_config e;
     registry_put_config := registry_put_config e;
     registry_register_service := registry_register_service e;
     populateConfigNV := populateConfigNV e;
     loadConfig := loadConfig e;
     populateConfig := populateConfig e;
     validateConfig := validate;
     getConfig := getConfig e;
     parse8601 := parse8601 e;
     data_client_ping := data_client_ping e;
     metadata_client_ping := metadata_client_ping e;
     get_deviceservice := get_deviceservice e;
     millitime := millitime e;
     get_addressable := get_addressable e;
     create_addressable := create_addressable e;
     create_deviceservice := create_deviceservice e;
     profiles_upload := profiles_upload e;
     device_devices := device_devices e;
     process_configured_devices := process_configured_devices e;
     create_schedule := create_schedule e;
     create_scheduleevent := create_scheduleevent e;
     get_scheduleevents := get_scheduleevents e;
     get_schedule := get_schedule e;
     rest_server_create := rest_server_create e;
     driver_init := driver_init e;
     handler_device := handler_device e |}.

(** Every configuration is found valid. *)
Definition any_config_valid : Env :=
  with_validation (fun _ => (tt, EDGEX_OK)) (Scenario.env Scenario.normal).

(** The URL names no registry implementation. *)
Definition unknown_registry : Env :=
  with_registry (fun _ _ => None) (fun _ => (true, EDGEX_OK))
    (Scenario.env Scenario.normal).

(** The registry never answers a ping. *)
Definition registry_down : Env :=
  with_registry (fun url _ => Some (Registry url))
    (fun _ => (false, EDGEX_REMOTE_SERVER_DOWN))
    (Scenario.env Scenario.normal).

(** The registry holds a configuration for the service. *)
Definition registry_has_config : Scenario.switches :=
  {| Scenario.data_down := 0;
     Scenario.registry_config := Some [("Service/Host", "localhost")];
     Scenario.file_config := Scenario.the_config 3 Scenario.good_events;
     Scenario.ds_known := false; Scenario.addr_known := false;
     Scenario.create_addr_err := EDGEX_OK;
     Scenario.create_sched_err := EDGEX_OK;
     Scenario.init_ok := true; Scenario.device_status := 200;
     Scenario.md_events := Scenario.the_md_events |}.

(** The driver's [init] fails. *)
Definition init_fails : Scenario.switches :=
  {| Scenario.data_down := 0; Scenario.registry_config := None;
     Scenario.file_config := Scenario.the_config 3 Scenario.good_events;
     Scenario.ds_known := false; Scenario.addr_known := false;
     Scenario.create_addr_err := EDGEX_OK;
     Scenario.create_sched_err := EDGEX_OK;
     Scenario.init_ok := false; Scenario.device_status := 200;
     Scenario.md_events := Scenario.the_md_events |}.

End Faults.

(** ** Outcomes *)

(** [*err] holds [EDGEX_OK]. *)
Definition no_error (s : state) : Prop := st_err s = EDGEX_OK.

(** Whenever [m] falls through, it does so in a state in [Q]. *)
Definition ensures {A} (Q : state -> Prop) (m : M A) : Prop :=
  hoare (fun _ => True) m (fun _ => Q) (fun _ => True).

(** Statements that fall through without an error if they were entered
    without one. *)
Definition stays_ok {A} (m : M A) : Prop :=
  hoare no_error m (fun _ => no_error) (fun _ => True).

(** Statements that return only with an error in [*err]. *)
Definition errs {A} (m : M A) : Prop :=
  hoare (fun _ => True) m (fun _ _ => True) has_failed.

(** The service is unlocked and enabled. *)
Definition running : frame :=
  {| holds := fun s => (adminstate (st_svc s), opstate (st_svc s))
                       = (UNLOCKED, ENABLED);
     leaves := fun _ => True;
     quiet := fun _ => true;
     gentle := fun f => forall svc, (adminstate (f svc), opstate (f svc))
                                    = (adminstate svc, opstate svc) |}.

(** The startup has run to its end. *)
Definition completed (s : state) : Prop :=
  reached 18 19 (st_trace s) /\ holds running s.

(** ** A failed [init] of the driver *)

Definition is_failed_init (a : action) : bool :=
  match a with userfns_init false => true | _ => false end.

(** The startup was ended by the failure of the driver's [init], its
    first call. *)
Definition init_failed (s : state) : Prop :=
  st_err s = EDGEX_DRIVER_UNSTART
  /\ exists pre : list action,
       st_trace s
       = (pre ++ [userfns_init false;
                  iot_log LogError "Protocol driver initialization failed"])
           %list
       /\ existsb is_driver_init pre = false.

(** The same, seen from [edgex_device_service_start], which frees the
    registry handle and the configuration table before it returns. *)
Definition start_init_failed (s : state) : Prop :=
  st_err s = EDGEX_DRIVER_UNSTART
  /\ exists (pre : list action) r t,
       st_trace s
       = (pre ++ [userfns_init false;
                  iot_log LogError "Protocol driver initialization failed";
                  edgex_registry_free r; toml_free t])%list
       /\ existsb is_driver_init pre = false.

(** ** Resources of the startup *)

Definition is_registry_free (a : action) : bool :=
  match a with edgex_registry_free _ => true | _ => false end.

(** The registry handle has been freed, once, and nothing but the
    release of the configuration table has come after it; or no registry
    was found. *)
Definition released (s : state) : Prop :=
  (exists (pre : list action) r post,
      st_trace s = (pre ++ edgex_registry_free r :: post)%list
      /\ existsb is_registry_free pre = false
      /\ (post = [] \/ exists t, post = [toml_free t]))
  \/ (existsb is_registry_free (st_trace s) = false
      /\ st_err s = EDGEX_INVALID_ARG).

(** As long as the handle is not freed, the startup goes on; it ends
    with the handle released. *)
Definition release : frame :=
  {| holds := fun s => existsb is_registry_free (st_trace s) = false;
     leaves := released;
     quiet := fun a => negb (is_registry_free a);
     gentle := fun _ => True |}.

(** The URLs of the device jobs handed to the scheduler, and of the
    jobs freed. *)
Definition invoker_urls (tr : list action) : list string :=
  flat_map (fun a => match a with
                     | iot_schedule_create (Fn_dev_invoker url) _ => [url]
                     | _ => []
                     end) tr.

Definition freed_jobs (tr : list action) : list string :=
  flat_map (fun a => match a with free_job url => [url] | _ => [] end) tr.

(** The job list of the service holds the URLs of the device jobs
    scheduled so far, last first, on top of the list [base]. *)
Definition jobs (base : list string) : frame :=
  {| holds := fun s => sjobs (st_svc s)
                       = (rev (invoker_urls (st_trace s)) ++ base)%list;
     leaves := fun s => sjobs (st_svc s)
                        = (rev (invoker_urls (st_trace s)) ++ base)%list;
     quiet := fun a => match a with
                       | iot_schedule_create (Fn_dev_invoker _) _ => false
                       | _ => true
                       end;
     gentle := fun f => forall svc, sjobs (f svc) = sjobs svc |}.

(** The functions that the scheduler has been given. *)
Definition scheduled (tr : list action) : list sched_fn :=
  flat_map (fun a => match a with
                     | iot_schedule_create fn _ => [fn]
                     | _ => []
                     end) tr.

(** The job that [schedule_event] makes of a schedule event. *)
Definition job_of (ev : edgex_scheduleevent) : sched_fn :=
  if String.eqb (addr_path (se_addressable ev)) EDGEX_DEV_API_DISCOVERY
  then Fn_do_discovery
  else Fn_dev_invoker
         (skip (String.length EDGEX_DEV_API_DEVICE)
            (addr_path (se_addressable ev))).

(** ** More trace readers *)

Definition is_scheduler_start (a : action) : bool :=
  match a with iot_scheduler_start => true | _ => false end.

Definition is_registration (a : action) : bool :=
  match a with
  | edgex_registry_register_service _ _ _ _ => true
  | _ => false
  end.

(** Calls that make or add a schedule. *)
Definition is_scheduling (a : action) : bool :=
  match a with
  | iot_schedule_create _ _ | iot_schedule_add => true
  | _ => false
  end.

(** The schedules handed over to the scheduler by a sequence of calls
    that make or add a schedule: each [iot_schedule_create] must be
    followed at once by the [iot_schedule_add] that hands the schedule
    over.  [None] when a schedule is made and not added, or something is
    added that was not made. *)
Fixpoint handed (tr : list action) : option (list sched_fn) :=
  match tr with
  | [] => Some []
  | iot_schedule_create fn _ :: iot_schedule_add :: rest =>
      option_map (cons fn) (handed rest)
  | _ => None
  end.

(** The device service of the demo deployment, as created in
    metadata. *)
Definition demo_deviceservice : edgex_deviceservice :=
  {| ds_id := None; ds_name := "device-demo";
     ds_addressable :=
       {| addr_id := Some "a2"; addr_name := "device-demo";
          addr_origin := 1546300800000; addr_protocol := "HTTP";
          addr_method := "POST"; addr_address := "localhost";
          addr_port := 49990; addr_path := EDGEX_DEV_API_CALLBACK |};
     ds_operatingState := ENABLED; ds_adminState := UNLOCKED;
     ds_created := 1546300800000; ds_labels := ["demo"] |}.

(** The startup of the demo service with a registry that has no
    configuration for it. *)
Definition registry_startup : list action :=
  trace_of
    (edgex_device_service_start (Scenario.env Scenario.normal)
       (Some Scenario.registry_url) (Some "docker") None)
    Scenario.fresh EDGEX_OK.

(** The configuration has been pushed to the registry, for service [n]
    under profile [p]. *)
Definition uploaded (n p : string) (s : state) : Prop :=
  exists c, In (edgex_registry_put_config n p c) (st_trace s).

Definition after_upload (n p : string) : frame :=
  {| holds := uploaded n p;
     leaves := uploaded n p;
     quiet := fun _ => true;
     gentle := fun _ => True |}.

(** The call [a] has been made. *)
Definition seen (a : action) : frame :=
  {| holds := fun s => In a (st_trace s);
     leaves := fun s => In a (st_trace s);
     quiet := fun _ => true;
     gentle := fun _ => True |}.

Definition is_validation (a : action) : bool :=
  match a with edgex_device_validateConfig => true | _ => false end.

(** The configuration names a directory of device profiles. *)
Definition has_profilesdir : frame :=
  {| holds := fun s => is_some (profilesdir (config (st_svc s))) = true;
     leaves := fun s => is_some (profilesdir (config (st_svc s))) = true;
     quiet := fun _ => true;
     gentle := fun f => forall svc, config (f svc) = config svc |}.

Definition is_server_create (a : action) : bool :=
  match a with edgex_rest_server_create _ => true | _ => false end.

(** The service has the scheduler [sch], and a REST server only if one
    has been created. *)
Definition handles (sch : option iot_scheduler) : frame :=
  {| holds := fun s => scheduler (st_svc s) = sch
                       /\ (is_some (daemon (st_svc s)) = true ->
                           existsb is_server_create (st_trace s) = true);
     leaves := fun s => scheduler (st_svc s) = sch
                        /\ (is_some (daemon (st_svc s)) = true ->
                            existsb is_server_create (st_trace s) = true);
     quiet := fun _ => true;
     gentle := fun f => forall svc, (scheduler (f svc), daemon (f svc))
                                    = (scheduler svc, daemon svc) |}.

(** What identifies a service and what it runs on: name, version, the
    driver's data, the worker pool, the scheduler and the locks. *)
Definition identity_of (svc : edgex_device_service) :=
  (name svc, version svc, userdata svc, thpool svc, scheduler svc,
   (deviceslock svc, discolock svc, profileslock svc)).

Definition same_identity (svc0 : edgex_device_service) : frame :=
  {| holds := fun s => identity_of (st_svc s) = identity_of svc0;
     leaves := fun s => identity_of (st_svc s) = identity_of svc0;
     quiet := fun _ => true;
     gentle := fun f => forall svc, identity_of (f svc) = identity_of svc |}.

(** ** The parts of a startup *)

(** The calls that [edgex_device_service_start] makes itself, around its
    call of [startConfigured]. *)
Definition is_start_call (a : action) : bool :=
  match a with
  | iot_log _ _
  | iot_logging_client_create _
  | edgex_registry_get_registry _ _
  | edgex_registry_ping _
  | nanosleep _
  | edgex_registry_get_config _ _
  | edgex_device_populateConfigNV _
  | edgex_device_loadConfig _ _
  | edgex_device_populateConfig _
  | edgex_registry_free _
  | toml_free _ => true
  | _ => false
  end.

Definition not_start_call (a : action) : bool := negb (is_start_call a).

(** The state in which [edgex_device_service_start] ends when
    [startConfigured] has ended in [s]: the registry handle and the
    configuration table are freed. *)
Definition freed (r : option edgex_registry) (t : option toml_table_t)
  (s : state) : state :=
  {| st_svc := st_svc s; st_err := st_err s;
     st_trace := (st_trace s ++ [edgex_registry_free r; toml_free t])%list |}.

(** The service has the configuration and the name of [r]. *)
Definition about (r : edgex_device_service) (s : state) : Prop :=
  (config (st_svc s), name (st_svc s)) = (config r, name r).

(** A stage of the startup.  The service is about [r], the trace starts
    with [l], and no call in [p] has been made since; the statement may
    also return with the error and the calls since [l] in [U]. *)
Definition beyond (r : edgex_device_service) (l : list action)
  (p : action -> bool) (U : edgex_error -> list action -> Prop) : frame :=
  {| holds := fun s =>
       about r s
       /\ exists rest, st_trace s = (l ++ rest)%list
                       /\ existsb p rest = false;
     leaves := fun s =>
       exists rest, st_trace s = (l ++ rest)%list
                    /\ (existsb p rest = false \/ U (st_err s) rest);
     quiet := fun a => negb (p a);
     gentle := fun f => forall svc, (config (f svc), name (f svc))
                                    = (config svc, name svc) |}.

(** The service is about [r], whatever is called. *)
Definition same_service (r : edgex_device_service) : frame :=
  {| holds := about r;
     leaves := about r;
     quiet := fun _ => true;
     gentle := fun f => forall svc, (config (f svc), name (f svc))
                                    = (config svc, name svc) |}.


Definition no_exit (e : edgex_error) (tr : list action) : Prop := False.

(** ** The upload of schedules and schedule events *)

Definition valid_path (p : string) : bool :=
  is_discovery_path p || is_device_path p.


Definition is_create_addressable (a : action) : bool :=
  match a with edgex_metadata_client_create_addressable _ => true | _ => false end.


Definition is_get_scheduleevents (a : action) : bool :=
  match a with
  | edgex_metadata_client_get_scheduleevents _ => true
  | _ => false
  end.


(** What follows the upload in a startup: the retrieval of the schedule
    events, their schedules, the start of the scheduler, the three
    handlers registered last and the registration with the registry. *)
Definition follows_upload (a : action) : bool :=
  match a with
  | edgex_metadata_client_get_scheduleevents _
  | edgex_metadata_client_get_schedule _
  | iot_schedule_create _ _
  | iot_schedule_add
  | iot_scheduler_start
  | edgex_registry_register_service _ _ _ _ => true
  | edgex_rest_server_register_handler url _ _ =>
      String.eqb url EDGEX_DEV_API_METRICS
      || String.eqb url EDGEX_DEV_API_CONFIG
      || String.eqb url EDGEX_DEV_API_PING
  | _ => false
  end.

(** The log line that rejects the configured schedule event [key]. *)
Definition invalid_event_log (key : string) : action :=
  iot_log LogError
    ("Scheduled Event " ++ key
       ++ " not valid, only discovery and device commands are allowed").

(** The startup ended with the rejection of a schedule event of
    [events] whose path is not valid. *)
Definition rejected_event
  (events : list (string * edgex_device_scheduleeventinfo))
  (e : edgex_error) (tr : list action) : Prop :=
  e = EDGEX_BAD_CONFIG
  /\ exists pre key schedevt,
       tr = (pre ++ [invalid_event_log key])%list
       /\ In (key, schedevt) events
       /\ valid_path (path schedevt) = false.










(** No addressable has been created. *)
Definition no_addressable (e : edgex_error) (tr : list action) : Prop :=
  existsb is_create_addressable tr = false.







(** ** More faulty deployments *)
Module Conflicts.




(** A schedule event of the configuration points at the ping path, and
    the driver's [init] fails. *)
Definition bad_config_init_fails : Scenario.switches :=
  {| Scenario.data_down := 0; Scenario.registry_config := None;
     Scenario.file_config := Scenario.the_config 3 Scenario.bad_events;
     Scenario.ds_known := false; Scenario.addr_known := false;
     Scenario.create_addr_err := EDGEX_OK;
     Scenario.create_sched_err := EDGEX_OK;
     Scenario.init_ok := false; Scenario.device_status := 200;
     Scenario.md_events := Scenario.the_md_events |}.

(** Metadata returns a schedule event on the ping path. *)
Definition bad_md_events : Scenario.switches :=
  {| Scenario.data_down := 0; Scenario.registry_config := None;
     Scenario.file_config := Scenario.the_config 3 Scenario.good_events;
     Scenario.ds_known := false; Scenario.addr_known := false;
     Scenario.create_addr_err := EDGEX_OK;
     Scenario.create_sched_err := EDGEX_OK;
     Scenario.init_ok := true; Scenario.device_status := 200;
     Scenario.md_events := [Scenario.device_event; Scenario.bad_md_event] |}.

End Conflicts.

(** * Properties *)

(** ** The sequence logic *)
Section SequenceFacts.

#[local] Open Scope list_scope.
#[local] Open Scope nat_scope.

Lemma steps_app (l1 l2 : list action) : steps (l1 ++ l2) = steps l1 ++ steps l2.
Proof. unfold steps. apply flat_map_app. Qed.

Lemma steps_snoc_none tr a : step_of a = None -> steps (tr ++ [a]) = steps tr.
Proof.
  intros H. rewrite steps_app. unfold steps at 2. simpl. rewrite H.
  simpl. apply app_nil_r.
Qed.

Lemma steps_snoc_some tr a r :
  step_of a = Some r -> steps (tr ++ [a]) = steps tr ++ [r].
Proof.
  intros H. rewrite steps_app. unfold steps at 2. simpl. now rewrite H.
Qed.

Lemma in_steps tr a r : In a tr -> step_of a = Some r -> In r (steps tr).
Proof.
  intros Hin Hr. unfold steps. apply in_flat_map. exists a. split; auto.
  rewrite Hr. now left.
Qed.

Lemma steps_in tr r :
  In r (steps tr) -> exists a, In a tr /\ step_of a = Some r.
Proof.
  unfold steps. intros H. apply in_flat_map in H. destruct H as [a [Ha Hr]].
  exists a. split; auto.
  destruct (step_of a); simpl in Hr; intuition congruence.
Qed.

Lemma increasing_snoc l x :
  increasing l -> Forall (fun y => follows y x) l -> increasing (l ++ [x]).
Proof.
  induction 1 as [|y l Hy Hl IH]; intros Hx; simpl.
  - constructor; constructor.
  - inversion Hx; subst. constructor.
    + apply Forall_app. split; auto.
    + auto.
Qed.

Lemma increasing_split l1 x l2 :
  increasing (l1 ++ x :: l2) ->
  Forall (fun y => follows y x) l1 /\ Forall (follows x) l2.
Proof.
  induction l1 as [|y l1 IH]; simpl; intros H; inversion H; subst.
  - split; auto.
  - destruct (IH H3) as [H5 H6]. split; auto. constructor; auto.
    apply Forall_app in H2. destruct H2 as [_ H2]. now inversion H2.
Qed.

Lemma reached_in_sequence lo hi tr : reached lo hi tr -> in_sequence tr.
Proof. now intros [H _]. Qed.

Lemma reached_weaken lo hi lo' hi' tr :
  reached lo hi tr -> lo' <= lo -> hi <= hi' -> reached lo' hi' tr.
Proof.
  intros (Hs & Hb & Hm) Hlo Hhi. repeat split; try apply Hs.
  - eapply Forall_impl; [|exact Hb]. simpl. intros; lia.
  - intros q Hq Hle. apply Hm; auto. lia.
Qed.

Lemma reached_start : reached 0 0 [].
Proof.
  repeat split; simpl; try constructor.
  - intros r q [].
  - intros q Hq Hle. assert (q = 0) by lia. subst. discriminate.
Qed.

Lemma reached_unnumbered lo hi tr a :
  step_of a = None -> reached lo hi tr -> reached lo hi (tr ++ [a]).
Proof.
  intros Ha. unfold reached, in_sequence. now rewrite (steps_snoc_none _ _ Ha).
Qed.

Lemma no_gap_spec lo r q :
  no_gap lo r = true -> lo < q -> q < r -> mandatory q = false.
Proof.
  unfold no_gap. intros H Hlo Hr. rewrite forallb_forall in H.
  specialize (H q). rewrite in_seq in H.
  apply negb_true_iff. apply H. lia.
Qed.

Lemma can_follow_spec hi r y :
  can_follow hi r = true -> y <= hi -> follows y r.
Proof.
  unfold can_follow, follows. intros H Hy.
  apply orb_true_iff in H. destruct H as [H|H].
  - apply Nat.ltb_lt in H. left; lia.
  - apply andb_true_iff in H. destruct H as [H1 H2].
    apply Nat.leb_le in H1.
    destruct (Nat.eq_dec y r) as [->|]; [right; auto | left; lia].
Qed.

Lemma reached_numbered lo hi tr a r :
  step_of a = Some r -> can_follow hi r = true -> no_gap lo r = true ->
  reached lo hi tr -> reached r r (tr ++ [a]).
Proof.
  intros Ha Hf Hg ((Hinc & Hcl) & Hb & Hm).
  assert (Hhi : hi <= r).
  { unfold can_follow in Hf. apply orb_true_iff in Hf. destruct Hf as [H|H].
    - apply Nat.ltb_lt in H. lia.
    - apply andb_true_iff in H. destruct H as [H _].
      now apply Nat.leb_le in H. }
  assert (Hall : forall q, mandatory q = true -> q <= r ->
                   In q (steps tr ++ [r])).
  { intros q Hq Hle. apply in_app_iff.
    destruct (Nat.eq_dec q r) as [->|Hne]; [right; now left|].
    destruct (le_lt_dec q lo) as [Hlo|Hlo]; [left; now apply Hm|].
    rewrite (no_gap_spec lo r q) in Hq by (auto; lia). discriminate. }
  unfold reached, in_sequence. rewrite (steps_snoc_some _ _ _ Ha).
  repeat split.
  - apply increasing_snoc; auto.
    eapply Forall_impl; [|exact Hb]. simpl. intros y Hy.
    eapply can_follow_spec; eauto.
  - intros x q Hx Hq Hlt. apply in_app_iff in Hx. destruct Hx as [Hx|[<-|[]]].
    + apply in_app_iff. left. eapply Hcl; eauto.
    + apply Hall; auto. lia.
  - apply Forall_app. split.
    + eapply Forall_impl; [|exact Hb]. simpl. intros; lia.
    + constructor; auto.
  - exact Hall.
Qed.

(** *** Rules *)

Lemma advances_conseq {A} lo hi lo0 hi0 (m : M A) post post' :
  advances lo hi m post ->
  lo <= lo0 -> hi0 <= hi ->
  (forall a, fst (post' a) <= fst (post a) /\ snd (post a) <= snd (post' a)) ->
  advances lo0 hi0 m post'.
Proof.
  intros H Hlo Hhi Hpost s Hs.
  specialize (H s (reached_weaken _ _ _ _ _ Hs Hlo Hhi)).
  destruct (m s) as [[a|] s']; auto.
  destruct (Hpost a). eapply reached_weaken; eauto.
Qed.

Lemma advances_bind {A B} lo hi (m : M A) (k : A -> M B) mid post :
  advances lo hi m mid ->
  (forall a, advances (fst (mid a)) (snd (mid a)) (k a) post) ->
  advances lo hi (bind m k) post.
Proof.
  intros Hm Hk s Hs. unfold bind. specialize (Hm s Hs).
  destruct (m s) as [[a|] s']; auto. now apply Hk.
Qed.

Lemma neutral_advances {A} (m : M A) lo hi :
  neutral m -> advances lo hi m (fun _ => (lo, hi)).
Proof. intros H. apply H. Qed.

Lemma advances_then {A B} lo hi (m : M A) (k : A -> M B) post :
  neutral m -> (forall a, advances lo hi (k a) post) ->
  advances lo hi (bind m k) post.
Proof.
  intros Hm Hk. eapply advances_bind; [apply Hm|]. exact Hk.
Qed.

Lemma neutral_ret {A} (a : A) : neutral (ret a).
Proof. intros lo hi s Hs. exact Hs. Qed.

Lemma neutral_return {A} : neutral (@return_ A).
Proof. intros lo hi s Hs. simpl. eapply reached_in_sequence; eauto. Qed.

Lemma neutral_bind {A B} (m : M A) (k : A -> M B) :
  neutral m -> (forall a, neutral (k a)) -> neutral (bind m k).
Proof.
  intros Hm Hk lo hi. eapply advances_bind; [apply Hm|]. intros a. apply Hk.
Qed.

Lemma neutral_emit a : step_of a = None -> neutral (emit a).
Proof. intros Ha lo hi s Hs. simpl. now apply reached_unnumbered. Qed.

Lemma neutral_log lvl msg : neutral (log lvl msg).
Proof. now apply neutral_emit. Qed.

Lemma neutral_set_err e : neutral (set_err e).
Proof. intros lo hi s Hs. exact Hs. Qed.

Lemma neutral_get_err : neutral get_err.
Proof. intros lo hi s Hs. exact Hs. Qed.

Lemma neutral_get_svc : neutral get_svc.
Proof. intros lo hi s Hs. exact Hs. Qed.

Lemma neutral_modify_svc f : neutral (modify_svc f).
Proof. intros lo hi s Hs. exact Hs. Qed.

Lemma neutral_extcall {R} (act : R -> action) o :
  (forall r, step_of (act r) = None) -> neutral (extcall act o).
Proof. intros Ha lo hi s Hs. simpl. now apply reached_unnumbered. Qed.

Lemma neutral_extcall_ {R} (act : R -> action) o :
  (forall r, step_of (act r) = None) -> neutral (extcall_ act o).
Proof. intros Ha lo hi s Hs. simpl. now apply reached_unnumbered. Qed.

Lemma neutral_when b m : neutral m -> neutral (when_ b m).
Proof. intros Hm. destruct b; simpl; auto using @neutral_ret. Qed.

Lemma neutral_if_null {A B} (p : option A) (m1 : M B) m2 :
  neutral m1 -> (forall a, neutral (m2 a)) -> neutral (if_null p m1 m2).
Proof. intros H1 H2. destruct p; simpl; auto. Qed.

Lemma neutral_if {A} (b : bool) (m1 m2 : M A) :
  neutral m1 -> neutral m2 -> neutral (if b then m1 else m2).
Proof. now destruct b. Qed.

Lemma neutral_for_each {X} (l : list X) body :
  (forall x, neutral (body x)) -> neutral (for_each l body).
Proof.
  intros Hb. induction l; simpl.
  - apply neutral_ret.
  - apply neutral_bind; auto.
Qed.

Lemma advances_emit lo hi a r :
  step_of a = Some r -> can_follow hi r = true -> no_gap lo r = true ->
  advances lo hi (emit a) (fun _ => (r, r)).
Proof. intros Ha Hf Hg s Hs. simpl. eapply reached_numbered; eauto. Qed.

Lemma advances_extcall {R} lo hi (act : R -> action) o r :
  (forall x, step_of (act x) = Some r) ->
  can_follow hi r = true -> no_gap lo r = true ->
  advances lo hi (extcall act o) (fun _ => (r, r)).
Proof. intros Ha Hf Hg s Hs. simpl. eapply reached_numbered; eauto. Qed.

Lemma advances_for_each {X} lo hi (l : list X) body :
  (forall x, advances lo hi (body x) (fun _ => (lo, hi))) ->
  advances lo hi (for_each l body) (fun _ => (lo, hi)).
Proof.
  intros Hb. induction l; simpl.
  - apply neutral_ret.
  - eapply advances_bind; [apply Hb|]. intros u. exact IHl.
Qed.

Lemma step_of_bound a r : step_of a = Some r -> r <= 19.
Proof.
  destruct a; simpl; try discriminate;
    try (intros H; injection H as <-; lia).
  - repeat match goal with
           | |- context [if ?b then _ else _] => destruct b
           end; try discriminate; intros H; injection H as <-; lia.
  - destruct ok; try discriminate. intros H; injection H as <-; lia.
Qed.

Lemma in_sequence_reached tr : in_sequence tr -> reached 0 19 tr.
Proof.
  intros H. repeat split; try apply H.
  - apply Forall_forall. intros r Hr. apply steps_in in Hr.
    destruct Hr as [a [_ Ha]]. eapply step_of_bound; eauto.
  - intros q Hq Hle. assert (q = 0) by lia. subst. discriminate.
Qed.

Lemma advances_call {A} lo hi (m : M A) post :
  advances lo hi m post -> advances lo hi (call m) (fun _ => (0, 19)).
Proof.
  intros H s Hs. specialize (H s Hs). unfold call. simpl.
  destruct (m s) as [[a|] s']; simpl; apply in_sequence_reached; auto.
  eapply reached_in_sequence; eauto.
Qed.


Lemma advances_abort {A B} lo hi (m : M A) (k : A -> M B) post :
  (forall s, fst (m s) = Returned) -> neutral m ->
  advances lo hi (bind m k) post.
Proof.
  intros Hr Hm s Hs. unfold bind. specialize (Hm lo hi s Hs).
  specialize (Hr s). destruct (m s) as [[a|] s']; simpl in *;
    [discriminate | exact Hm].
Qed.

Lemma advances_neutral {A} lo hi lo' hi' (m : M A) :
  neutral m -> lo' <= lo -> hi <= hi' ->
  advances lo hi m (fun _ => (lo', hi')).
Proof.
  intros Hm Hlo Hhi. eapply advances_conseq; [apply (Hm lo hi) | | |];
    simpl; auto.
Qed.

End SequenceFacts.

Create HintDb neutral.

#[local] Hint Resolve neutral_ret neutral_return neutral_log neutral_set_err
  neutral_get_err neutral_get_svc neutral_modify_svc : neutral.

Ltac neutral_step :=
  lazymatch goal with
  | |- neutral (bind _ _) => apply neutral_bind; [|intros ?]
  | |- neutral (when_ _ _) => apply neutral_when
  | |- neutral (if_null _ _ _) => apply neutral_if_null; [|intros ?]
  | |- neutral (if _ then _ else _) => apply neutral_if
  | |- neutral (for_each _ _) => apply neutral_for_each; intros ?
  | |- neutral (emit _) => apply neutral_emit; reflexivity
  | |- neutral (extcall _ _) => apply neutral_extcall; intros ?; reflexivity
  | |- neutral (extcall_ _ _) => apply neutral_extcall_; intros ?; reflexivity
  | |- neutral _ => solve [auto with neutral]
  end.

Ltac neutral_tac := cbv zeta; repeat (neutral_step; cbv zeta).

(** [m ;; k] where [m] takes no numbered step. *)
Ltac skip_neutral :=
  eapply advances_then; [solve [neutral_tac] | intros ?; cbv zeta].

(** [m ;; k] where [m] is one numbered call. *)
Ltac take_step :=
  eapply advances_bind;
  [ first [ eapply advances_emit; reflexivity
          | eapply advances_extcall; [intros ?; reflexivity | reflexivity ..] ]
  | intros ?; cbn [fst snd]; cbv zeta ].

Section StartupSequence.

Variable E : Env.
#[local] Open Scope list_scope.
#[local] Open Scope nat_scope.

Lemma neutral_check_created a b c : neutral (check_created a b c).
Proof. unfold check_created. neutral_tac. Qed.

Lemma neutral_retry_loop fuel ping delay retries :
  neutral ping -> neutral (retry_loop fuel ping delay retries).
Proof.
  intros Hp. revert retries.
  induction fuel as [|fuel IH]; intros retries; simpl.
  - apply neutral_ret.
  - apply neutral_bind; auto. intros pong. destruct pong; [apply neutral_ret|].
    destruct (int_wrap (retries - 1) =? 0)%Z; [apply neutral_ret|].
    apply neutral_bind; [apply neutral_emit; reflexivity | intros _; apply IH].
Qed.

Lemma neutral_retry ping delay retries :
  neutral ping -> neutral (retry ping delay retries).
Proof. apply neutral_retry_loop. Qed.

Lemma neutral_configure_and_upload profile :
  neutral (configure_and_upload E profile).
Proof. unfold configure_and_upload. neutral_tac. Qed.

Lemma neutral_wait_for_core_services : neutral (wait_for_core_services E).
Proof.
  unfold wait_for_core_services.
  repeat first [ apply neutral_retry | neutral_step; cbv zeta ].
Qed.

Lemma advances_register_deviceservice :
  advances 0 0 (register_deviceservice E) (fun _ => (1, 2)).
Proof.
  unfold register_deviceservice.
  skip_neutral. take_step. skip_neutral. skip_neutral.
  match goal with |- advances _ _ (if_null ?ds _ _) _ => destruct ds end; simpl.
  - apply advances_neutral; [neutral_tac | lia | lia].
  - skip_neutral. skip_neutral. skip_neutral. skip_neutral. skip_neutral.
    eapply advances_conseq with (lo := 1) (hi := 1) (post := fun _ => (2, 2));
      [|lia|lia|simpl; lia].
    take_step. skip_neutral.
    apply advances_neutral; [neutral_tac | lia | lia].
Qed.

Lemma advances_upload_schedule key frequency :
  advances 10 11 (upload_schedule E key frequency) (fun _ => (10, 11)).
Proof.
  unfold upload_schedule. skip_neutral.
  eapply advances_conseq with (lo := 10) (hi := 11) (post := fun _ => (11, 11));
    [|lia|lia|simpl; lia].
  take_step. apply advances_neutral; [apply neutral_check_created | lia | lia].
Qed.

Lemma advances_upload_scheduleevent key schedevt :
  advances 10 12 (upload_scheduleevent E key schedevt) (fun _ => (10, 12)).
Proof.
  unfold upload_scheduleevent.
  skip_neutral. skip_neutral. skip_neutral. skip_neutral.
  eapply advances_then; [apply neutral_check_created | intros ?].
  skip_neutral.
  eapply advances_conseq with (lo := 10) (hi := 12) (post := fun _ => (12, 12));
    [|lia|lia|simpl; lia].
  take_step. apply advances_neutral; [apply neutral_check_created | lia | lia].
Qed.

Lemma advances_schedule_event ev :
  advances 13 14 (schedule_event E ev) (fun _ => (13, 14)).
Proof.
  unfold schedule_event.
  eapply advances_conseq with (lo := 13) (hi := 14) (post := fun _ => (14, 14));
    [|lia|lia|simpl; lia].
  take_step. skip_neutral. skip_neutral. skip_neutral.
  eapply advances_bind with (mid := fun _ => (14, 14)).
  - destruct (negb (strcmp _ _)).
    + eapply advances_emit; reflexivity.
    + destruct (negb (strncmp _ _)).
      * skip_neutral. eapply advances_emit; reflexivity.
      * apply advances_neutral; [neutral_tac | lia | lia].
  - intros ?. eapply advances_emit; reflexivity.
Qed.

Lemma advances_retrieve_scheduleevents :
  advances 10 12 (retrieve_scheduleevents E) (fun _ => (13, 14)).
Proof.
  unfold retrieve_scheduleevents. skip_neutral. skip_neutral.
  take_step. skip_neutral. skip_neutral.
  eapply advances_conseq with (lo := 13) (hi := 14) (post := fun _ => (13, 14));
    [|lia|lia|simpl; lia].
  apply advances_for_each. intros ev. apply advances_schedule_event.
Qed.

Lemma advances_startConfigured registry toml profile :
  advances 0 0 (startConfigured E registry toml profile) (fun _ => (18, 19)).
Proof.
  unfold startConfigured.
  eapply advances_then; [apply neutral_configure_and_upload | intros ?].
  eapply advances_then; [apply neutral_wait_for_core_services | intros ?].
  eapply advances_bind; [apply advances_register_deviceservice | intros ?].
  cbn [fst snd].
  take_step. skip_neutral. skip_neutral. skip_neutral.
  take_step. skip_neutral. skip_neutral. skip_neutral.
  skip_neutral. take_step. skip_neutral. skip_neutral. skip_neutral.
  take_step.
  eapply advances_bind with (mid := fun _ => (6, 7)).
  { destruct toml; simpl.
    - eapply advances_conseq with (lo := 6) (hi := 6) (post := fun _ => (7, 7));
        [|lia|lia|simpl; lia].
      take_step. apply advances_neutral; [neutral_tac | lia | lia].
    - apply advances_neutral; [neutral_tac | lia | lia]. }
  intros ?. cbn [fst snd].
  eapply advances_bind
    with (mid := fun ok : bool => if ok then (8, 8) else (6, 7)).
  { intros s Hs. simpl. destruct (driver_init E s).
    - apply (reached_numbered 6 7 _ _ 8); auto.
    - apply reached_unnumbered; auto. }
  intros [|]; cbn [fst snd].
  2:{ apply advances_abort; [reflexivity | neutral_tac]. }
  skip_neutral. take_step. take_step.
  eapply advances_bind with (mid := fun _ => (10, 11)).
  { eapply advances_conseq
      with (lo := 10) (hi := 11) (post := fun _ => (10, 11));
      [|lia|lia|simpl; lia].
    apply advances_for_each. intros kv. apply advances_upload_schedule. }
  intros ?. cbn [fst snd].
  eapply advances_bind with (mid := fun _ => (10, 12)).
  { eapply advances_conseq
      with (lo := 10) (hi := 12) (post := fun _ => (10, 12));
      [|lia|lia|simpl; lia].
    apply advances_for_each. intros kv. apply advances_upload_scheduleevent. }
  intros ?. cbn [fst snd].
  eapply advances_bind; [apply advances_retrieve_scheduleevents | intros ?].
  cbn [fst snd].
  take_step. take_step. take_step. take_step.
  eapply advances_bind with (mid := fun _ => (18, 19)).
  { destruct registry as [r|];
      [destruct (checkinterval _) as [i|]|];
      try solve [apply advances_neutral; [neutral_tac | lia | lia]].
    eapply advances_conseq
      with (lo := 18) (hi := 18) (post := fun _ => (19, 19));
      [|lia|lia|simpl; lia].
    take_step. apply advances_neutral; [neutral_tac | lia | lia]. }
  intros ?. cbn [fst snd].
  apply advances_neutral; [neutral_tac | lia | lia].
Qed.

Lemma advances_service_start registryURL profile confDir :
  advances 0 0 (edgex_device_service_start E registryURL profile confDir)
    (fun _ => (0, 19)).
Proof.
  unfold edgex_device_service_start.
  skip_neutral. skip_neutral. skip_neutral. skip_neutral.
  eapply advances_then.
  { repeat first [ apply neutral_retry | neutral_step; cbv zeta ]. }
  intros registry.
  eapply advances_then.
  { repeat first [ apply neutral_retry | neutral_step; cbv zeta ]. }
  intros uploadConfig.
  eapply advances_then; [neutral_tac | intros ?].
  skip_neutral. skip_neutral.
  eapply advances_bind.
  { eapply advances_call. apply advances_startConfigured. }
  intros ?. cbn [fst snd]. neutral_tac.
  apply neutral_advances. neutral_tac.
Qed.

(** Every startup, whatever the environment answers, takes its numbered
    steps in the order of the program text. *)
Theorem startup_in_sequence registryURL profile confDir svc err :
  in_sequence
    (trace_of (edgex_device_service_start E registryURL profile confDir)
       svc err).
Proof.
  pose proof (advances_service_start registryURL profile confDir
                {| st_svc := svc; st_err := err; st_trace := [] |}
                reached_start) as H.
  unfold trace_of, run.
  destruct (edgex_device_service_start _ _ _ _ _) as [[a|] s']; simpl in *.
  - eapply reached_in_sequence; eauto.
  - exact H.
Qed.

End StartupSequence.

Section Order.

#[local] Open Scope list_scope.
#[local] Open Scope nat_scope.

Lemma follows_le x y : follows x y -> x <= y.
Proof. unfold follows. lia. Qed.

Lemma follows_lt x y : follows x y -> repeatable x = false -> x < y.
Proof. unfold follows. intros [H|[_ H]] Hr; [lia | congruence]. Qed.

Lemma in_sequence_split tr pre a post r :
  in_sequence tr -> tr = pre ++ a :: post -> step_of a = Some r ->
  (forall b rb, In b pre -> step_of b = Some rb -> follows rb r)
  /\ (forall b rb, In b post -> step_of b = Some rb -> follows r rb)
  /\ (forall q, mandatory q = true -> q < r ->
        exists b, In b pre /\ step_of b = Some q).
Proof.
  intros [Hinc Hcl] -> Ha.
  assert (Hst : steps (pre ++ a :: post) = steps pre ++ r :: steps post).
  { rewrite steps_app. f_equal. change (a :: post) with ([a] ++ post).
    rewrite steps_app. unfold steps at 1. simpl. now rewrite Ha. }
  rewrite Hst in Hinc, Hcl.
  apply increasing_split in Hinc. destruct Hinc as [Hpre Hpost].
  rewrite Forall_forall in Hpre, Hpost.
  assert (H2 : forall b rb, In b post -> step_of b = Some rb -> follows r rb).
  { intros b rb Hb Hrb. apply Hpost. eapply in_steps; eauto. }
  repeat split; auto.
  - intros b rb Hb Hrb. apply Hpre. eapply in_steps; eauto.
  - intros q Hq Hlt.
    assert (Hin : In q (steps pre ++ r :: steps post)).
    { apply (Hcl r q); auto. apply in_elt. }
    apply in_app_iff in Hin. destruct Hin as [Hin|[Hin|Hin]].
    + now apply steps_in.
    + lia.
    + apply Hpost in Hin. apply follows_le in Hin. lia.
Qed.

Lemma step_1 b : step_of b = Some 1 ->
  exists n, b = edgex_metadata_client_get_deviceservice n.
Proof.
  destruct b; simpl; try discriminate; eauto.
  - repeat match goal with
           | |- context [if ?c then _ else _] => destruct c
           end; discriminate.
  - destruct ok; discriminate.
Qed.

Lemma step_3 b : step_of b = Some 3 -> b = edgex_device_profiles_upload.
Proof.
  destruct b; simpl; try discriminate; eauto.
  - repeat match goal with
           | |- context [if ?c then _ else _] => destruct c
           end; discriminate.
  - destruct ok; discriminate.
Qed.

Lemma step_4 b : step_of b = Some 4 -> b = edgex_device_devices.
Proof.
  destruct b; simpl; try discriminate; eauto.
  - repeat match goal with
           | |- context [if ?c then _ else _] => destruct c
           end; discriminate.
  - destruct ok; discriminate.
Qed.

Lemma step_8 b : step_of b = Some 8 -> b = userfns_init true.
Proof.
  destruct b; simpl; try discriminate; eauto.
  - repeat match goal with
           | |- context [if ?c then _ else _] => destruct c
           end; discriminate.
  - destruct ok; [reflexivity | discriminate].
Qed.

Lemma step_of_callback m h :
  step_of (edgex_rest_server_register_handler EDGEX_DEV_API_CALLBACK m h)
  = Some 6.
Proof. reflexivity. Qed.

Variable E : Env.

(** C1, as amended.  The callback handler is registered after the
    metadata reconciliation of the first half of the startup, not before
    it: whenever [/api/v1/callback] is registered, the device service has
    been looked up, the profiles uploaded and the devices loaded before
    that, no such action follows it, and the processing of configured
    devices, a successful [init] of the driver and the reconciliation of
    schedules and schedule events do not come before it. *)
Theorem callback_registered_after_reconciliation
  registryURL profile confDir svc err pre methods h post :
  trace_of (edgex_device_service_start E registryURL profile confDir) svc err
  = pre ++ edgex_rest_server_register_handler EDGEX_DEV_API_CALLBACK
             methods h :: post ->
  (exists n, In (edgex_metadata_client_get_deviceservice n) pre)
  /\ In edgex_device_profiles_upload pre
  /\ In edgex_device_devices pre
  /\ (forall a, In a post -> is_reconciliation a = false)
  /\ (forall a, In a pre ->
        is_configured_devices a = false
        /\ a <> userfns_init true
        /\ is_schedule_reconciliation a = false).
Proof.
  intros Htr.
  destruct (in_sequence_split _ _ _ _ 6
              (startup_in_sequence E registryURL profile confDir svc err)
              Htr (step_of_callback methods h)) as (Hpre & Hpost & Hman).
  repeat split.
  - destruct (Hman 1) as [b [Hb Hs]]; [reflexivity | lia |].
    apply step_1 in Hs. destruct Hs as [n ->]. eauto.
  - destruct (Hman 3) as [b [Hb Hs]]; [reflexivity | lia |].
    apply step_3 in Hs. now subst.
  - destruct (Hman 4) as [b [Hb Hs]]; [reflexivity | lia |].
    apply step_4 in Hs. now subst.
  - intros a Ha. destruct a; try reflexivity;
      (eapply Hpost in Ha; [|reflexivity]; apply follows_le in Ha; lia).
  - destruct a; try reflexivity.
    eapply Hpre in H; [|reflexivity]. apply follows_le in H; lia.
  - intros ->. eapply Hpre in H; [|reflexivity]. apply follows_le in H; lia.
  - destruct a; try reflexivity;
      (eapply Hpre in H; [|reflexivity]; apply follows_le in H; lia).
Qed.

End Order.

Section Handlers.

#[local] Open Scope list_scope.
#[local] Open Scope nat_scope.

Lemma registers_step j u a :
  nth_error registration_order j = Some u -> registers u a = true ->
  step_of a = Some (nth j [6; 9; 10; 16; 17; 18] 0).
Proof.
  intros Hj Ha. destruct a; try discriminate. simpl in Ha.
  apply String.eqb_eq in Ha. subst url.
  do 6 (destruct j as [|j]; [injection Hj as <-; reflexivity|]).
  destruct j; discriminate.
Qed.

Lemma step_registers j u b :
  nth_error registration_order j = Some u ->
  step_of b = Some (nth j [6; 9; 10; 16; 17; 18] 0) ->
  registers u b = true.
Proof.
  intros Hj Hb.
  assert (Hreg : exists url m h,
             b = edgex_rest_server_register_handler url m h).
  { do 6 (destruct j as [|j];
          [destruct b; try discriminate; eauto;
           destruct ok; discriminate|]).
    destruct j; discriminate. }
  destruct Hreg as (url & m & h & ->).
  unfold registers. unfold step_of in Hb.
  do 6 (destruct j as [|j];
        [injection Hj as <-;
         repeat match type of Hb with
                | context [if ?c then _ else _] => destruct c eqn:?
                end; try discriminate; first [assumption | reflexivity]|]).
  destruct j; discriminate.
Qed.

Lemma handler_steps_facts i j :
  i <= j -> j < 6 ->
  nth i [6; 9; 10; 16; 17; 18] 0 <= nth j [6; 9; 10; 16; 17; 18] 0
  /\ (i < j -> nth i [6; 9; 10; 16; 17; 18] 0 < nth j [6; 9; 10; 16; 17; 18] 0)
  /\ mandatory (nth i [6; 9; 10; 16; 17; 18] 0) = true
  /\ repeatable (nth i [6; 9; 10; 16; 17; 18] 0) = false
  /\ (0 < j -> 8 < nth j [6; 9; 10; 16; 17; 18] 0).
Proof.
  intros Hij Hj.
  do 6 (destruct j as [|j];
        [do 6 (destruct i as [|i]; [simpl; repeat split; lia|]); lia|]).
  lia.
Qed.

Lemma nth_error_order_lt j u :
  nth_error registration_order j = Some u -> j < 6.
Proof.
  intros H. do 6 (destruct j as [|j]; [lia|]). destruct j; discriminate.
Qed.

Variable E : Env.

(** C2, as amended.  Handlers are registered in the order callback,
    device, discovery, metrics, config, ping: when the handler number [j]
    of that list is registered, all earlier ones have been registered
    before it and none of them, nor itself, is registered again.  The
    driver's successful [init] comes after the registration of the
    callback handler and before that of every other handler, device and
    discovery included. *)
Theorem handlers_registered_in_order
  registryURL profile confDir svc err pre a post j u :
  trace_of (edgex_device_service_start E registryURL profile confDir) svc err
  = pre ++ a :: post ->
  nth_error registration_order j = Some u ->
  registers u a = true ->
  (forall i u', i < j -> nth_error registration_order i = Some u' ->
     existsb (registers u') pre = true)
  /\ (forall i u', i <= j -> nth_error registration_order i = Some u' ->
        existsb (registers u') post = false)
  /\ (j = 0 -> ~ In (userfns_init true) pre)
  /\ (0 < j -> In (userfns_init true) pre).
Proof.
  intros Htr Hj Ha.
  pose proof (nth_error_order_lt _ _ Hj) as Hlt.
  destruct (in_sequence_split _ _ _ _ _
              (startup_in_sequence E registryURL profile confDir svc err)
              Htr (registers_step _ _ _ Hj Ha)) as (Hpre & Hpost & Hman).
  repeat split.
  - intros i u' Hi Hu'.
    destruct (handler_steps_facts i j) as (_ & Hs & Hm & _); try lia.
    destruct (Hman _ Hm (Hs Hi)) as [b [Hb Hstep]].
    apply existsb_exists. exists b. split; auto.
    eapply step_registers; eauto.
  - intros i u' Hi Hu'.
    destruct (handler_steps_facts i j) as (Hle & _ & _ & Hr & _); try lia.
    destruct (existsb (registers u') post) eqn:Hex; auto.
    apply existsb_exists in Hex. destruct Hex as [b [Hb Hreg]].
    pose proof (registers_step _ _ _ Hu' Hreg) as Hstep.
    specialize (Hpost _ _ Hb Hstep).
    destruct (handler_steps_facts j j) as (_ & _ & _ & Hrj & _); try lia.
    apply follows_lt in Hpost; auto. lia.
  - intros -> Hin. specialize (Hpre _ 8 Hin eq_refl).
    apply follows_le in Hpre. simpl in Hpre. lia.
  - intros Hpos.
    destruct (handler_steps_facts j j) as (_ & _ & _ & _ & H8); try lia.
    destruct (Hman 8) as [b [Hb Hstep]]; [reflexivity | auto |].
    apply step_8 in Hstep. now subst.
Qed.

End Handlers.

(** ** Service creation *)

Lemma null_or_empty_false s :
  null_or_empty s = false ->
  exists c s', s = Some (String c s').
Proof.
  destruct s as [[|c s']|]; simpl; try discriminate. eauto.
Qed.

(** C3.  [edgex_device_service_new] answers [NULL] with
    [EDGEX_NO_DEVICE_IMPL] for a null implementation object, else [NULL]
    with [EDGEX_NO_DEVICE_NAME] for a null or empty name, else [NULL] with
    [EDGEX_NO_DEVICE_VERSION] for a null or empty version; otherwise the
    error is [EDGEX_OK] and the handle is a service with initialised
    locks, empty maps, a worker pool of [POOL_THREADS] threads and a
    scheduler on that pool. *)
Theorem service_new_checks_arguments glibc_2_1 nm ver impldata :
  let result := edgex_device_service_new glibc_2_1 nm ver impldata in
  let handle := fst (fst result) in
  let err := snd (fst result) in
  match impldata with
  | None => handle = None /\ err = EDGEX_NO_DEVICE_IMPL
  | Some data =>
      if null_or_empty nm
      then handle = None /\ err = EDGEX_NO_DEVICE_NAME
      else if null_or_empty ver
      then handle = None /\ err = EDGEX_NO_DEVICE_VERSION
      else
        err = EDGEX_OK
        /\ exists svc,
             handle = Some svc
             /\ Some (name svc) = nm
             /\ Some (version svc) = ver
             /\ userdata svc = data
             /\ rw_initialised (deviceslock svc) = true
             /\ mx_initialised (discolock svc) = true
             /\ mx_initialised (profileslock svc) = true
             /\ devices svc = [] /\ name_to_id svc = []
             /\ sjobs svc = []
             /\ thpool svc = thpool_init POOL_THREADS
             /\ scheduler svc = Some (iot_scheduler_init (thpool svc))
  end.
Proof.
  destruct impldata as [data|]; [|simpl; auto].
  destruct (null_or_empty nm) eqn:Hn.
  { destruct nm as [[|c n]|]; simpl in *; try discriminate; auto. }
  apply null_or_empty_false in Hn. destruct Hn as (c & n & ->).
  destruct (null_or_empty ver) eqn:Hv.
  { destruct ver as [[|c' v]|]; simpl in *; try discriminate; auto. }
  apply null_or_empty_false in Hv. destruct Hv as (c' & v & ->).
  simpl. split; [reflexivity|]. eexists. split; [reflexivity|].
  simpl. repeat split.
Qed.

(** ** Ping *)

(** C10, as amended.  The ping handler answers 200 with content type
    [application/json]; the body is the JSON document followed by a
    newline. *)
Theorem ping_reply url method upload_data :
  reply_status (ping_handler url method upload_data) = 200
  /\ reply_body (ping_handler url method upload_data) = pong_json ++ newline
  /\ reply_type (ping_handler url method upload_data) = "application/json".
Proof. repeat split. Qed.

(** C10 as stated fails: the body is not the bare JSON document. *)
Lemma ping_body_has_newline :
  reply_body (ping_handler EDGEX_DEV_API_PING GET None) <> pong_json.
Proof. discriminate. Qed.

(** ** Teardown *)

Lemma for_each_calls {X} (f : X -> action) (l : list X) body s :
  (forall x s', body x s' = (Next tt, after_call (f x) (st_err s') s')) ->
  for_each l body s
  = (Next tt, {| st_svc := st_svc s; st_err := st_err s;
                 st_trace := (st_trace s ++ map f l)%list |}).
Proof.
  intros Hb. revert s. induction l as [|x l IH]; intros s; simpl.
  - rewrite app_nil_r. now destruct s.
  - unfold bind. rewrite Hb, IH. simpl. now rewrite <- app_assoc.
Qed.

Lemma stop_trace force s :
  edgex_device_service_stop force s
  = (Next tt, {| st_svc := set_sjobs [] (st_svc s); st_err := EDGEX_OK;
                 st_trace := (st_trace s
                              ++ teardown_order force (st_svc s))%list |}).
Proof.
  unfold teardown_order.
  cbv beta iota delta [edgex_device_service_stop bind when_ log emit set_err
                       get_svc modify_svc ret].
  cbn [st_svc st_err st_trace].
  destruct (scheduler (st_svc s)); destruct (daemon (st_svc s));
    cbn [is_some st_svc st_err st_trace];
    rewrite (for_each_calls free_job) by reflexivity;
    cbn [st_svc st_err st_trace];
    rewrite (for_each_calls (fun kv => edgex_device_free (fst kv)))
      by reflexivity;
    cbn [st_svc st_err st_trace];
    rewrite (for_each_calls (fun kv => edgex_deviceprofile_free (fst kv)))
      by reflexivity;
    cbn [st_svc st_err st_trace app];
    repeat (rewrite <- app_assoc; cbn [app]); reflexivity.
Qed.

(** C8.  [edgex_device_service_stop] performs its teardown in the order
    of [teardown_order]: scheduler stop and finalisation, REST server,
    the driver's [stop], the worker pool, the scheduled jobs, the
    configuration, the logger, the caches, and the service structure
    last.  The worker pool is destroyed once, and the REST server never
    after it. *)
Theorem stop_order force s :
  st_trace (snd (edgex_device_service_stop force s))
  = (st_trace s ++ teardown_order force (st_svc s))%list
  /\ exists pre post,
       teardown_order force (st_svc s) = (pre ++ thpool_destroy :: post)%list
       /\ ~ In thpool_destroy pre
       /\ ~ In thpool_destroy post
       /\ ~ In edgex_rest_server_destroy post
       /\ (is_some (daemon (st_svc s)) = true ->
           In edgex_rest_server_destroy pre).
Proof.
  split; [now rewrite stop_trace|].
  exists ([iot_log LogDebug "Stop device service"]
          ++ (if is_some (scheduler (st_svc s))
              then [iot_scheduler_stop; iot_scheduler_fini] else [])
          ++ (if is_some (daemon (st_svc s))
              then [edgex_rest_server_destroy] else [])
          ++ [userfns_stop force])%list.
  eexists. split.
  - unfold teardown_order. repeat (rewrite <- app_assoc; cbn [app]).
    reflexivity.
  - assert (Hnot : forall x : action,
               x = thpool_destroy \/ x = edgex_rest_server_destroy ->
               ~ In x
                   (iot_log LogDebug "Stopped device service"
                    :: map free_job (sjobs (st_svc s))%list
                    ++ [edgex_device_freeConfig; iot_logging_client_destroy;
                        edgex_map_deinit Map_name_to_id]
                    ++ map (fun kv => edgex_device_free (fst kv))
                         (devices (st_svc s))
                    ++ [edgex_map_deinit Map_devices]
                    ++ map (fun kv => edgex_deviceprofile_free (fst kv))
                         (profiles (st_svc s))
                    ++ [edgex_map_deinit Map_profiles; edgex_registry_fini;
                        free_service])%list).
    { intros x Hx Hin. simpl in Hin.
      repeat (rewrite in_app_iff in Hin; simpl in Hin).
      repeat rewrite in_map_iff in Hin.
      repeat match goal with
             | H : _ \/ _ |- _ => destruct H
             | H : exists _, _ |- _ => destruct H as [? [? ?]]
             end; subst; try contradiction; discriminate. }
    repeat split.
    + destruct (is_some (scheduler _)); destruct (is_some (daemon _));
        simpl; intuition discriminate.
    + apply Hnot; auto.
    + apply Hnot; auto.
    + intros ->. destruct (is_some (scheduler _)); simpl; auto.
Qed.

(** ** Strings *)

Lemma prefix_nil s : String.prefix EmptyString s = true.
Proof. now destruct s. Qed.

Lemma prefix_skip p s :
  String.prefix p s = true -> s = p ++ skip (String.length p) s.
Proof.
  revert s. induction p as [|c p IH]; intros s H; simpl.
  - reflexivity.
  - destruct s as [|c' s]; simpl in H; [discriminate|].
    destruct (ascii_dec c c') as [->|]; [|discriminate].
    simpl. f_equal. now apply IH.
Qed.

Lemma device_path_suffix p suffix :
  p = EDGEX_DEV_API_DEVICE ++ suffix ->
  is_device_path p = true
  /\ is_discovery_path p = false
  /\ skip (String.length EDGEX_DEV_API_DEVICE) p = suffix.
Proof.
  intros ->. unfold is_device_path, is_discovery_path. simpl.
  repeat split. apply prefix_nil.
Qed.

Section Jobs.

Variable E : Env.

Lemma dev_invoker_run url s :
  dev_invoker E url s
  = (Next tt,
     {| st_svc := st_svc s; st_err := st_err s;
        st_trace :=
          (st_trace s
           ++ edgex_device_handler_device url GET (handler_device E url GET s)
              :: (if handler_device E url GET s =? 200 then []
                  else [iot_log LogError
                          ("Scheduled request to /api/v1/device/" ++ url
                             ++ ": HTTP "
                             ++ fmt_d (handler_device E url GET s))]))%list
     |}).
Proof.
  unfold dev_invoker, bind, extcall_, when_, log, emit, ret. simpl.
  unfold MHD_HTTP_OK.
  destruct (handler_device E url GET s =? 200); simpl.
  - reflexivity.
  - now rewrite <- app_assoc.
Qed.

Lemma schedule_event_device ev s suffix :
  addr_path (se_addressable ev) = EDGEX_DEV_API_DEVICE ++ suffix ->
  failed (snd (get_schedule E (se_schedule ev) s)) = false ->
  fst (parse8601 E (sch_frequency (fst (get_schedule E (se_schedule ev) s))))
  = None ->
  schedule_event E ev s
  = (Next tt,
     {| st_svc := set_sjobs (suffix :: sjobs (st_svc s)) (st_svc s);
        st_err := snd (get_schedule E (se_schedule ev) s);
        st_trace :=
          (st_trace s
           ++ [edgex_metadata_client_get_schedule (se_schedule ev);
               iot_schedule_create (Fn_dev_invoker suffix)
                 (IOT_SEC_TO_NS
                    (snd (parse8601 E
                            (sch_frequency
                               (fst (get_schedule E (se_schedule ev) s))))));
               iot_schedule_add])%list |}).
Proof.
  intros Hp Hok Hparse.
  destruct (device_path_suffix _ _ Hp) as (Hdev & Hdisc & Hskip).
  unfold is_device_path in Hdev. unfold is_discovery_path in Hdisc.
  unfold schedule_event, bind, extcall, get_err, when_, if_null, ret, emit,
    modify_svc. cbn [fst snd st_svc st_err st_trace].
  rewrite Hok, Hparse. cbn [fst snd st_svc st_err st_trace].
  unfold strcmp, strncmp. rewrite Hdisc, Hdev, Hskip.
  cbn [negb fst snd st_svc st_err st_trace].
  repeat (rewrite <- app_assoc; cbn [app]). reflexivity.
Qed.

End Jobs.

Section Uploads.

Variable E : Env.

(** C9, as amended.  For a schedule event whose path is
    [/api/v1/device/] followed by [suffix], the job stored on the service
    and handed to the scheduler carries exactly [suffix]; when it fires it
    sends a GET for [suffix] to the device dispatcher and logs an error
    with the URL and the status whenever the status is not 200, and
    nothing when it is 200. *)
Theorem device_url_job ev s suffix :
  addr_path (se_addressable ev) = EDGEX_DEV_API_DEVICE ++ suffix ->
  failed (snd (get_schedule E (se_schedule ev) s)) = false ->
  fst (parse8601 E (sch_frequency (fst (get_schedule E (se_schedule ev) s))))
  = None ->
  (fst (schedule_event E ev s) = Next tt
   /\ sjobs (st_svc (snd (schedule_event E ev s)))
      = suffix :: sjobs (st_svc s)
   /\ st_trace (snd (schedule_event E ev s))
      = (st_trace s
         ++ [edgex_metadata_client_get_schedule (se_schedule ev);
             iot_schedule_create (Fn_dev_invoker suffix)
               (IOT_SEC_TO_NS
                  (snd (parse8601 E
                          (sch_frequency
                             (fst (get_schedule E (se_schedule ev) s))))));
             iot_schedule_add])%list)
  /\ forall s',
       fst (fire E (Fn_dev_invoker suffix) s') = Next tt
       /\ st_trace (snd (fire E (Fn_dev_invoker suffix) s'))
          = (st_trace s'
             ++ edgex_device_handler_device suffix GET
                  (handler_device E suffix GET s')
                :: (if handler_device E suffix GET s' =? 200 then []
                    else [iot_log LogError
                            ("Scheduled request to /api/v1/device/" ++ suffix
                               ++ ": HTTP "
                               ++ fmt_d (handler_device E suffix GET s'))])
            )%list.
Proof.
  intros Hp Hok Hparse. split.
  - rewrite (schedule_event_device E ev s suffix Hp Hok Hparse). simpl. auto.
  - intros s'. simpl. rewrite dev_invoker_run. simpl. auto.
Qed.

(** ** Create calls of the schedule upload *)

Lemma check_created_run created skipped unable s :
  check_created created skipped unable s
  = (continues (creation_of (st_err s)),
     after_call
       (creation_log (creation_of (st_err s)) created skipped unable)
       (st_err s) s).
Proof.
  unfold check_created, bind, get_err, log, emit, return_, after_call.
  destruct s as [svc e tr]. destruct e; reflexivity.
Qed.

Lemma upload_schedule_run key frequency s :
  upload_schedule E key frequency s
  = let e := snd (create_schedule E key frequency (with_err EDGEX_OK s)) in
    (continues (creation_of e),
     {| st_svc := st_svc s; st_err := e;
        st_trace :=
          (st_trace s
           ++ [edgex_metadata_client_create_schedule key frequency;
               creation_log (creation_of e)
                 ("Created schedule " ++ key)
                 ("Skipping already existing schedule " ++ key)
                 ("Unable to create schedule " ++ key)])%list |}).
Proof.
  unfold upload_schedule, bind, set_err, extcall.
  rewrite check_created_run. unfold after_call, with_err. simpl.
  now rewrite <- app_assoc.
Qed.

Lemma upload_scheduleevent_invalid key schedevt s :
  is_discovery_path (path schedevt) = false ->
  is_device_path (path schedevt) = false ->
  upload_scheduleevent E key schedevt s
  = (Returned,
     after_call
       (iot_log LogError
          ("Scheduled Event " ++ key
             ++ " not valid, only discovery and device commands are allowed"))
       EDGEX_BAD_CONFIG s).
Proof.
  unfold is_discovery_path, is_device_path. intros H1 H2.
  unfold upload_scheduleevent, strcmp, strncmp. rewrite H1, H2.
  reflexivity.
Qed.

Lemma upload_scheduleevent_run key schedevt s :
  is_discovery_path (path schedevt) || is_device_path (path schedevt) = true ->
  upload_scheduleevent E key schedevt s
  = let add := event_addressable (st_svc s) key (path schedevt) in
    let e1 := snd (create_addressable E add (with_err EDGEX_OK s)) in
    let s1 :=
      {| st_svc := st_svc s; st_err := e1;
         st_trace :=
           (st_trace s
            ++ [edgex_metadata_client_create_addressable add;
                creation_log (creation_of e1)
                  ("Created addressable " ++ key ++ ADDR_EXT)
                  ("Skipping already existing addressable " ++ key
                     ++ ADDR_EXT)
                  ("Unable to create addressable " ++ key ++ ADDR_EXT)])%list
      |} in
    match creation_of e1 with
    | Refused => (Returned, s1)
    | _ =>
        let e2 :=
          snd (create_scheduleevent E key (schedule schedevt)
                 (key ++ ADDR_EXT) (name (st_svc s))
                 (with_err EDGEX_OK s1)) in
        (continues (creation_of e2),
         {| st_svc := st_svc s; st_err := e2;
            st_trace :=
              (st_trace s1
               ++ [edgex_metadata_client_create_scheduleevent key
                     (schedule schedevt) (key ++ ADDR_EXT) (name (st_svc s));
                   creation_log (creation_of e2)
                     ("Created ScheduleEvent " ++ key)
                     ("Skipping already existing ScheduleEvent " ++ key)
                     ("Unable to create ScheduleEvent " ++ key)])%list |})
    end.
Proof.
  unfold is_discovery_path, is_device_path. intros Hv.
  assert (Hc : strcmp (path schedevt) EDGEX_DEV_API_DISCOVERY
               && strncmp (path schedevt) EDGEX_DEV_API_DEVICE = false).
  { unfold strcmp, strncmp. rewrite <- negb_orb, Hv. reflexivity. }
  unfold upload_scheduleevent. rewrite Hc.
  unfold bind, when_, ret, set_err, get_svc, extcall.
  cbn [fst snd st_svc st_err st_trace].
  rewrite check_created_run.
  fold (event_addressable (st_svc s) key (path schedevt)).
  unfold with_err, after_call. cbn [fst snd st_svc st_err st_trace].
  cbv zeta.
  destruct (creation_of (snd (create_addressable E _ _))) eqn:Hc1;
    cbn [continues]; try (now rewrite <- app_assoc).
  all: rewrite check_created_run; unfold after_call;
    cbn [fst snd st_svc st_err st_trace];
    repeat (rewrite <- app_assoc; cbn [app]); reflexivity.
Qed.


Lemma register_deviceservice_refused s :
  let n := name (st_svc s) in
  let s1 := after_call (edgex_metadata_client_get_deviceservice n)
              (snd (get_deviceservice E n s)) s in
  let s2 := after_call edgex_device_millitime (st_err s1) s1 in
  let s3 := after_call (edgex_metadata_client_get_addressable n)
              (snd (get_addressable E n s2)) s2 in
  let a := service_addressable (st_svc s) (millitime E s1) in
  let e := snd (create_addressable E a s3) in
  fst (get_deviceservice E n s) = None ->
  failed (snd (get_deviceservice E n s)) = false ->
  fst (get_addressable E n s2) = None ->
  failed (snd (get_addressable E n s2)) = false ->
  failed e = true ->
  register_deviceservice E s
  = (Returned,
     after_call (iot_log LogError "create_addressable failed") e
       (after_call (edgex_metadata_client_create_addressable a) e s3)).
Proof.
  intros n s1 s2 s3 a e Hds Hdsok Haddr Haddrok He.
  subst n s1 s2 s3 a e.
  unfold after_call, service_addressable in *.
  cbn [fst snd st_svc st_err st_trace] in *.
  unfold register_deviceservice, bind, get_svc, extcall, extcall_, get_err,
    when_, if_null, ret.
  cbn [fst snd st_svc st_err st_trace].
  rewrite Hds, Hdsok. cbn [fst snd st_svc st_err st_trace].
  rewrite Haddr, Haddrok. cbn [fst snd st_svc st_err st_trace].
  rewrite He. reflexivity.
Qed.

Lemma upload_schedule_resets key frequency e s :
  upload_schedule E key frequency (with_err e s)
  = upload_schedule E key frequency s.
Proof. reflexivity. Qed.

Lemma upload_scheduleevent_resets key schedevt e s :
  upload_scheduleevent E key schedevt (with_err e s)
  = upload_scheduleevent E key schedevt s.
Proof.
  unfold upload_scheduleevent, bind, when_.
  destruct (strcmp _ _ && strncmp _ _); reflexivity.
Qed.

Lemma retrieve_scheduleevents_resets e s :
  retrieve_scheduleevents E (with_err e s) = retrieve_scheduleevents E s.
Proof. reflexivity. Qed.

End Uploads.

Section Paths.

Variable E : Env.

Lemma schedule_event_invalid ev s :
  is_discovery_path (addr_path (se_addressable ev)) = false ->
  is_device_path (addr_path (se_addressable ev)) = false ->
  fst (schedule_event E ev s) = Returned
  /\ (failed (snd (get_schedule E (se_schedule ev) s)) = false ->
      st_err (snd (schedule_event E ev s)) = EDGEX_BAD_CONFIG).
Proof.
  unfold is_discovery_path, is_device_path. intros H1 H2.
  unfold schedule_event, bind, extcall, get_err, when_, if_null, ret, log,
    emit, set_err, return_, strcmp, strncmp.
  cbn [fst snd st_svc st_err st_trace]. rewrite H1, H2.
  destruct (failed (snd (get_schedule E (se_schedule ev) s))) eqn:Hf;
    cbn [fst snd st_svc st_err st_trace negb].
  - split; [reflexivity | discriminate].
  - destruct (fst (parse8601 E _)); cbn [fst snd st_svc st_err st_trace];
      split; reflexivity.
Qed.

(** A loop stops at the first turn that returns. *)
Lemma for_each_returns {X} (body : X -> M unit) (Q : state -> Prop) l1 x l2 :
  (forall y s, In y l1 -> fst (body y s) = Returned -> Q (snd (body y s))) ->
  (forall s, fst (body x s) = Returned /\ Q (snd (body x s))) ->
  forall s,
    fst (for_each (l1 ++ x :: l2) body s) = Returned
    /\ Q (snd (for_each (l1 ++ x :: l2) body s)).
Proof.
  intros H1 Hx. induction l1 as [|y l1 IH]; intros s; simpl; unfold bind.
  - specialize (Hx s). destruct (body x s) as [[u|] s']; simpl in *.
    + destruct Hx; discriminate.
    + exact Hx.
  - pose proof (H1 y s (or_introl eq_refl)) as Hy.
    destruct (body y s) as [[u|] s']; simpl in *.
    + apply IH. intros z s0 Hz. apply H1. now right.
    + split; auto.
Qed.

Lemma upload_scheduleevent_returned key schedevt s :
  fst (upload_scheduleevent E key schedevt s) = Returned ->
  st_err (snd (upload_scheduleevent E key schedevt s)) = EDGEX_BAD_CONFIG
  \/ creation_of (st_err (snd (upload_scheduleevent E key schedevt s)))
     = Refused.
Proof.
  destruct (is_discovery_path (path schedevt) || is_device_path (path schedevt))
    eqn:Hv.
  - rewrite (upload_scheduleevent_run E key schedevt s Hv). cbv zeta.
    destruct (creation_of (snd (create_addressable E _ _))) eqn:H1;
      cbn [fst snd st_err]; auto;
      destruct (creation_of (snd (create_scheduleevent E _ _ _ _ _))) eqn:H2;
      cbn [fst snd st_err continues]; auto; discriminate.
  - apply orb_false_iff in Hv. destruct Hv as [Ha Hb].
    rewrite (upload_scheduleevent_invalid E key schedevt s Ha Hb). auto.
Qed.

Lemma upload_with_invalid_event l1 key schedevt l2 s :
  is_discovery_path (path schedevt) = false ->
  is_device_path (path schedevt) = false ->
  let r := for_each (l1 ++ (key, schedevt) :: l2)
             (fun kv => upload_scheduleevent E (fst kv) (snd kv)) s in
  fst r = Returned
  /\ (st_err (snd r) = EDGEX_BAD_CONFIG
      \/ creation_of (st_err (snd r)) = Refused).
Proof.
  intros Ha Hb.
  apply (for_each_returns
           (fun kv => upload_scheduleevent E (fst kv) (snd kv))
           (fun s' => st_err s' = EDGEX_BAD_CONFIG
                      \/ creation_of (st_err s') = Refused)).
  - intros y s0 _. apply upload_scheduleevent_returned.
  - intros s0. simpl.
    rewrite (upload_scheduleevent_invalid E key schedevt s0 Ha Hb). auto.
Qed.

Lemma retrieve_with_invalid_event l1 ev l2 s :
  is_discovery_path (addr_path (se_addressable ev)) = false ->
  is_device_path (addr_path (se_addressable ev)) = false ->
  fst (for_each (l1 ++ ev :: l2) (schedule_event E) s) = Returned.
Proof.
  intros Ha Hb.
  apply (for_each_returns (schedule_event E) (fun _ => True)); auto.
  intros s0. split; auto. now apply schedule_event_invalid.
Qed.

End Paths.

(** ** Retry loops *)

Lemma int_wrap_small z : - 2 ^ 31 <= z < 2 ^ 31 -> int_wrap z = z.
Proof. intros H. unfold int_wrap. rewrite Z.mod_small; lia. Qed.

Lemma ping_trace_cons ping delay p ps :
  ps <> [] ->
  ping_trace ping delay (p :: ps)
  = ping p :: nanosleep delay :: ping_trace ping delay ps.
Proof. destruct ps; [congruence | reflexivity]. Qed.

Lemma retry_loop_unroll ping o delay fuel retries s :
  retry_loop (S fuel) (extcall ping o) delay retries s
  = let s1 := after_call (ping (fst (o s))) (snd (o s)) s in
    if fst (o s) then (Next retries, s1)
    else if int_wrap (retries - 1) =? 0
    then (Next (int_wrap (retries - 1)), s1)
    else retry_loop fuel (extcall ping o) delay (int_wrap (retries - 1))
           (after_call (nanosleep delay) (st_err s1) s1).
Proof.
  cbn [retry_loop]. unfold bind at 1. unfold extcall at 1. cbv zeta.
  destruct (fst (o s)); [reflexivity|].
  destruct (int_wrap (retries - 1) =? 0); reflexivity.
Qed.

Lemma int_wrap_pred retries :
  int_wrap (retries - 1) <> 0 ->
  0 < (retries - 1) mod 2 ^ 32
  /\ (int_wrap (retries - 1) - 1) mod 2 ^ 32
     = (retries - 1) mod 2 ^ 32 - 1.
Proof.
  unfold int_wrap. change (2 ^ 32) with 4294967296.
  change (2 ^ 31) with 2147483648. intros Hne.
  pose proof (Z.mod_pos_bound (retries - 1) 4294967296 eq_refl) as Hm.
  pose proof (Z.div_mod (retries - 1) 4294967296 ltac:(lia)) as Hd.
  pose proof (Z.div_mod (retries - 1 + 2147483648) 4294967296 ltac:(lia))
    as Hw.
  assert (H0 : (retries - 1) mod 4294967296 <> 0).
  { intros H0. apply Hne.
    rewrite <- (Z.mod_unique (retries - 1 + 2147483648) 4294967296
                  ((retries - 1) / 4294967296) 2147483648); lia. }
  split; [lia|]. symmetry.
  apply (Z.mod_unique _ _
           ((retries - 1) / 4294967296
            - (retries - 1 + 2147483648) / 4294967296)); lia.
Qed.

(** The fuel that [retry] gives the loop is enough: more fuel does not
    change the result. *)
Lemma retry_loop_enough_fuel ping o delay fuel :
  forall retries s,
    (Z.to_nat ((retries - 1) mod 2 ^ 32) < fuel)%nat ->
    retry_loop (S fuel) (extcall ping o) delay retries s
    = retry_loop fuel (extcall ping o) delay retries s.
Proof.
  induction fuel as [|fuel IH]; intros retries s Hfuel; [lia|].
  rewrite (retry_loop_unroll ping o delay (S fuel)).
  rewrite (retry_loop_unroll ping o delay fuel). cbv zeta.
  destruct (fst (o s)); [reflexivity|].
  destruct (int_wrap (retries - 1) =? 0) eqn:Hz; [reflexivity|].
  apply Z.eqb_neq in Hz. apply IH.
  destruct (int_wrap_pred retries Hz) as [Hpos ->]. lia.
Qed.

Lemma retry_loop_within_limit ping o delay fuel :
  forall retries s,
    1 <= retries < 2 ^ 31 -> (Z.to_nat retries <= fuel)%nat ->
    exists pongs,
      st_trace (snd (retry_loop fuel (extcall ping o) delay retries s))
      = (st_trace s ++ ping_trace ping delay pongs)%list
      /\ ((pongs = repeat false (Z.to_nat retries)
           /\ fst (retry_loop fuel (extcall ping o) delay retries s) = Next 0)
          \/ (exists k, (k < Z.to_nat retries)%nat
                /\ pongs = (repeat false k ++ [true])%list
                /\ fst (retry_loop fuel (extcall ping o) delay retries s)
                   = Next (retries - Z.of_nat k))).
Proof.
  induction fuel as [|fuel IH]; intros retries s Hr Hfuel; [lia|].
  rewrite retry_loop_unroll. cbv zeta.
  destruct (fst (o s)) eqn:Hpong.
  - exists [true]. split; [reflexivity|]. right. exists 0%nat.
    split; [lia|]. split; [reflexivity|]. simpl. f_equal. lia.
  - rewrite int_wrap_small by lia.
    destruct (retries - 1 =? 0) eqn:Hz.
    + apply Z.eqb_eq in Hz. exists [false]. split; [reflexivity|]. left.
      replace retries with 1 by lia. split; reflexivity.
    + apply Z.eqb_neq in Hz.
      match goal with
      | |- context [retry_loop fuel _ delay (retries - 1) ?s1] =>
          destruct (IH (retries - 1) s1) as (pongs & Htr & Hcase);
            [lia | lia |]
      end.
      assert (Hne : pongs <> []).
      { destruct Hcase as [[-> _]|(k & _ & -> & _)].
        - replace (Z.to_nat (retries - 1)) with (S (Z.to_nat (retries - 2)))
            by lia. discriminate.
        - destruct k; discriminate. }
      exists (false :: pongs). split.
      * rewrite Htr, ping_trace_cons by exact Hne.
        unfold after_call. cbn [st_trace].
        repeat (rewrite <- app_assoc; cbn [app]). reflexivity.
      * destruct Hcase as [[-> Hn]|(k & Hk & -> & Hn)].
        -- left. split; auto.
           replace (Z.to_nat retries) with (S (Z.to_nat (retries - 1))) by lia.
           reflexivity.
        -- right. exists (S k). split; [lia|]. split; [reflexivity|].
           rewrite Hn. f_equal. lia.
Qed.

Lemma retry_within_limit ping o delay retries s :
  1 <= retries < 2 ^ 31 ->
  exists pongs,
    st_trace (snd (retry (extcall ping o) delay retries s))
    = (st_trace s ++ ping_trace ping delay pongs)%list
    /\ (List.length pongs <= Z.to_nat retries)%nat
    /\ ((pongs = repeat false (Z.to_nat retries)
         /\ fst (retry (extcall ping o) delay retries s) = Next 0)
        \/ (exists k, pongs = (repeat false k ++ [true])%list
              /\ exists left, left <> 0
                   /\ fst (retry (extcall ping o) delay retries s)
                      = Next left)).
Proof.
  intros Hr. unfold retry.
  destruct (retry_loop_within_limit ping o delay
              (S (Z.to_nat ((retries - 1) mod 2 ^ 32))) retries s Hr)
    as (pongs & Htr & Hcase).
  { rewrite Z.mod_small by lia. lia. }
  exists pongs. split; [exact Htr|].
  destruct Hcase as [[-> Hn]|(k & Hk & -> & Hn)].
  - split; [now rewrite repeat_length|]. left. auto.
  - split.
    + rewrite length_app, repeat_length. simpl. lia.
    + right. exists k. split; auto. exists (retries - Z.of_nat k).
      split; [lia | exact Hn].
Qed.

(** The registry is pinged at most five times, one second apart. *)
Lemma registry_retry_within_limit E s :
  exists pongs,
    st_trace (snd (retry (extcall edgex_registry_ping (registry_ping E))
                     registry_delay 5 s))
    = (st_trace s ++ ping_trace edgex_registry_ping registry_delay pongs)%list
    /\ (List.length pongs <= 5)%nat
    /\ ((pongs = repeat false 5
         /\ fst (retry (extcall edgex_registry_ping (registry_ping E))
                   registry_delay 5 s) = Next 0)
        \/ (exists k, pongs = (repeat false k ++ [true])%list
              /\ exists left, left <> 0
                   /\ fst (retry (extcall edgex_registry_ping
                                    (registry_ping E)) registry_delay 5 s)
                      = Next left)).
Proof.
  apply (retry_within_limit edgex_registry_ping (registry_ping E)
           registry_delay 5 s).
  lia.
Qed.

(** Core-data is pinged at most [connectretries] times, [timeout]
    milliseconds apart, when the count is at least 1. *)
Lemma core_data_retry_within_limit E cfg s :
  1 <= connectretries cfg < 2 ^ 31 ->
  exists pongs,
    st_trace (snd (retry (extcall edgex_data_client_ping (data_client_ping E))
                     (connect_delay (timeout cfg))
                     (int_wrap (connectretries cfg)) s))
    = (st_trace s
       ++ ping_trace edgex_data_client_ping (connect_delay (timeout cfg))
            pongs)%list
    /\ (List.length pongs <= Z.to_nat (connectretries cfg))%nat
    /\ ((pongs = repeat false (Z.to_nat (connectretries cfg))
         /\ fst (retry (extcall edgex_data_client_ping (data_client_ping E))
                   (connect_delay (timeout cfg))
                   (int_wrap (connectretries cfg)) s) = Next 0)
        \/ (exists k, pongs = (repeat false k ++ [true])%list
              /\ exists left, left <> 0
                   /\ fst (retry (extcall edgex_data_client_ping
                                    (data_client_ping E))
                             (connect_delay (timeout cfg))
                             (int_wrap (connectretries cfg)) s)
                      = Next left)).
Proof.
  intros Hc. rewrite int_wrap_small by lia.
  now apply retry_within_limit.
Qed.

(** The delay between two pings is [timeout] milliseconds. *)
Lemma connect_delay_millis t :
  0 <= t ->
  0 <= tv_nsec (connect_delay t) < 1000000000
  /\ 1000 * tv_sec (connect_delay t)
     + tv_nsec (connect_delay t) / 1000000 = t.
Proof.
  intros Ht. unfold connect_delay. cbn [tv_sec tv_nsec].
  rewrite Z.quot_div_nonneg, Z.rem_mod_nonneg by lia.
  pose proof (Z.mod_pos_bound t 1000 eq_refl).
  pose proof (Z.div_mod t 1000 ltac:(lia)).
  rewrite (Z.mul_comm 1000000 (t mod 1000)), Z.div_mul by lia. lia.
Qed.

Section CoreServices.

Variable E : Env.

Lemma wait_without_retries s :
  connectretries (service (config (st_svc s))) = 0 ->
  fst (data_client_ping E s) = true ->
  wait_for_core_services E s
  = (Returned,
     after_call (iot_log LogError "core-data service not running")
       EDGEX_REMOTE_SERVER_DOWN
       (after_call (edgex_data_client_ping true)
          (snd (data_client_ping E s)) s)).
Proof.
  intros Hc Hp.
  unfold wait_for_core_services, bind at 1, get_svc.
  rewrite Hc. unfold bind at 1, retry.
  rewrite retry_loop_unroll. cbv zeta. rewrite Hp.
  reflexivity.
Qed.

End CoreServices.

(** Core-data answers the third of three allowed pings: two sleeps of
    [timeout] milliseconds, and the startup goes on. *)
Example core_data_answers_third_ping :
  filter (fun a => is_ping a
                   || match a with nanosleep _ => true | _ => false end)
    (trace_of
       (edgex_device_service_start (Scenario.env Scenario.slow_data)
          None None None) Scenario.fresh EDGEX_OK)
  = [edgex_data_client_ping false;
     nanosleep {| tv_sec := 5; tv_nsec := 0 |};
     edgex_data_client_ping false;
     nanosleep {| tv_sec := 5; tv_nsec := 0 |};
     edgex_data_client_ping true;
     edgex_metadata_client_ping true]
  /\ err_of
       (edgex_device_service_start (Scenario.env Scenario.slow_data)
          None None None) Scenario.fresh EDGEX_OK
     = EDGEX_OK.
Proof. split; vm_compute; reflexivity. Qed.

(** ** Early returns carry an error *)

Lemma hoare_bind {A B} P (m : M A) (k : A -> M B) Q Q' R :
  hoare P m Q R -> (forall a, hoare (Q a) (k a) Q' R) ->
  hoare P (bind m k) Q' R.
Proof.
  intros Hm Hk s Hs. unfold bind. specialize (Hm s Hs).
  destruct (m s) as [[a|] s']; auto. now apply Hk.
Qed.

Lemma keeps_ret {A} (a : A) : keeps (ret a).
Proof. intros c s Hs. exact Hs. Qed.

Lemma keeps_bind {A B} (m : M A) (k : A -> M B) :
  keeps m -> (forall a, keeps (k a)) -> keeps (bind m k).
Proof.
  intros Hm Hk c. eapply hoare_bind; [apply Hm|]. intros a. apply Hk.
Qed.

Lemma keeps_emit a : keeps (emit a).
Proof. intros c s Hs. exact Hs. Qed.

Lemma keeps_log lvl msg : keeps (log lvl msg).
Proof. apply keeps_emit. Qed.

Lemma keeps_set_err e : keeps (set_err e).
Proof. intros c s Hs. exact Hs. Qed.

Lemma keeps_get_err : keeps get_err.
Proof. intros c s Hs. exact Hs. Qed.

Lemma keeps_get_svc : keeps get_svc.
Proof. intros c s Hs. exact Hs. Qed.

Lemma keeps_extcall {R} (act : R -> action) o : keeps (extcall act o).
Proof. intros c s Hs. exact Hs. Qed.

Lemma keeps_extcall_ {R} (act : R -> action) o : keeps (extcall_ act o).
Proof. intros c s Hs. exact Hs. Qed.

Lemma keeps_modify_svc f :
  (forall svc, config (f svc) = config svc) -> keeps (modify_svc f).
Proof.
  intros Hf c s Hs. unfold configured in *. simpl. now rewrite Hf.
Qed.

Lemma keeps_when b m : keeps m -> keeps (when_ b m).
Proof. intros Hm. destruct b; simpl; auto using @keeps_ret. Qed.

Lemma keeps_if_null {A B} (p : option A) (m1 : M B) m2 :
  keeps m1 -> (forall a, keeps (m2 a)) -> keeps (if_null p m1 m2).
Proof. intros H1 H2. destruct p; simpl; auto. Qed.

Lemma keeps_if {A} (b : bool) (m1 m2 : M A) :
  keeps m1 -> keeps m2 -> keeps (if b then m1 else m2).
Proof. now destruct b. Qed.

Lemma keeps_for_each {X} (l : list X) body :
  (forall x, keeps (body x)) -> keeps (for_each l body).
Proof.
  intros Hb. induction l; simpl.
  - apply keeps_ret.
  - apply keeps_bind; auto.
Qed.

Lemma keeps_retry_loop fuel ping delay retries :
  keeps ping -> keeps (retry_loop fuel ping delay retries).
Proof.
  intros Hp. revert retries.
  induction fuel as [|fuel IH]; intros retries; simpl.
  - apply keeps_ret.
  - apply keeps_bind; auto. intros pong. destruct pong; [apply keeps_ret|].
    destruct (int_wrap (retries - 1) =? 0); [apply keeps_ret|].
    apply keeps_bind; [apply keeps_emit | intros _; apply IH].
Qed.

Lemma keeps_retry ping delay retries :
  keeps ping -> keeps (retry ping delay retries).
Proof. apply keeps_retry_loop. Qed.

(** A statement that leaves an error and returns. *)
Lemma keeps_failure {A} (m : M A) :
  (forall s, fst (m s) = Returned /\ failed (st_err (snd (m s))) = true) ->
  keeps m.
Proof.
  intros H c s Hs. specialize (H s). destruct (m s) as [[a|] s']; simpl in *.
  - destruct H; discriminate.
  - apply H.
Qed.

(** [if (err->code) { ...; return; }] *)
Lemma keeps_guard {B} (abort : edgex_error -> M unit) (k : unit -> M B) :
  (forall e, gives_up (abort e)) -> keeps (k tt) ->
  keeps (bind get_err (fun e => bind (when_ (failed e) (abort e)) k)).
Proof.
  intros Ha Hk c s Hs. unfold bind, get_err, when_.
  destruct (failed (st_err s)) eqn:Hf.
  - destruct (Ha (st_err s) s) as [H1 H2].
    destruct (abort (st_err s) s) as [[u|] s']; simpl in *; [discriminate|].
    unfold has_failed. now rewrite H2.
  - simpl. apply (Hk c s Hs).
Qed.

Lemma keeps_guard_last (abort : edgex_error -> M unit) :
  (forall e, gives_up (abort e)) ->
  keeps (bind get_err (fun e => when_ (failed e) (abort e))).
Proof.
  intros Ha c s Hs. unfold bind, get_err, when_.
  destruct (failed (st_err s)) eqn:Hf.
  - destruct (Ha (st_err s) s) as [H1 H2].
    destruct (abort (st_err s) s) as [[u|] s']; simpl in *; [discriminate|].
    unfold has_failed. now rewrite H2.
  - exact Hs.
Qed.

Lemma keeps_check_created a b c : keeps (check_created a b c).
Proof.
  intros cfg s Hs. rewrite check_created_run.
  destruct s as [svc e tr]. unfold configured in *. simpl in *.
  destruct e; simpl; auto; reflexivity.
Qed.

Ltac gives_up_tac := intros ? ?; split; reflexivity.

Ltac keeps_step :=
  lazymatch goal with
  | |- keeps (bind get_err (fun e => bind (when_ (failed e) _) _)) =>
      apply keeps_guard; [gives_up_tac|]
  | |- keeps (bind get_err (fun e => when_ (failed e) _)) =>
      apply keeps_guard_last; gives_up_tac
  | |- keeps (bind (log _ _) _) =>
      first [ solve [apply keeps_failure; intros ?; split; reflexivity]
            | apply keeps_bind; [|intros ?] ]
  | |- keeps (bind (set_err _) _) =>
      first [ solve [apply keeps_failure; intros ?; split; reflexivity]
            | apply keeps_bind; [|intros ?] ]
  | |- keeps (bind _ _) => apply keeps_bind; [|intros ?]
  | |- keeps (when_ _ _) => apply keeps_when
  | |- keeps (if_null _ _ _) => apply keeps_if_null; [|intros ?]
  | |- keeps (if _ then _ else _) => apply keeps_if
  | |- keeps (for_each _ _) => apply keeps_for_each; intros ?
  | |- keeps (retry _ _ _) => apply keeps_retry
  | |- keeps (emit _) => apply keeps_emit
  | |- keeps (log _ _) => apply keeps_log
  | |- keeps (set_err _) => apply keeps_set_err
  | |- keeps get_err => apply keeps_get_err
  | |- keeps get_svc => apply keeps_get_svc
  | |- keeps (ret _) => apply keeps_ret
  | |- keeps (extcall _ _) => apply keeps_extcall
  | |- keeps (extcall_ _ _) => apply keeps_extcall_
  | |- keeps (modify_svc _) => apply keeps_modify_svc; intros ?; reflexivity
  | |- keeps (check_created _ _ _) => apply keeps_check_created
  | |- keeps _ =>
      apply keeps_failure; intros ?; split; reflexivity
  end.

Ltac keeps_tac := cbv zeta; repeat (keeps_step; cbv zeta).

Section Rejection.

Variable E : Env.

Lemma keeps_configure_and_upload profile :
  keeps (configure_and_upload E profile).
Proof. unfold configure_and_upload. keeps_tac. Qed.

Lemma keeps_wait_for_core_services : keeps (wait_for_core_services E).
Proof. unfold wait_for_core_services. keeps_tac. Qed.

Lemma keeps_register_deviceservice : keeps (register_deviceservice E).
Proof. unfold register_deviceservice. keeps_tac. Qed.

Lemma keeps_upload_schedule key frequency :
  keeps (upload_schedule E key frequency).
Proof. unfold upload_schedule. keeps_tac. Qed.

Lemma hoare_then {A B} c (m : M A) (k : A -> M B) Q :
  keeps m -> (forall a, hoare (configured c) (k a) Q has_failed) ->
  hoare (configured c) (bind m k) Q has_failed.
Proof. intros Hm Hk. eapply hoare_bind; [apply Hm | exact Hk]. Qed.

Lemma hoare_guard {B} c (abort : edgex_error -> M unit) (k : unit -> M B) Q :
  (forall e, gives_up (abort e)) ->
  hoare (configured c) (k tt) Q has_failed ->
  hoare (configured c)
    (bind get_err (fun e => bind (when_ (failed e) (abort e)) k)) Q has_failed.
Proof.
  intros Ha Hk s Hs. unfold bind, get_err, when_.
  destruct (failed (st_err s)) eqn:Hf.
  - destruct (Ha (st_err s) s) as [H1 H2].
    destruct (abort (st_err s) s) as [[u|] s']; simpl in *; [discriminate|].
    unfold has_failed. now rewrite H2.
  - simpl. apply (Hk s Hs).
Qed.

Lemma hoare_get_svc {B} c (k : edgex_device_service -> M B) Q R :
  (forall svc, config svc = c -> hoare (configured c) (k svc) Q R) ->
  hoare (configured c) (bind get_svc k) Q R.
Proof. intros Hk s Hs. unfold bind, get_svc. now apply Hk. Qed.

Lemma upload_rejects_invalid_event c events key schedevt :
  In (key, schedevt) events ->
  is_discovery_path (path schedevt) = false ->
  is_device_path (path schedevt) = false ->
  hoare (configured c)
    (for_each events (fun kv => upload_scheduleevent E (fst kv) (snd kv)))
    (fun _ _ => False) has_failed.
Proof.
  intros Hin Ha Hb s _. apply in_split in Hin. destruct Hin as (l1 & l2 & ->).
  destruct (upload_with_invalid_event E l1 key schedevt l2 s Ha Hb)
    as [Hr He].
  destruct (for_each _ _ s) as [[u|] s']; simpl in *; [discriminate|].
  unfold has_failed. destruct He as [-> | He]; [reflexivity|].
  destruct (st_err s'); simpl in *; congruence.
Qed.

(** With an invalid schedule event in its configuration,
    [startConfigured] returns early and leaves an error. *)
Theorem startup_rejects_invalid_event registry toml profile s key schedevt :
  In (key, schedevt) (scheduleevents (config (st_svc s))) ->
  is_discovery_path (path schedevt) = false ->
  is_device_path (path schedevt) = false ->
  fst (startConfigured E registry toml profile s) = Returned
  /\ failed (st_err (snd (startConfigured E registry toml profile s))) = true.
Proof.
  intros Hin Ha Hb.
  assert (H : hoare (configured (config (st_svc s)))
                (startConfigured E registry toml profile)
                (fun _ _ => False) has_failed).
  { unfold startConfigured.
    eapply hoare_then; [apply keeps_configure_and_upload | intros ?].
    eapply hoare_then; [apply keeps_wait_for_core_services | intros ?].
    eapply hoare_then; [apply keeps_register_deviceservice | intros ?].
    repeat
      lazymatch goal with
      | |- hoare _ (bind (for_each (scheduleevents _) _) _) _ _ => fail
      | |- hoare _ (bind (for_each (schedules _) _) _) _ _ =>
          eapply hoare_then;
          [ apply keeps_for_each; intros ?; apply keeps_upload_schedule
          | intros ? ]
      | |- hoare _ (bind get_svc _) _ _ =>
          apply hoare_get_svc; intros svc Hsvc
      | |- hoare _ (bind get_err (fun e => bind (when_ (failed e) _) _)) _ _ =>
          apply hoare_guard; [gives_up_tac|]
      | |- hoare _ (bind _ _) _ _ =>
          eapply hoare_then; [solve [keeps_tac] | intros ?]
      end.
    eapply hoare_bind.
    - rewrite Hsvc. eapply upload_rejects_invalid_event; eauto.
    - intros ? ? []. }
  specialize (H s eq_refl).
  destruct (startConfigured E registry toml profile s) as [[u|] s'];
    simpl in *; [contradiction | auto].
Qed.

End Rejection.

(** ** Runs of the demo deployment *)

(** The startup of the demo service, split at the registration of the
    callback handler. *)
Lemma callback_registered_after_reconciliation_witness :
  trace_of
    (edgex_device_service_start (Scenario.env Scenario.normal) None None None)
    Scenario.fresh EDGEX_OK
  = (before (registers EDGEX_DEV_API_CALLBACK) Scenario.startup
     ++ edgex_rest_server_register_handler EDGEX_DEV_API_CALLBACK
          [PUT; POST; DELETE] Handler_callback
        :: after (registers EDGEX_DEV_API_CALLBACK) Scenario.startup)%list
  /\ In edgex_device_profiles_upload
       (before (registers EDGEX_DEV_API_CALLBACK) Scenario.startup).
Proof.
  assert (H : trace_of
                (edgex_device_service_start (Scenario.env Scenario.normal)
                   None None None) Scenario.fresh EDGEX_OK
              = (before (registers EDGEX_DEV_API_CALLBACK) Scenario.startup
                 ++ edgex_rest_server_register_handler EDGEX_DEV_API_CALLBACK
                      [PUT; POST; DELETE] Handler_callback
                    :: after (registers EDGEX_DEV_API_CALLBACK)
                         Scenario.startup)%list)
    by (vm_compute; reflexivity).
  split; [exact H|].
  exact (proj1 (proj2 (callback_registered_after_reconciliation
                         (Scenario.env Scenario.normal) None None None
                         Scenario.fresh EDGEX_OK
                         (before (registers EDGEX_DEV_API_CALLBACK)
                            Scenario.startup)
                         [PUT; POST; DELETE] Handler_callback
                         (after (registers EDGEX_DEV_API_CALLBACK)
                            Scenario.startup) H))).
Defined.

(** C1 as stated fails: in the startup of the demo service the
    reconciliation actions come before the registration of the callback
    handler, and none after. *)
Lemma callback_registered_late :
  existsb is_reconciliation
    (before (registers EDGEX_DEV_API_CALLBACK) Scenario.startup) = true
  /\ existsb is_reconciliation
       (after (registers EDGEX_DEV_API_CALLBACK) Scenario.startup) = false.
Proof. split; vm_compute; reflexivity. Qed.

(** The startup of the demo service, split at the registration of the
    device handler. *)
Lemma handlers_registered_in_order_witness :
  trace_of
    (edgex_device_service_start (Scenario.env Scenario.normal) None None None)
    Scenario.fresh EDGEX_OK
  = (before (registers EDGEX_DEV_API_DEVICE) Scenario.startup
     ++ edgex_rest_server_register_handler EDGEX_DEV_API_DEVICE
          [GET; PUT; POST] Handler_device
        :: after (registers EDGEX_DEV_API_DEVICE) Scenario.startup)%list
  /\ In (userfns_init true)
       (before (registers EDGEX_DEV_API_DEVICE) Scenario.startup).
Proof.
  assert (H : trace_of
                (edgex_device_service_start (Scenario.env Scenario.normal)
                   None None None) Scenario.fresh EDGEX_OK
              = (before (registers EDGEX_DEV_API_DEVICE) Scenario.startup
                 ++ edgex_rest_server_register_handler EDGEX_DEV_API_DEVICE
                      [GET; PUT; POST] Handler_device
                    :: after (registers EDGEX_DEV_API_DEVICE)
                         Scenario.startup)%list)
    by (vm_compute; reflexivity).
  split; [exact H|].
  exact (proj2 (proj2 (proj2 (handlers_registered_in_order
                         (Scenario.env Scenario.normal) None None None
                         Scenario.fresh EDGEX_OK
                         (before (registers EDGEX_DEV_API_DEVICE)
                            Scenario.startup)
                         (edgex_rest_server_register_handler
                            EDGEX_DEV_API_DEVICE [GET; PUT; POST]
                            Handler_device)
                         (after (registers EDGEX_DEV_API_DEVICE)
                            Scenario.startup)
                         1%nat EDGEX_DEV_API_DEVICE H eq_refl eq_refl)))
           Nat.lt_0_1).
Defined.

(** C2 as stated fails: in the startup of the demo service neither the
    device nor the discovery handler is registered before the driver's
    [init]; both are registered after it. *)
Lemma device_handlers_follow_init :
  existsb (registers EDGEX_DEV_API_DEVICE)
    (before is_driver_init Scenario.startup) = false
  /\ existsb (registers EDGEX_DEV_API_DISCOVERY)
       (before is_driver_init Scenario.startup) = false
  /\ existsb (registers EDGEX_DEV_API_DEVICE)
       (after is_driver_init Scenario.startup) = true
  /\ existsb (registers EDGEX_DEV_API_DISCOVERY)
       (after is_driver_init Scenario.startup) = true.
Proof. repeat split; vm_compute; reflexivity. Qed.

(** C4, at the failing input.  With [connectretries] 0 and core-data
    answering the first ping, the startup pings once, which is more than
    [connectretries] times, and then stops with
    [EDGEX_REMOTE_SERVER_DOWN] and the log line "core-data service not
    running".  For counts from 1 on the loops keep to the limit, see
    [retry_within_limit]. *)
Theorem no_retries_reports_core_data_down :
  connectretries (service (Scenario.file_config Scenario.no_retries)) = 0
  /\ trace_of
       (edgex_device_service_start (Scenario.env Scenario.no_retries)
          None None None) Scenario.fresh EDGEX_OK
     = [iot_logging_client_create "device-demo";
        edgex_device_loadConfig "res" None;
        edgex_device_populateConfig (Some (TomlTable "res" None));
        edgex_device_validateConfig;
        iot_log LogDebug "Starting device-demo device service, version 1.0";
        iot_log LogDebug "EdgeX device SDK for C, version 0.7.2";
        edgex_device_dumpConfig;
        edgex_data_client_ping true;
        iot_log LogError "core-data service not running";
        edgex_registry_free None;
        toml_free (Some (TomlTable "res" None))]
  /\ err_of
       (edgex_device_service_start (Scenario.env Scenario.no_retries)
          None None None) Scenario.fresh EDGEX_OK
     = EDGEX_REMOTE_SERVER_DOWN.
Proof. split; [reflexivity | split; lazy; reflexivity]. Qed.

(** ** The upload of the configuration *)

Lemma uploads_nothing_ret {A} (a : A) : uploads_nothing (ret a).
Proof. intros s Hs. exact Hs. Qed.

Lemma uploads_nothing_return {A} : uploads_nothing (@return_ A).
Proof. intros s Hs. exact Hs. Qed.

Lemma uploads_nothing_bind {A B} (m : M A) (k : A -> M B) :
  uploads_nothing m -> (forall a, uploads_nothing (k a)) ->
  uploads_nothing (bind m k).
Proof.
  intros Hm Hk s Hs. unfold bind. specialize (Hm s Hs).
  destruct (m s) as [[a|] s']; simpl in *; auto. now apply Hk.
Qed.

Lemma uploads_nothing_emit a :
  is_put_config a = false -> uploads_nothing (emit a).
Proof.
  intros Ha s Hs. simpl. rewrite existsb_app, Hs. simpl. now rewrite Ha.
Qed.

Lemma uploads_nothing_extcall {R} (act : R -> action) o :
  (forall r, is_put_config (act r) = false) ->
  uploads_nothing (extcall act o).
Proof.
  intros Ha s Hs. simpl. rewrite existsb_app, Hs. simpl. now rewrite Ha.
Qed.

Lemma uploads_nothing_extcall_ {R} (act : R -> action) o :
  (forall r, is_put_config (act r) = false) ->
  uploads_nothing (extcall_ act o).
Proof.
  intros Ha s Hs. simpl. rewrite existsb_app, Hs. simpl. now rewrite Ha.
Qed.

Lemma uploads_nothing_silent {A} (m : M A) :
  (forall s, st_trace (snd (m s)) = st_trace s) -> uploads_nothing m.
Proof. intros Hm s Hs. now rewrite Hm. Qed.

Lemma uploads_nothing_when b m :
  uploads_nothing m -> uploads_nothing (when_ b m).
Proof. intros Hm. destruct b; simpl; auto using @uploads_nothing_ret. Qed.

Lemma uploads_nothing_if_null {A B} (p : option A) (m1 : M B) m2 :
  uploads_nothing m1 -> (forall a, uploads_nothing (m2 a)) ->
  uploads_nothing (if_null p m1 m2).
Proof. intros H1 H2. destruct p; simpl; auto. Qed.

Lemma uploads_nothing_if {A} (b : bool) (m1 m2 : M A) :
  uploads_nothing m1 -> uploads_nothing m2 ->
  uploads_nothing (if b then m1 else m2).
Proof. now destruct b. Qed.

Lemma uploads_nothing_for_each {X} (l : list X) body :
  (forall x, uploads_nothing (body x)) -> uploads_nothing (for_each l body).
Proof.
  intros Hb. induction l; simpl.
  - apply uploads_nothing_ret.
  - apply uploads_nothing_bind; auto.
Qed.

Lemma uploads_nothing_retry ping delay retries :
  uploads_nothing ping -> uploads_nothing (retry ping delay retries).
Proof.
  intros Hp. unfold retry.
  generalize (S (Z.to_nat ((retries - 1) mod 2 ^ 32))). intros fuel.
  revert retries. induction fuel as [|fuel IH]; intros retries; simpl.
  - apply uploads_nothing_ret.
  - apply uploads_nothing_bind; auto. intros pong.
    destruct pong; [apply uploads_nothing_ret|].
    destruct (int_wrap (retries - 1) =? 0); [apply uploads_nothing_ret|].
    apply uploads_nothing_bind; [|intros _; apply IH].
    now apply uploads_nothing_emit.
Qed.

Lemma uploads_nothing_call {A} (m : M A) :
  uploads_nothing m -> uploads_nothing (call m).
Proof. intros Hm s Hs. simpl. now apply Hm. Qed.

Ltac uploads_nothing_step :=
  lazymatch goal with
  | |- uploads_nothing (bind _ _) => apply uploads_nothing_bind; [|intros ?]
  | |- uploads_nothing (when_ _ _) => apply uploads_nothing_when
  | |- uploads_nothing (if_null None _ _) => unfold if_null at 1
  | |- uploads_nothing (if_null _ _ _) =>
      apply uploads_nothing_if_null; [|intros ?]
  | |- uploads_nothing (if ?b then _ else _) =>
      first [apply uploads_nothing_if | destruct b]
  | |- uploads_nothing (for_each _ _) =>
      apply uploads_nothing_for_each; intros ?
  | |- uploads_nothing (retry _ _ _) => apply uploads_nothing_retry
  | |- uploads_nothing (call _) => apply uploads_nothing_call
  | |- uploads_nothing (emit _) => apply uploads_nothing_emit; reflexivity
  | |- uploads_nothing (log _ _) => apply uploads_nothing_emit; reflexivity
  | |- uploads_nothing (extcall _ _) =>
      apply uploads_nothing_extcall; intros ?; reflexivity
  | |- uploads_nothing (extcall_ _ _) =>
      apply uploads_nothing_extcall_; intros ?; reflexivity
  | |- uploads_nothing (ret _) => apply uploads_nothing_ret
  | |- uploads_nothing return_ => apply uploads_nothing_return
  | |- uploads_nothing (check_created _ _ _) => unfold check_created
  | |- uploads_nothing (match ?x with Some _ => _ | None => _ end) =>
      destruct x
  | |- uploads_nothing _ =>
      apply uploads_nothing_silent; intros ?; reflexivity
  end.

Ltac uploads_nothing_tac :=
  cbv zeta; repeat (uploads_nothing_step; cbv zeta).

(** With a null profile nothing is pushed to the registry, whatever the
    registry and the other services answer. *)
Lemma null_profile_uploads_nothing E registryURL confDir svc err :
  existsb is_put_config
    (trace_of (edgex_device_service_start E registryURL None confDir)
       svc err)
  = false.
Proof.
  assert (H : uploads_nothing
                (edgex_device_service_start E registryURL None confDir)).
  { unfold edgex_device_service_start.
    assert (Hs : forall registry toml,
               uploads_nothing (startConfigured E registry toml None)).
    { intros registry toml.
      unfold startConfigured, configure_and_upload, wait_for_core_services,
        register_deviceservice, upload_schedule, upload_scheduleevent,
        retrieve_scheduleevents, schedule_event.
      uploads_nothing_tac. }
    uploads_nothing_tac.
    match goal with
    | |- context [if ?b then None else None] => destruct b
    end; apply Hs. }
  apply H. reflexivity.
Qed.

(** C5, at the failing input.  A registry is in use and has no
    configuration for the service, so the configuration is read from
    file; with a null profile the startup runs to the end without any
    [edgex_registry_put_config], while the same run with a profile name
    uploads the configuration.  No environment makes a startup with a
    null profile upload, see [null_profile_uploads_nothing]. *)
Theorem null_profile_skips_config_upload :
  let start profile :=
    edgex_device_service_start (Scenario.env Scenario.normal)
      (Some Scenario.registry_url) profile None in
  firstn 9 (trace_of (start None) Scenario.fresh EDGEX_OK)
  = [iot_logging_client_create "device-demo";
     edgex_registry_get_registry Scenario.registry_url true;
     edgex_registry_ping true;
     edgex_registry_get_config "device-demo" None;
     iot_log LogInfo "Unable to get configuration from registry.";
     iot_log LogInfo "Will load from file.";
     edgex_device_loadConfig "res" None;
     edgex_device_populateConfig (Some (TomlTable "res" None));
     edgex_device_validateConfig]
  /\ existsb is_put_config (trace_of (start None) Scenario.fresh EDGEX_OK)
     = false
  /\ err_of (start None) Scenario.fresh EDGEX_OK = EDGEX_OK
  /\ existsb is_put_config
       (trace_of (start (Some "docker")) Scenario.fresh EDGEX_OK)
     = true.
Proof. repeat split; vm_compute; reflexivity. Qed.

(** ** Schedule events and create calls *)


(** The device event of the demo deployment. *)
Lemma device_url_job_witness :
  sjobs (st_svc (snd (schedule_event (Scenario.env Scenario.normal)
                        Scenario.device_event Scenario.initial)))
  = ["all/temp"]
  /\ st_trace (snd (fire (Scenario.env Scenario.normal)
                      (Fn_dev_invoker "all/temp") Scenario.initial))
     = [edgex_device_handler_device "all/temp" GET 200].
Proof.
  destruct (device_url_job (Scenario.env Scenario.normal)
              Scenario.device_event Scenario.initial "all/temp"
              eq_refl eq_refl eq_refl) as [(_ & H1 & _) H2].
  split; [exact H1|].
  exact (proj2 (H2 Scenario.initial)).
Defined.

(** C9 as stated fails: a reply with status 204 is logged as an
    error. *)
Lemma no_content_reply_is_logged :
  is_2xx 204 = true
  /\ trace_of (fire (Scenario.env Scenario.no_content)
                 (Fn_dev_invoker "all/temp")) Scenario.fresh EDGEX_OK
     = [edgex_device_handler_device "all/temp" GET 204;
        iot_log LogError
          "Scheduled request to /api/v1/device/all/temp: HTTP 204"].
Proof. split; reflexivity. Qed.

(** * Further properties of the lifecycle *)

(** ** The frame rules *)

Section FrameRules.

Variable F : frame.
Hypothesis HF : sound F.

Lemma preserves_ret {A} (a : A) : preserves F (ret a).
Proof. intros s Hs. exact Hs. Qed.

Lemma preserves_return {A} :
  (forall s, holds F s -> leaves F s) -> preserves F (@return_ A).
Proof. intros H s Hs. apply H, Hs. Qed.

Lemma preserves_bind {A B} (m : M A) (k : A -> M B) :
  preserves F m -> (forall a, preserves F (k a)) -> preserves F (bind m k).
Proof. intros Hm Hk. eapply hoare_bind; [apply Hm|]. intros a. apply Hk. Qed.

Lemma preserves_bind_ret {A B} (a : A) (k : A -> M B) :
  preserves F (k a) -> preserves F (bind (ret a) k).
Proof. intros Hk s Hs. apply (Hk s Hs). Qed.

Lemma preserves_assoc {A B C} (m : M A) (f : A -> M B) (k : B -> M C) :
  preserves F (bind m (fun a => bind (f a) k)) ->
  preserves F (bind (bind m f) k).
Proof.
  intros H s Hs. specialize (H s Hs). unfold bind in *.
  destruct (m s) as [[a|] s1]; auto.
Qed.

Lemma preserves_emit a : quiet F a = true -> preserves F (emit a).
Proof.
  intros Ha s Hs. destruct HF as (Hc & _ & _).
  apply (Hc a (st_err s) s Ha Hs).
Qed.

Lemma preserves_log lvl msg :
  quiet F (iot_log lvl msg) = true -> preserves F (log lvl msg).
Proof. apply preserves_emit. Qed.

Lemma preserves_set_err e : preserves F (set_err e).
Proof. intros s Hs. destruct HF as (_ & He & _). apply (He e s Hs). Qed.

Lemma preserves_get_err : preserves F get_err.
Proof. intros s Hs. exact Hs. Qed.

Lemma preserves_get_svc : preserves F get_svc.
Proof. intros s Hs. exact Hs. Qed.

Lemma preserves_modify_svc f : gentle F f -> preserves F (modify_svc f).
Proof. intros Hf s Hs. destruct HF as (_ & _ & Hm). apply (Hm f s Hf Hs). Qed.

Lemma preserves_extcall {R} (act : R -> action) o :
  (forall r, quiet F (act r) = true) -> preserves F (extcall act o).
Proof.
  intros Ha s Hs. destruct HF as (Hc & _ & _).
  apply (Hc (act (fst (o s))) (snd (o s)) s (Ha _) Hs).
Qed.

Lemma preserves_extcall_ {R} (act : R -> action) o :
  (forall r, quiet F (act r) = true) -> preserves F (extcall_ act o).
Proof.
  intros Ha s Hs. destruct HF as (Hc & _ & _).
  apply (Hc (act (o s)) (st_err s) s (Ha _) Hs).
Qed.

(** The continuation of a call sees only values that the oracle gave. *)
Lemma preserves_answer {R B} (act : R -> action) o (k : R -> M B) :
  (forall r, quiet F (act r) = true) ->
  (forall s, preserves F (k (fst (o s)))) ->
  preserves F (bind (extcall act o) k).
Proof.
  intros Ha Hk s Hs. unfold bind, extcall. apply (Hk s).
  destruct HF as (Hc & _ & _).
  apply (Hc (act (fst (o s))) (snd (o s)) s (Ha _) Hs).
Qed.

Lemma preserves_when b m : preserves F m -> preserves F (when_ b m).
Proof. intros Hm. destruct b; simpl; [exact Hm | apply preserves_ret]. Qed.

Lemma preserves_if_null {A B} (p : option A) (m1 : M B) m2 :
  preserves F m1 -> (forall a, preserves F (m2 a)) ->
  preserves F (if_null p m1 m2).
Proof. intros H1 H2. destruct p; simpl; auto. Qed.

Lemma preserves_if {A} (b : bool) (m1 m2 : M A) :
  preserves F m1 -> preserves F m2 -> preserves F (if b then m1 else m2).
Proof. now destruct b. Qed.

Lemma preserves_for_each {X} (l : list X) body :
  (forall x, preserves F (body x)) -> preserves F (for_each l body).
Proof.
  intros Hb. induction l; simpl.
  - apply preserves_ret.
  - apply preserves_bind; auto.
Qed.

Lemma preserves_retry_loop fuel ping delay retries :
  quiet F (nanosleep delay) = true -> preserves F ping ->
  preserves F (retry_loop fuel ping delay retries).
Proof.
  intros Hd Hp. revert retries.
  induction fuel as [|fuel IH]; intros retries; simpl.
  - apply preserves_ret.
  - apply preserves_bind; auto. intros pong.
    destruct pong; [apply preserves_ret|].
    destruct (int_wrap (retries - 1) =? 0); [apply preserves_ret|].
    apply preserves_bind; [now apply preserves_emit | intros _; apply IH].
Qed.

Lemma preserves_retry ping delay retries :
  quiet F (nanosleep delay) = true -> preserves F ping ->
  preserves F (retry ping delay retries).
Proof. apply preserves_retry_loop. Qed.

(** A statement that always returns cuts off what follows it. *)
Lemma preserves_cut {A B} (m : M A) (k : A -> M B) :
  (forall s, fst (m s) = Returned) -> preserves F m ->
  preserves F (bind m k).
Proof.
  intros Hr Hm s Hs. specialize (Hm s Hs). specialize (Hr s). unfold bind.
  destruct (m s) as [[a|] s']; simpl in *; [discriminate | exact Hm].
Qed.

(** The callee's [return] ends the callee only. *)
Lemma preserves_call {A} (m : M A) :
  (forall s, leaves F s -> holds F s) -> preserves F m ->
  preserves F (call m).
Proof.
  intros Hl Hm s Hs. specialize (Hm s Hs). unfold call.
  destruct (m s) as [[a|] s']; simpl; auto.
Qed.

Lemma preserves_check_created a b c :
  (forall s, holds F s -> leaves F s) ->
  (forall lvl msg, quiet F (iot_log lvl msg) = true) ->
  preserves F (check_created a b c).
Proof.
  intros Hl Hq. unfold check_created.
  apply preserves_bind; [apply preserves_get_err | intros e].
  repeat apply preserves_if; try (apply preserves_log, Hq).
  apply preserves_bind; [apply preserves_log, Hq | intros _].
  now apply preserves_return.
Qed.

End FrameRules.

(** One step of a proof that a statement preserves a frame; [HF] is the
    soundness of the frame, [side] proves that [holds] implies
    [leaves]. *)
Ltac preserves_step HF side :=
  lazymatch goal with
  | |- preserves _ (bind (ret _) _) => apply preserves_bind_ret
  | |- preserves _ (bind return_ _) =>
      apply preserves_cut;
      [intros ?; reflexivity | apply preserves_return; side]
  | |- preserves _ (bind (bind _ _) _) => apply preserves_assoc
  | |- preserves _ (bind _ _) => apply preserves_bind; [|intros ?]
  | |- preserves _ (when_ _ _) => apply preserves_when
  | |- preserves _ (if_null _ _ _) => apply preserves_if_null; [|intros ?]
  | |- preserves _ (match ?x with Some _ => _ | None => _ end) =>
      destruct x
  | |- preserves _ (if _ then _ else _) => apply preserves_if
  | |- preserves _ (for_each _ _) => apply preserves_for_each; intros ?
  | |- preserves _ (retry _ _ _) =>
      apply preserves_retry; [exact HF | reflexivity |]
  | |- preserves _ (emit _) => apply preserves_emit; [exact HF | reflexivity]
  | |- preserves _ (log _ _) => apply preserves_log; [exact HF | reflexivity]
  | |- preserves _ (set_err _) => apply preserves_set_err; exact HF
  | |- preserves _ get_err => apply preserves_get_err
  | |- preserves _ get_svc => apply preserves_get_svc
  | |- preserves _ (ret _) => apply preserves_ret
  | |- preserves _ return_ => apply preserves_return; side
  | |- preserves _ (extcall _ _) =>
      apply preserves_extcall; [exact HF | intros ?; reflexivity]
  | |- preserves _ (extcall_ _ _) =>
      apply preserves_extcall_; [exact HF | intros ?; reflexivity]
  | |- preserves _ (modify_svc _) =>
      apply preserves_modify_svc;
      [exact HF | first [exact I | intros ?; reflexivity]]
  | |- preserves _ (check_created _ _ _) =>
      apply preserves_check_created;
      [exact HF | side | intros ? ?; reflexivity]
  end.

Ltac preserves_tac HF side :=
  cbv beta zeta; cbn [if_null is_some negb orb];
  repeat (preserves_step HF side; cbv beta zeta;
          cbn [if_null is_some negb orb]).

(** ** What a startup never does *)

Lemma sound_never p : sound (never p).
Proof.
  repeat split; simpl.
  - intros a e s Ha Hs. rewrite existsb_app, Hs. simpl.
    now rewrite (proj1 (negb_true_iff _) Ha).
  - intros e s Hs. exact Hs.
  - intros f s _ Hs. exact Hs.
Qed.

(** The same with a tactic [special] that is tried first at every
    step. *)
Ltac preserves_with HF side special :=
  cbv beta zeta; cbn [if_null is_some negb orb];
  repeat (first [special | preserves_step HF side]; cbv beta zeta;
          cbn [if_null is_some negb orb]).

Ltac never_tac :=
  lazymatch goal with
  | |- preserves (never ?p) _ =>
      preserves_tac (sound_never p) ltac:(intros ? ?; assumption)
  end.

(** The parts of [startConfigured], unfolded. *)
Ltac unfold_startup :=
  unfold startConfigured, configure_and_upload, wait_for_core_services,
    register_deviceservice, upload_schedule, upload_scheduleevent,
    retrieve_scheduleevents, schedule_event.

Section Never.

Variable E : Env.

Lemma startConfigured_without_registry toml :
  preserves (never is_registry_call) (startConfigured E None toml None).
Proof. unfold_startup. cbn [if_null]. never_tac. Qed.

Lemma never_run {A} p (m : M A) svc err :
  preserves (never p) m -> existsb p (trace_of m svc err) = false.
Proof.
  intros H. unfold trace_of, run.
  specialize (H {| st_svc := svc; st_err := err; st_trace := [] |} eq_refl).
  destruct (m _) as [[a|] s']; exact H.
Qed.

(** Started without a registry URL, the service makes no call to a
    registry: no lookup, ping, download or upload of configuration, and
    no registration. *)
Theorem no_registry_url_no_registry_call profile confDir svc err :
  existsb is_registry_call
    (trace_of (edgex_device_service_start E None profile confDir) svc err)
  = false.
Proof.
  apply never_run. unfold edgex_device_service_start. cbn [if_null].
  never_tac.
  apply preserves_call; [intros ? ?; assumption|].
  apply startConfigured_without_registry.
Qed.

Lemma startConfigured_from_registry registry :
  preserves (never is_file_config) (startConfigured E registry None None).
Proof. unfold_startup. cbn [if_null]. never_tac. Qed.

(** When the registry holds a configuration for the service, the
    configuration file is not read, no device list of the file is
    processed, and nothing is uploaded to the registry. *)
Theorem registry_configuration_replaces_file url profile confDir svc err :
  (forall nm p s, fst (registry_get_config E nm p s) <> None) ->
  existsb is_file_config
    (trace_of (edgex_device_service_start E (Some url) profile confDir)
       svc err)
  = false.
Proof.
  intros Hcfg. apply never_run. unfold edgex_device_service_start.
  preserves_with (sound_never is_file_config) ltac:(intros ? ?; assumption)
    ltac:(idtac; lazymatch goal with
          | |- preserves _ (bind (if_null ?r _ _) _) => is_var r; destruct r
          | |- preserves _
                 (bind (extcall (fun _ => edgex_registry_get_config _ _) _)
                    _) =>
              apply preserves_answer;
              [ apply sound_never | intros ?; reflexivity | ];
              let s := fresh "s" in
              let H := fresh "H" in
              intros s;
              match goal with
              | |- context [fst (registry_get_config E ?n ?p s)] =>
                  destruct (fst (registry_get_config E n p s)) eqn:H;
                  [|exfalso; exact (Hcfg n p s H)]
              end
          | |- preserves _ (call _) =>
              apply preserves_call; [intros ? ?; assumption|];
              apply startConfigured_from_registry
          end).

Qed.

End Never.

Lemma registry_configuration_replaces_file_witness :
  existsb is_file_config
    (trace_of
       (edgex_device_service_start (Scenario.env Faults.registry_has_config)
          (Some Scenario.registry_url) None None) Scenario.fresh EDGEX_OK)
  = false.
Proof.
  exact (registry_configuration_replaces_file
           (Scenario.env Faults.registry_has_config) Scenario.registry_url
           None None Scenario.fresh EDGEX_OK
           (fun _ _ _ (H : Some [("Service/Host", "localhost")] = None) =>
              eq_ind (Some [("Service/Host", "localhost")])
                (fun o => match o with Some _ => True | None => False end)
                I None H)).
Defined.

(** ** The registry at startup *)

Section Registry.

Variable E : Env.
#[local] Open Scope list_scope.

(** A registry URL that names no registry implementation ends the
    startup at once with [EDGEX_INVALID_ARG]: nothing is pinged, loaded
    or freed. *)
Theorem unknown_registry_is_invalid_arg url profile confDir svc err :
  (forall s, registry_get_registry E url s = None) ->
  trace_of (edgex_device_service_start E (Some url) profile confDir) svc err
  = [iot_logging_client_create (name svc);
     edgex_registry_get_registry url false]
  /\ err_of (edgex_device_service_start E (Some url) profile confDir) svc err
     = EDGEX_INVALID_ARG.
Proof.
  intros Hreg. unfold trace_of, err_of, run, edgex_device_service_start.
  cbv [bind get_svc emit modify_svc set_err if_null extcall_ return_ ret].
  cbn [st_svc st_err st_trace fst snd]. rewrite Hreg.
  split; reflexivity.
Qed.

(** A registry that answers none of five pings, one second apart, ends
    the startup with [EDGEX_REMOTE_SERVER_DOWN]; the registry handle is
    freed and no configuration is looked for. *)
Theorem registry_down_aborts_start url r profile confDir svc err :
  (forall s, registry_get_registry E url s = Some r) ->
  (forall s, fst (registry_ping E s) = false) ->
  trace_of (edgex_device_service_start E (Some url) profile confDir) svc err
  = [iot_logging_client_create (name svc);
     edgex_registry_get_registry url true]
    ++ ping_trace edgex_registry_ping registry_delay (repeat false 5)
    ++ [iot_log LogError "registry service not running";
        edgex_registry_free (Some r)]
  /\ err_of (edgex_device_service_start E (Some url) profile confDir) svc err
     = EDGEX_REMOTE_SERVER_DOWN.
Proof.
  intros Hreg Hping.
  unfold trace_of, err_of, run, edgex_device_service_start.
  cbv [bind get_svc emit modify_svc set_err if_null extcall_ return_ ret].
  cbn [st_svc st_err st_trace fst snd]. rewrite Hreg.
  unfold retry. change (Z.to_nat ((5 - 1) mod 2 ^ 32)) with 4%nat.
  do 5 (rewrite retry_loop_unroll; cbv zeta; rewrite Hping;
        match goal with
        | |- context [int_wrap ?z] =>
            let v := eval vm_compute in (int_wrap z) in
            change (int_wrap z) with v
        end;
        cbn [Z.eqb Pos.eqb]).
  split; reflexivity.
Qed.

End Registry.

Lemma unknown_registry_is_invalid_arg_witness :
  trace_of
    (edgex_device_service_start Faults.unknown_registry
       (Some Scenario.registry_url) None None) Scenario.fresh EDGEX_OK
  = [iot_logging_client_create "device-demo";
     edgex_registry_get_registry Scenario.registry_url false]
  /\ err_of
       (edgex_device_service_start Faults.unknown_registry
          (Some Scenario.registry_url) None None) Scenario.fresh EDGEX_OK
     = EDGEX_INVALID_ARG.
Proof.
  exact (unknown_registry_is_invalid_arg Faults.unknown_registry
           Scenario.registry_url None None Scenario.fresh EDGEX_OK
           (fun _ => eq_refl)).
Defined.

Lemma registry_down_aborts_start_witness :
  err_of
    (edgex_device_service_start Faults.registry_down
       (Some Scenario.registry_url) None None) Scenario.fresh EDGEX_OK
  = EDGEX_REMOTE_SERVER_DOWN.
Proof.
  exact (proj2 (registry_down_aborts_start Faults.registry_down
                  Scenario.registry_url (Registry Scenario.registry_url)
                  None None Scenario.fresh EDGEX_OK
                  (fun _ => eq_refl) (fun _ => eq_refl))).
Defined.

(** ** The error code and the progress of the startup *)

Lemma failed_false e : failed e = false -> e = EDGEX_OK.
Proof. destruct e; simpl; intros H; congruence. Qed.

Lemma no_error_not_failed s : no_error s -> has_failed s -> False.
Proof. unfold no_error, has_failed. intros ->. discriminate. Qed.

Lemma hoare_conseq {A} (P P' : state -> Prop) (m : M A)
  (Q Q' : A -> state -> Prop) (R R' : state -> Prop) :
  hoare P m Q R -> (forall s, P' s -> P s) ->
  (forall a s, Q a s -> Q' a s) -> (forall s, R s -> R' s) ->
  hoare P' m Q' R'.
Proof.
  intros H HP HQ HR s Hs. specialize (H s (HP s Hs)).
  destruct (m s) as [[a|] s']; auto.
Qed.

(** *** What a statement ensures when it falls through *)

Lemma ensures_last {A B} Q (m : M A) (k : A -> M B) :
  (forall a, ensures Q (k a)) -> ensures Q (bind m k).
Proof.
  intros Hk s _. unfold bind. destruct (m s) as [[a|] s']; auto.
  now apply Hk.
Qed.

Lemma ensures_guard Q (abort : edgex_error -> M unit) :
  (forall e, gives_up (abort e)) -> (forall s, no_error s -> Q s) ->
  ensures Q (bind get_err (fun e => when_ (failed e) (abort e))).
Proof.
  intros Ha HQ s _. unfold bind, get_err, when_.
  destruct (failed (st_err s)) eqn:Hf.
  - destruct (Ha (st_err s) s) as [H1 _].
    destruct (abort (st_err s) s) as [[u|] s']; simpl in *;
      [discriminate | exact I].
  - apply HQ. now apply failed_false.
Qed.

Lemma ensures_guard_then {B} Q (abort : edgex_error -> M unit)
  (k : unit -> M B) :
  (forall e, gives_up (abort e)) -> hoare no_error (k tt) (fun _ => Q) (fun _ => True) ->
  ensures Q (bind get_err (fun e => bind (when_ (failed e) (abort e)) k)).
Proof.
  intros Ha Hk s _. unfold bind, get_err, when_.
  destruct (failed (st_err s)) eqn:Hf.
  - destruct (Ha (st_err s) s) as [H1 _].
    destruct (abort (st_err s) s) as [[u|] s']; simpl in *;
      [discriminate | exact I].
  - simpl. apply Hk. now apply failed_false.
Qed.

Lemma ensures_stays_ok {A} (m : M A) : ensures no_error m -> stays_ok m.
Proof. intros H s _. now apply H. Qed.

Lemma stays_ok_ret {A} (a : A) : stays_ok (ret a).
Proof. intros s Hs. exact Hs. Qed.

Lemma stays_ok_bind {A B} (m : M A) (k : A -> M B) :
  stays_ok m -> (forall a, stays_ok (k a)) -> stays_ok (bind m k).
Proof. intros Hm Hk. eapply hoare_bind; [apply Hm|]. intros a. apply Hk. Qed.

Lemma stays_ok_emit a : stays_ok (emit a).
Proof. intros s Hs. exact Hs. Qed.

Lemma stays_ok_log lvl msg : stays_ok (log lvl msg).
Proof. intros s Hs. exact Hs. Qed.

Lemma stays_ok_modify_svc f : stays_ok (modify_svc f).
Proof. intros s Hs. exact Hs. Qed.

Lemma stays_ok_when b m : stays_ok m -> stays_ok (when_ b m).
Proof. intros Hm. destruct b; simpl; [exact Hm | apply stays_ok_ret]. Qed.

Lemma stays_ok_if_null {A B} (p : option A) (m1 : M B) m2 :
  stays_ok m1 -> (forall a, stays_ok (m2 a)) -> stays_ok (if_null p m1 m2).
Proof. intros H1 H2. destruct p; simpl; auto. Qed.

Lemma stays_ok_if {A} (b : bool) (m1 m2 : M A) :
  stays_ok m1 -> stays_ok m2 -> stays_ok (if b then m1 else m2).
Proof. now destruct b. Qed.

Lemma stays_ok_for_each {X} (l : list X) body :
  (forall x, stays_ok (body x)) -> stays_ok (for_each l body).
Proof.
  intros Hb. induction l; simpl.
  - apply stays_ok_ret.
  - apply stays_ok_bind; auto.
Qed.

(** A statement that always returns. *)
Lemma stays_ok_abort {A} (m : M A) :
  (forall s, fst (m s) = Returned) -> stays_ok m.
Proof.
  intros H s _. specialize (H s).
  destruct (m s) as [[a|] s']; simpl in *; [discriminate | exact I].
Qed.

Ltac stays_ok_step :=
  lazymatch goal with
  | |- hoare no_error ?m (fun _ => no_error) (fun _ => True) =>
      change (stays_ok m)
  | |- stays_ok (bind (extcall _ _) _) =>
      apply ensures_stays_ok, ensures_last; intros ?;
      first [ apply ensures_guard; [gives_up_tac | intros ? ?; assumption]
            | apply ensures_guard_then; [gives_up_tac|] ]
  | |- stays_ok (bind _ _) =>
      first [ solve [apply stays_ok_abort; intros ?; reflexivity]
            | apply stays_ok_bind; [|intros ?] ]
  | |- stays_ok (when_ _ _) => apply stays_ok_when
  | |- stays_ok (if_null _ _ _) => apply stays_ok_if_null; [|intros ?]
  | |- stays_ok (match ?x with Some _ => _ | None => _ end) => destruct x
  | |- stays_ok (if _ then _ else _) => apply stays_ok_if
  | |- stays_ok (for_each _ _) => apply stays_ok_for_each; intros ?
  | |- stays_ok (emit _) => apply stays_ok_emit
  | |- stays_ok (log _ _) => apply stays_ok_log
  | |- stays_ok (ret _) => apply stays_ok_ret
  | |- stays_ok (modify_svc _) => apply stays_ok_modify_svc
  end.

Ltac stays_ok_tac := cbv zeta; repeat (stays_ok_step; cbv zeta).

Section Completion.

Variable E : Env.

Lemma ensures_no_error_schedule_event ev : ensures no_error (schedule_event E ev).
Proof.
  unfold schedule_event. apply ensures_last. intros sched.
  apply ensures_guard_then; [gives_up_tac|]. stays_ok_tac.
Qed.

Lemma ensures_no_error_retrieve_scheduleevents :
  ensures no_error (retrieve_scheduleevents E).
Proof.
  unfold retrieve_scheduleevents.
  do 3 (apply ensures_last; intros ?).
  apply ensures_guard_then; [gives_up_tac|].
  stays_ok_step. apply stays_ok_for_each. intros ev.
  apply ensures_stays_ok, ensures_no_error_schedule_event.
Qed.

Lemma ensures_then {A B} Q (m : M A) (k : A -> M B) :
  ensures Q m -> (forall a, hoare Q (k a) (fun _ => Q) (fun _ => True)) ->
  ensures Q (bind m k).
Proof. intros Hm Hk. eapply hoare_bind; [apply Hm | exact Hk]. Qed.

(** [startConfigured] falls through only without an error. *)
Lemma ensures_no_error_startConfigured registry toml profile :
  ensures no_error (startConfigured E registry toml profile).
Proof.
  unfold startConfigured.
  repeat lazymatch goal with
         | |- ensures no_error (bind (retrieve_scheduleevents E) _) => fail
         | |- ensures no_error (bind _ _) => apply ensures_last; intros ?
         end.
  apply ensures_then; [apply ensures_no_error_retrieve_scheduleevents | intros _].
  stays_ok_tac.
Qed.

Lemma keeps_upload_scheduleevent key schedevt :
  keeps (upload_scheduleevent E key schedevt).
Proof. unfold upload_scheduleevent. keeps_tac. Qed.

Lemma keeps_schedule_event ev : keeps (schedule_event E ev).
Proof. unfold schedule_event. keeps_tac. Qed.

Lemma keeps_retrieve_scheduleevents : keeps (retrieve_scheduleevents E).
Proof.
  unfold retrieve_scheduleevents.
  repeat first [ apply keeps_schedule_event | keeps_step; cbv zeta ].
Qed.

(** [startConfigured] leaves the configuration alone and returns early
    only with an error. *)
Lemma keeps_startConfigured registry toml profile :
  keeps (startConfigured E registry toml profile).
Proof.
  unfold startConfigured.
  repeat first
    [ apply keeps_configure_and_upload
    | apply keeps_wait_for_core_services
    | apply keeps_register_deviceservice
    | apply keeps_upload_schedule
    | apply keeps_upload_scheduleevent
    | apply keeps_retrieve_scheduleevents
    | lazymatch goal with
      | |- keeps (match ?x with Some _ => _ | None => _ end) => destruct x
      end
    | keeps_step; cbv zeta ].
Qed.

(** [startConfigured] runs to its end exactly when it leaves
    [EDGEX_OK] in [*err]; an early return leaves an error. *)
Theorem startConfigured_completes_iff_no_error registry toml profile s :
  fst (startConfigured E registry toml profile s) = Next tt
  <-> st_err (snd (startConfigured E registry toml profile s)) = EDGEX_OK.
Proof.
  pose proof (ensures_no_error_startConfigured registry toml profile s I)
    as Hok.
  pose proof (keeps_startConfigured registry toml profile
                (config (st_svc s)) s eq_refl) as Herr.
  destruct (startConfigured E registry toml profile s) as [[[]|] s'];
    simpl in *.
  - split; auto.
  - split; [discriminate|]. intros H. unfold has_failed in Herr.
    rewrite H in Herr. discriminate.
Qed.

End Completion.

(** *** Early returns of the whole startup *)

Lemma errs_of_keeps {A} (m : M A) : keeps m -> errs m.
Proof.
  intros H s _. specialize (H (config (st_svc s)) s eq_refl).
  destruct (m s) as [[a|] s']; [exact I | exact H].
Qed.

Lemma errs_bind {A B} (m : M A) (k : A -> M B) :
  errs m -> (forall a, errs (k a)) -> errs (bind m k).
Proof. intros Hm Hk. eapply hoare_bind; [apply Hm|]. intros a. apply Hk. Qed.

Lemma errs_modify_svc f : errs (modify_svc f).
Proof. intros s _. exact I. Qed.

Lemma errs_ret {A} (a : A) : errs (ret a).
Proof. intros s _. exact I. Qed.

Lemma errs_when b m : errs m -> errs (when_ b m).
Proof. intros Hm. destruct b; simpl; [exact Hm | apply errs_ret]. Qed.

Lemma errs_if_null {A B} (p : option A) (m1 : M B) m2 :
  errs m1 -> (forall a, errs (m2 a)) -> errs (if_null p m1 m2).
Proof. intros H1 H2. destruct p; simpl; auto. Qed.

Lemma errs_if {A} (b : bool) (m1 m2 : M A) :
  errs m1 -> errs m2 -> errs (if b then m1 else m2).
Proof. now destruct b. Qed.

Lemma errs_guard {B} (abort : edgex_error -> M unit) (k : unit -> M B) :
  (forall e, gives_up (abort e)) -> errs (k tt) ->
  errs (bind get_err (fun e => bind (when_ (failed e) (abort e)) k)).
Proof.
  intros Ha Hk s _. unfold bind, get_err, when_.
  destruct (failed (st_err s)) eqn:Hf.
  - destruct (Ha (st_err s) s) as [H1 H2].
    destruct (abort (st_err s) s) as [[u|] s']; simpl in *; [discriminate|].
    unfold has_failed. now rewrite H2.
  - simpl. apply (Hk s I).
Qed.

Ltac errs_step :=
  first
    [ solve [apply errs_of_keeps; keeps_tac]
    | lazymatch goal with
      | |- errs (bind get_err (fun e => bind (when_ (failed e) _) _)) =>
          apply errs_guard; [gives_up_tac|]
      | |- errs (bind _ _) => apply errs_bind; [|intros ?]
      | |- errs (when_ _ _) => apply errs_when
      | |- errs (if_null _ _ _) => apply errs_if_null; [|intros ?]
      | |- errs (if _ then _ else _) => apply errs_if
      | |- errs (modify_svc _) => apply errs_modify_svc
      | |- errs (ret _) => apply errs_ret
      end ].

Ltac errs_tac := cbv zeta; repeat (errs_step; cbv zeta).

Lemma sound_running : sound running.
Proof.
  repeat split; simpl.
  - intros a e s _ Hs. exact Hs.
  - intros e s Hs. exact Hs.
  - intros f s Hf Hs. now rewrite Hf.
Qed.

Lemma step_15 b : step_of b = Some 15%nat -> b = iot_scheduler_start.
Proof.
  destruct b; simpl; try discriminate; eauto.
  - repeat match goal with
           | |- context [if ?c then _ else _] => destruct c
           end; discriminate.
  - destruct ok; discriminate.
Qed.

Section Started.

Variable E : Env.

Lemma ensures_running_configure_and_upload profile :
  ensures (holds running) (configure_and_upload E profile).
Proof.
  unfold configure_and_upload.
  repeat (apply ensures_last; intros ?).
  intros s _. reflexivity.
Qed.

Lemma ensures_running_startConfigured registry toml profile :
  ensures (holds running) (startConfigured E registry toml profile).
Proof.
  unfold startConfigured.
  apply ensures_then; [apply ensures_running_configure_and_upload|].
  intros _.
  lazymatch goal with
  | |- hoare _ ?m _ _ => change (preserves running m)
  end.
  unfold_startup.
  preserves_tac sound_running ltac:(intros ? ?; exact I).
Qed.

Lemma startConfigured_outcome registry toml profile :
  hoare (fun s => reached 0 0 (st_trace s))
    (startConfigured E registry toml profile)
    (fun _ s => completed s /\ no_error s) has_failed.
Proof.
  intros s Hs.
  pose proof (advances_startConfigured E registry toml profile s Hs) as H1.
  pose proof (ensures_no_error_startConfigured E registry toml profile s I)
    as H2.
  pose proof (ensures_running_startConfigured registry toml profile s I)
    as H3.
  pose proof (keeps_startConfigured E registry toml profile
                (config (st_svc s)) s eq_refl) as H4.
  destruct (startConfigured E registry toml profile s) as [[u|] s'];
    simpl in *.
  - split; [split; assumption | assumption].
  - exact H4.
Qed.

(** A statement before [startConfigured]: no numbered step, and a
    return only with an error. *)
Lemma hoare_before_startConfigured {A} (m : M A) :
  neutral m -> errs m ->
  hoare (fun s => reached 0 0 (st_trace s)) m
    (fun _ s => reached 0 0 (st_trace s)) has_failed.
Proof.
  intros Hn He s Hs. specialize (Hn _ _ s Hs). specialize (He s I).
  destruct (m s) as [[a|] s']; simpl in *; assumption.
Qed.

Lemma hoare_after_startConfigured a :
  step_of a = None ->
  hoare (fun s => no_error s -> completed s) (emit a)
    (fun _ s => no_error s -> completed s) has_failed.
Proof.
  intros Ha s Hs. simpl. intros Hok. destruct (Hs Hok) as [Hr Hrun].
  split; [|exact Hrun]. simpl. now apply reached_unnumbered.
Qed.

Lemma service_start_outcome registryURL profile confDir :
  hoare (fun s => reached 0 0 (st_trace s))
    (edgex_device_service_start E registryURL profile confDir)
    (fun _ s => no_error s -> completed s) has_failed.
Proof.
  unfold edgex_device_service_start.
  repeat
    lazymatch goal with
    | |- hoare _ (bind (call _) _) _ _ => fail
    | |- hoare _ (bind _ _) _ _ =>
        eapply hoare_bind;
        [ apply hoare_before_startConfigured;
          [ solve [repeat first [ apply neutral_retry
                                | neutral_step; cbv zeta ]]
          | solve [errs_tac] ]
        | intros ?; cbv zeta ]
    end.
  eapply hoare_bind with (Q := fun _ s => no_error s -> completed s).
  - intros s Hs. unfold call.
    pose proof (startConfigured_outcome a3 a5
                  (if a4 then profile else None) s Hs) as H.
    destruct (startConfigured E a3 a5 _ s) as [[u|] s']; simpl in *.
    + intros _. apply H.
    + intros Hok. destruct (no_error_not_failed _ Hok H).
  - intros ?.
    eapply hoare_bind; [apply hoare_after_startConfigured; reflexivity|].
    intros ?. apply hoare_after_startConfigured; reflexivity.
Qed.

#[local] Open Scope nat_scope.

(** When [edgex_device_service_start] leaves [EDGEX_OK] in [*err] the
    startup has run to its end: the driver's [init] has succeeded, the
    six handlers are registered, the scheduler has been started, and the
    service is unlocked and enabled. *)
Theorem start_without_error_is_complete registryURL profile confDir svc err :
  err_of (edgex_device_service_start E registryURL profile confDir) svc err
  = EDGEX_OK ->
  let s' :=
    snd (run (edgex_device_service_start E registryURL profile confDir)
           svc err) in
  In (userfns_init true) (st_trace s')
  /\ (forall u, In u registration_order ->
        existsb (registers u) (st_trace s') = true)
  /\ In iot_scheduler_start (st_trace s')
  /\ adminstate (st_svc s') = UNLOCKED
  /\ opstate (st_svc s') = ENABLED.
Proof.
  unfold err_of, run. intros Hok. cbv zeta.
  pose proof (service_start_outcome registryURL profile confDir
                {| st_svc := svc; st_err := err; st_trace := [] |}
                reached_start) as H.
  destruct (edgex_device_service_start E registryURL profile confDir _)
    as [[u|] s']; simpl in *.
  2:{ destruct (no_error_not_failed _ Hok H). }
  destruct (H Hok) as [(Hseq & Hhi & Hlo) Hrun].
  assert (Hstep : forall q, mandatory q = true -> q <= 18 ->
                    exists b, In b (st_trace s') /\ step_of b = Some q).
  { intros q Hq Hle. apply steps_in. now apply Hlo. }
  split.
  { destruct (Hstep 8) as (b & Hb & Hs); [reflexivity | lia |].
    apply step_8 in Hs. now subst. }
  split.
  { intros u0 Hu.
    destruct (In_nth_error registration_order u0 Hu) as [j Hj].
    pose proof (nth_error_order_lt _ _ Hj) as Hlt.
    destruct (handler_steps_facts j j) as (_ & _ & Hm & _); try lia.
    destruct (handler_steps_facts j 5) as (Hle & _); try lia.
    destruct (Hstep _ Hm Hle) as (b & Hb & Hs).
    apply existsb_exists. exists b. split; [exact Hb|].
    eapply step_registers; eauto. }
  split.
  { destruct (Hstep 15) as (b & Hb & Hs); [reflexivity | lia |].
    apply step_15 in Hs. now subst. }
  simpl in Hrun. injection Hrun as Ha Ho. auto.
Qed.

End Started.

Lemma start_without_error_is_complete_witness :
  In iot_scheduler_start
    (trace_of
       (edgex_device_service_start (Scenario.env Scenario.normal)
          None None None) Scenario.fresh EDGEX_OK).
Proof.
  assert (H : err_of
                (edgex_device_service_start (Scenario.env Scenario.normal)
                   None None None) Scenario.fresh EDGEX_OK
              = EDGEX_OK) by (vm_compute; reflexivity).
  exact (proj1 (proj2 (proj2
           (start_without_error_is_complete (Scenario.env Scenario.normal)
              None None None Scenario.fresh EDGEX_OK H)))).
Defined.

(** ** A failed [init] of the driver *)

Lemma failed_init_is_init a : is_failed_init a = true -> is_driver_init a = true.
Proof. destruct a; try discriminate. reflexivity. Qed.

Lemma never_weaken (p p' : action -> bool) tr :
  (forall a, p' a = true -> p a = true) ->
  existsb p tr = false -> existsb p' tr = false.
Proof.
  intros Hp H. induction tr as [|a tr IH]; [reflexivity|].
  simpl in *. apply orb_false_iff in H. destruct H as [Ha Htr].
  rewrite (IH Htr), orb_false_r.
  destruct (p' a) eqn:Hpa; [|reflexivity]. now rewrite (Hp a Hpa) in Ha.
Qed.

Lemma after_first p pre a post :
  existsb p pre = false -> p a = true -> after p (pre ++ a :: post) = post.
Proof.
  intros Hpre Ha. induction pre as [|b pre IH]; simpl in *.
  - now rewrite Ha.
  - apply orb_false_iff in Hpre. destruct Hpre as [Hb Hpre].
    rewrite Hb. now apply IH.
Qed.

Section FailedInit.

Variable E : Env.
#[local] Open Scope list_scope.

(** Before the call of [init]. *)
Lemma hoare_before_init {A B} (U : state -> Prop) (m : M A) (k : A -> M B) Q :
  preserves (never is_driver_init) m ->
  (forall a, hoare (holds (never is_driver_init)) (k a) Q
               (fun s => holds (never is_failed_init) s \/ U s)) ->
  hoare (holds (never is_driver_init)) (bind m k) Q
    (fun s => holds (never is_failed_init) s \/ U s).
Proof.
  intros Hm Hk. eapply hoare_bind; [|exact Hk].
  eapply hoare_conseq; [exact Hm | auto | auto |].
  intros s Hs. left. simpl in *.
  eapply never_weaken; [apply failed_init_is_init | exact Hs].
Qed.

(** The call of [init] and the test of its result. *)
Lemma hoare_init {B} (k : unit -> M B) Q :
  hoare (holds (never is_failed_init)) (k tt) Q
    (fun s => holds (never is_failed_init) s \/ init_failed s) ->
  hoare (holds (never is_driver_init))
    (bind (extcall_ userfns_init (driver_init E))
       (fun ok =>
          bind (when_ (negb ok)
                  (set_err EDGEX_DRIVER_UNSTART ;;
                   log LogError "Protocol driver initialization failed" ;;
                   return_)) k)) Q
    (fun s => holds (never is_failed_init) s \/ init_failed s).
Proof.
  intros Hk s Hs. unfold bind at 1. unfold extcall_ at 1.
  destruct (driver_init E s) eqn:Hinit.
  - unfold bind, when_, negb, ret. apply Hk. simpl in *.
    rewrite existsb_app. simpl.
    rewrite (never_weaken _ _ _ failed_init_is_init Hs). reflexivity.
  - simpl. right. split; [reflexivity|]. simpl.
    exists (st_trace s). split; [|exact Hs].
    now rewrite <- app_assoc.
Qed.

Lemma startConfigured_init registry toml profile :
  hoare (holds (never is_driver_init))
    (startConfigured E registry toml profile)
    (fun _ => holds (never is_failed_init))
    (fun s => holds (never is_failed_init) s \/ init_failed s).
Proof.
  unfold startConfigured.
  repeat
    lazymatch goal with
    | |- hoare _ (bind (extcall_ userfns_init _) _) _ _ => fail
    | |- hoare _ (bind _ _) _ _ =>
        apply hoare_before_init;
        [ solve [unfold_startup; never_tac] | intros ? ]
    end.
  apply hoare_init.
  eapply hoare_conseq with (P := holds (never is_failed_init))
                           (Q := fun _ => holds (never is_failed_init))
                           (R := leaves (never is_failed_init));
    [| auto | auto | intros s Hs; left; exact Hs].
  lazymatch goal with
  | |- hoare _ ?m _ _ => change (preserves (never is_failed_init) m)
  end.
  unfold_startup. never_tac.
Qed.

Lemma service_start_init registryURL profile confDir :
  hoare (holds (never is_driver_init))
    (edgex_device_service_start E registryURL profile confDir)
    (fun _ s => holds (never is_failed_init) s \/ start_init_failed s)
    (fun s => holds (never is_failed_init) s \/ start_init_failed s).
Proof.
  unfold edgex_device_service_start.
  repeat
    lazymatch goal with
    | |- hoare _ (bind (call _) _) _ _ => fail
    | |- hoare _ (bind _ _) _ _ =>
        apply hoare_before_init; [ solve [never_tac] | intros ? ]
    end.
  intros s Hs. unfold bind, call, emit.
  pose proof (startConfigured_init a3 a5 (if a4 then profile else None) s Hs)
    as H.
  destruct (startConfigured E a3 a5 _ s) as [[u|] s']; cbn [snd st_trace st_err].
  - left. simpl in *. rewrite !existsb_app, H. reflexivity.
  - destruct H as [H|[He (pre & Htr & Hpre)]].
    + left. simpl in *. rewrite !existsb_app, H. reflexivity.
    + right. split; [exact He|].
      exists pre, a3, a5. split; [|exact Hpre].
      rewrite Htr, <- !app_assoc. reflexivity.
Qed.

#[local] Open Scope nat_scope.

(** When the driver's [init] fails, the startup ends there with
    [EDGEX_DRIVER_UNSTART]: after the failed call come only the error
    log and the release of the registry handle and of the configuration
    table, and nothing that follows [init] in a complete startup has
    happened: no handler other than the callback handler is registered,
    no schedule or schedule event is exchanged with metadata, and the
    scheduler is not started. *)
Theorem failed_init_ends_startup registryURL profile confDir svc err :
  existsb is_failed_init
    (trace_of (edgex_device_service_start E registryURL profile confDir)
       svc err) = true ->
  err_of (edgex_device_service_start E registryURL profile confDir) svc err
  = EDGEX_DRIVER_UNSTART
  /\ (exists r t,
        after is_failed_init
          (trace_of (edgex_device_service_start E registryURL profile confDir)
             svc err)
        = [iot_log LogError "Protocol driver initialization failed";
           edgex_registry_free r; toml_free t])
  /\ (forall a,
        In a (trace_of
                (edgex_device_service_start E registryURL profile confDir)
                svc err) ->
        a <> userfns_init true /\ a <> iot_scheduler_start
        /\ is_schedule_reconciliation a = false)
  /\ (forall j u,
        nth_error registration_order (S j) = Some u ->
        existsb (registers u)
          (trace_of (edgex_device_service_start E registryURL profile confDir)
             svc err) = false).
Proof.
  pose proof (startup_in_sequence E registryURL profile confDir svc err)
    as Hseq.
  unfold trace_of, err_of, run in *.
  pose proof (service_start_init registryURL profile confDir
                {| st_svc := svc; st_err := err; st_trace := [] |} eq_refl)
    as H.
  intros Hex.
  assert (Hfin : start_init_failed
                   (snd (edgex_device_service_start E registryURL profile
                           confDir
                           {| st_svc := svc; st_err := err;
                              st_trace := [] |}))).
  { destruct (edgex_device_service_start E registryURL profile confDir _)
      as [[u|] s']; simpl in *;
      (destruct H as [H|H]; [congruence | exact H]). }
  clear H.
  destruct Hfin as [He (pre & r & t & Htr & Hpre)].
  rewrite Htr in *. split; [exact He|]. split.
  { exists r, t. apply after_first; [|reflexivity].
    eapply never_weaken; [apply failed_init_is_init | exact Hpre]. }
  assert (Hlow : forall a q, In a pre -> step_of a = Some q -> q <= 7).
  { intros a q Ha Hq.
    destruct (le_lt_dec q 7) as [Hle|Hgt]; [exact Hle | exfalso].
    assert (H8 : exists b, In b pre /\ step_of b = Some 8).
    { destruct (Nat.eq_dec q 8) as [->|Hne]; [eauto|].
      destruct Hseq as [_ Hcl].
      assert (Hin : In 8 (steps (pre ++ [userfns_init false;
                 iot_log LogError "Protocol driver initialization failed";
                 edgex_registry_free r; toml_free t]))).
      { apply (Hcl q 8); [|reflexivity | lia].
        eapply in_steps; [|exact Hq]. apply in_or_app. now left. }
      rewrite steps_app in Hin. apply in_app_iff in Hin.
      destruct Hin as [Hin|Hin]; [now apply steps_in | destruct Hin]. }
    destruct H8 as (b & Hb & Hsb). apply step_8 in Hsb. subst b.
    assert (Hc : existsb is_driver_init pre = true).
    { apply existsb_exists. exists (userfns_init true). now split. }
    congruence. }
  assert (Hall : forall a q,
             In a (pre ++ [userfns_init false;
                 iot_log LogError "Protocol driver initialization failed";
                 edgex_registry_free r; toml_free t]) ->
             step_of a = Some q -> q <= 7).
  { intros a q Ha Hq. apply in_app_iff in Ha. destruct Ha as [Ha|Ha].
    - eapply Hlow; eauto.
    - simpl in Ha.
      destruct Ha as [<-|[<-|[<-|[<-|[]]]]]; discriminate. }
  split.
  - intros a Ha. repeat split.
    + intros ->. specialize (Hall _ 8 Ha eq_refl). lia.
    + intros ->. specialize (Hall _ 15 Ha eq_refl). lia.
    + destruct a; try reflexivity;
        (eapply Hall in Ha; [|reflexivity]; lia).
  - intros j u Hj.
    destruct (existsb (registers u) _) eqn:Hreg; [exfalso | reflexivity].
    apply existsb_exists in Hreg. destruct Hreg as (a & Ha & Hra).
    pose proof (registers_step _ _ _ Hj Hra) as Hs.
    pose proof (nth_error_order_lt _ _ Hj) as Hlt.
    destruct (handler_steps_facts (S j) (S j)) as (_ & _ & _ & _ & H8);
      try lia.
    specialize (Hall _ _ Ha Hs). lia.
Qed.

End FailedInit.

Lemma failed_init_ends_startup_witness :
  err_of
    (edgex_device_service_start (Scenario.env Faults.init_fails)
       None None None) Scenario.fresh EDGEX_OK
  = EDGEX_DRIVER_UNSTART.
Proof.
  assert (H : existsb is_failed_init
                (trace_of
                   (edgex_device_service_start
                      (Scenario.env Faults.init_fails) None None None)
                   Scenario.fresh EDGEX_OK) = true)
    by (vm_compute; reflexivity).
  exact (proj1 (failed_init_ends_startup (Scenario.env Faults.init_fails)
                  None None None Scenario.fresh EDGEX_OK H)).
Defined.

(** ** The registry handle *)

Lemma sound_release : sound release.
Proof.
  repeat split; simpl.
  - intros a e s Ha Hs. rewrite existsb_app, Hs. simpl.
    now rewrite (proj1 (negb_true_iff _) Ha).
  - intros e s Hs. exact Hs.
  - intros f s _ Hs. exact Hs.
Qed.

Section Release.

Variable E : Env.
#[local] Open Scope list_scope.

Lemma startConfigured_keeps_registry registry toml profile :
  preserves (never is_registry_free)
    (startConfigured E registry toml profile).
Proof. unfold_startup. never_tac. Qed.

(** [edgex_registry_free (registry); return;] *)
Lemma preserves_free_and_return r :
  preserves release (emit (edgex_registry_free r) ;; @return_ unit).
Proof.
  intros s Hs. simpl. left. exists (st_trace s), r, [].
  split; [reflexivity|]. split; [exact Hs | now left].
Qed.

Lemma preserves_invalid_arg :
  preserves release (set_err EDGEX_INVALID_ARG ;; @return_ (option edgex_registry)).
Proof. intros s Hs. simpl. right. split; [exact Hs | reflexivity]. Qed.

Lemma hoare_release_step {A B} (m : M A) (k : A -> M B) Q :
  preserves release m ->
  (forall a, hoare (holds release) (k a) Q released) ->
  hoare (holds release) (bind m k) Q released.
Proof. intros Hm Hk. eapply hoare_bind; [exact Hm | exact Hk]. Qed.

Lemma service_start_releases registryURL profile confDir :
  hoare (holds release)
    (edgex_device_service_start E registryURL profile confDir)
    (fun _ => released) released.
Proof.
  unfold edgex_device_service_start.
  repeat
    lazymatch goal with
    | |- hoare _ (bind (call _) _) _ _ => fail
    | |- hoare _ (bind _ _) _ _ =>
        apply hoare_release_step;
        [ solve
            [ preserves_with sound_release ltac:(fail)
                ltac:(idtac;
                      lazymatch goal with
                      | |- preserves _
                             (bind (emit (edgex_registry_free _))
                                (fun _ => return_)) =>
                          apply preserves_free_and_return
                      | |- preserves _
                             (bind (set_err EDGEX_INVALID_ARG)
                                (fun _ => return_)) =>
                          apply preserves_invalid_arg
                      end) ]
        | intros ? ]
    end.
  intros s Hs. unfold bind, call, emit. cbn [snd st_trace st_err st_svc].
  pose proof (startConfigured_keeps_registry a3 a5
                (if a4 then profile else None) s Hs) as H.
  left.
  exists (st_trace (snd (startConfigured E a3 a5
                           (if a4 then profile else None) s))),
    a3, [toml_free a5].
  split; [now rewrite <- app_assoc|]. split; [|right; eauto].
  destruct (startConfigured E a3 a5 _ s) as [[u|] s']; exact H.
Qed.

(** On every path of the startup the registry handle is freed exactly
    once, as the last call but the release of the configuration table;
    only a startup that found no registry for its URL frees nothing. *)
Theorem registry_handle_freed_once registryURL profile confDir svc err :
  (exists pre r post,
      trace_of (edgex_device_service_start E registryURL profile confDir)
        svc err
      = pre ++ edgex_registry_free r :: post
      /\ existsb is_registry_free pre = false
      /\ (post = [] \/ exists t, post = [toml_free t]))
  \/ (existsb is_registry_free
        (trace_of (edgex_device_service_start E registryURL profile confDir)
           svc err) = false
      /\ err_of (edgex_device_service_start E registryURL profile confDir)
           svc err = EDGEX_INVALID_ARG).
Proof.
  unfold trace_of, err_of, run.
  pose proof (service_start_releases registryURL profile confDir
                {| st_svc := svc; st_err := err; st_trace := [] |} eq_refl)
    as H.
  destruct (edgex_device_service_start E registryURL profile confDir _)
    as [[u|] s']; exact H.
Qed.

End Release.

(** ** Scheduled jobs *)

Lemma invoker_urls_app l1 l2 :
  invoker_urls (l1 ++ l2) = (invoker_urls l1 ++ invoker_urls l2)%list.
Proof. apply flat_map_app. Qed.

Lemma scheduled_app l1 l2 :
  scheduled (l1 ++ l2) = (scheduled l1 ++ scheduled l2)%list.
Proof. apply flat_map_app. Qed.

Lemma freed_jobs_app l1 l2 :
  freed_jobs (l1 ++ l2) = (freed_jobs l1 ++ freed_jobs l2)%list.
Proof. apply flat_map_app. Qed.

Lemma freed_jobs_map l : freed_jobs (map free_job l) = l.
Proof. induction l as [|x l IH]; simpl; [reflexivity | now rewrite IH]. Qed.

Lemma freed_jobs_none {X} (f : X -> action) l :
  (forall x, freed_jobs [f x] = []) -> freed_jobs (map f l) = [].
Proof.
  intros Hf. induction l as [|x l IH]; [reflexivity|].
  change (map f (x :: l)) with ([f x] ++ map f l)%list.
  now rewrite freed_jobs_app, Hf, IH.
Qed.

Lemma sound_jobs base : sound (jobs base).
Proof.
  repeat split; simpl.
  - intros a e s Ha Hs. rewrite invoker_urls_app, Hs.
    destruct a; try (simpl; now rewrite app_nil_r).
    destruct fn; [simpl; now rewrite app_nil_r | discriminate].
  - intros e s Hs. exact Hs.
  - intros f s Hf Hs. now rewrite Hf.
Qed.

Section ScheduledJobs.

Variable E : Env.
#[local] Open Scope list_scope.

(** The job is put on the list of the service and handed to the
    scheduler. *)
Lemma preserves_new_job base url ns :
  preserves (jobs base)
    (modify_svc (fun svc => set_sjobs (url :: sjobs svc) svc) ;;
     emit (iot_schedule_create (Fn_dev_invoker url) ns)).
Proof.
  intros s Hs. simpl in *. rewrite invoker_urls_app, Hs. simpl.
  rewrite rev_app_distr. reflexivity.
Qed.

Ltac jobs_tac base :=
  preserves_with (sound_jobs base) ltac:(intros ? ?; assumption)
    ltac:(idtac;
          lazymatch goal with
          | |- preserves _
                 (bind (modify_svc (fun svc => set_sjobs _ svc)) _) =>
              apply preserves_new_job
          end).

Lemma startConfigured_jobs base registry toml profile :
  preserves (jobs base) (startConfigured E registry toml profile).
Proof. unfold_startup. jobs_tac base. Qed.

Lemma service_start_jobs base registryURL profile confDir :
  preserves (jobs base)
    (edgex_device_service_start E registryURL profile confDir).
Proof.
  unfold edgex_device_service_start.
  preserves_with (sound_jobs base) ltac:(intros ? ?; assumption)
    ltac:(idtac;
          lazymatch goal with
          | |- preserves _ (call _) =>
              apply preserves_call; [intros ? ?; assumption|];
              apply startConfigured_jobs
          end).
Qed.

(** The job list after the startup. *)
Lemma service_start_job_list registryURL profile confDir svc err :
  sjobs (st_svc (snd (run (edgex_device_service_start E registryURL profile
                             confDir) svc err)))
  = rev (invoker_urls
           (st_trace (snd (run (edgex_device_service_start E registryURL
                                  profile confDir) svc err))))
    ++ sjobs svc.
Proof.
  unfold run.
  pose proof (service_start_jobs (sjobs svc) registryURL profile confDir
                {| st_svc := svc; st_err := err; st_trace := [] |} eq_refl)
    as H.
  destruct (edgex_device_service_start E registryURL profile confDir _)
    as [[u|] s']; exact H.
Qed.

(** The jobs that a stop frees. *)
Lemma freed_jobs_of_stop force svc err :
  freed_jobs (trace_of (edgex_device_service_stop force) svc err)
  = sjobs svc.
Proof.
  unfold trace_of, run. rewrite stop_trace. cbn [snd st_trace st_svc app].
  unfold teardown_order.
  rewrite !freed_jobs_app, freed_jobs_map.
  rewrite !freed_jobs_none by reflexivity.
  destruct (is_some (scheduler _)), (is_some (daemon _)); simpl;
    now rewrite app_nil_r.
Qed.

(** Stopping a service that went through [edgex_device_service_start]
    frees the jobs that it had before, and one job for each device
    request that the startup handed to the scheduler, the last one
    first; the job list is empty afterwards. *)
Theorem stop_frees_scheduled_jobs registryURL profile confDir force svc err :
  let s1 :=
    snd (run (edgex_device_service_start E registryURL profile confDir)
           svc err) in
  freed_jobs
    (trace_of (edgex_device_service_stop force) (st_svc s1) (st_err s1))
  = rev (invoker_urls (st_trace s1)) ++ sjobs svc
  /\ sjobs (st_svc (snd (run (edgex_device_service_stop force)
                           (st_svc s1) (st_err s1)))) = [].
Proof.
  cbv zeta. rewrite freed_jobs_of_stop, service_start_job_list.
  split; [reflexivity|]. unfold run. now rewrite stop_trace.
Qed.

Lemma schedule_event_schedules ev l :
  hoare (fun s => scheduled (st_trace s) = l) (schedule_event E ev)
    (fun _ s => scheduled (st_trace s) = l ++ [job_of ev]) (fun _ => True).
Proof.
  intros s Hs. unfold schedule_event, job_of, strcmp.
  unfold bind at 1. unfold extcall at 1.
  unfold bind at 1. unfold get_err at 1. cbn [st_err].
  unfold bind at 1.
  destruct (failed (snd (get_schedule E (se_schedule ev) s))); [exact I|].
  cbn [when_ ret]. unfold bind at 1.
  destruct (fst (parse8601 E _)); [exact I|]. cbn [if_null ret].
  rewrite negb_involutive.
  destruct (String.eqb (addr_path (se_addressable ev)) EDGEX_DEV_API_DISCOVERY).
  - simpl. rewrite !scheduled_app, Hs. simpl. now rewrite !app_nil_r.
  - destruct (negb (strncmp _ _)); [|exact I].
    simpl. rewrite !scheduled_app, Hs. simpl. now rewrite !app_nil_r.
Qed.

Lemma for_each_schedules events :
  forall l,
    hoare (fun s => scheduled (st_trace s) = l)
      (for_each events (schedule_event E))
      (fun _ s => scheduled (st_trace s) = l ++ map job_of events)
      (fun _ => True).
Proof.
  induction events as [|ev events IH]; intros l; simpl.
  - intros s Hs. simpl. now rewrite app_nil_r.
  - eapply hoare_bind; [apply schedule_event_schedules|].
    intros ?.
    eapply hoare_conseq; [apply (IH (l ++ [job_of ev])) | auto | | auto].
    intros ? s Hs. cbv beta in Hs. now rewrite Hs, <- app_assoc.
Qed.

Lemma retrieve_scheduleevents_run s :
  retrieve_scheduleevents E s
  = let r := get_scheduleevents E (name (st_svc s)) (with_err EDGEX_OK s) in
    let s1 :=
      after_call (edgex_metadata_client_get_scheduleevents (name (st_svc s)))
        (snd r) (with_err EDGEX_OK s) in
    if failed (snd r)
    then (Returned,
          after_call
            (iot_log LogError "Unable to obtain ScheduleEvents from metadata")
            (snd r) s1)
    else for_each (fst r) (schedule_event E) s1.
Proof.
  unfold retrieve_scheduleevents, bind, set_err, get_svc, extcall, get_err.
  cbn [st_svc st_err st_trace]. cbv zeta. unfold with_err, after_call.
  cbn [st_svc st_err st_trace].
  destruct (failed (snd (get_scheduleevents E _ _))); reflexivity.
Qed.

Lemma schedule_event_hands ev s :
  fst (schedule_event E ev s) = Next tt ->
  exists ns,
    st_trace (snd (schedule_event E ev s))
    = st_trace s
      ++ [edgex_metadata_client_get_schedule (se_schedule ev);
          iot_schedule_create (job_of ev) ns; iot_schedule_add].
Proof.
  unfold schedule_event, job_of, bind, extcall, get_err, when_, if_null, ret,
    log, emit, set_err, return_, modify_svc, strcmp, strncmp.
  cbn [fst snd st_svc st_err st_trace].
  destruct (failed (snd (get_schedule E (se_schedule ev) s)));
    cbn [fst snd st_svc st_err st_trace]; [discriminate|].
  destruct (fst (parse8601 E _));
    cbn [fst snd st_svc st_err st_trace]; [discriminate|].
  rewrite negb_involutive.
  destruct (String.eqb (addr_path (se_addressable ev)) EDGEX_DEV_API_DISCOVERY);
    cbn [fst snd st_svc st_err st_trace].
  - intros _. eexists. rewrite <- !app_assoc. reflexivity.
  - destruct (negb (negb (String.prefix _ _)));
      cbn [fst snd st_svc st_err st_trace]; [|discriminate].
    intros _. eexists. rewrite <- !app_assoc. reflexivity.
Qed.

Lemma for_each_hands events :
  forall s,
    fst (for_each events (schedule_event E) s) = Next tt ->
    exists new,
      st_trace (snd (for_each events (schedule_event E) s))
      = st_trace s ++ new
      /\ handed (filter is_scheduling new) = Some (map job_of events).
Proof.
  induction events as [|ev events IH]; intros s; simpl.
  - intros _. exists []. split; [now rewrite app_nil_r | reflexivity].
  - unfold bind. intros Hnext.
    pose proof (schedule_event_hands ev s) as Hev.
    destruct (schedule_event E ev s) as [[[]|] s1]; [|discriminate].
    destruct (Hev eq_refl) as (ns & Htr). cbn [snd] in Htr.
    destruct (IH s1 Hnext) as (new & Hnew & Hh).
    exists ([edgex_metadata_client_get_schedule (se_schedule ev);
             iot_schedule_create (job_of ev) ns; iot_schedule_add] ++ new).
    split.
    + rewrite Hnew, Htr, <- app_assoc. reflexivity.
    + cbn [app filter is_scheduling handed]. rewrite Hh. reflexivity.
Qed.

(** When the retrieval of the schedule events runs to its end, it has
    made one schedule for each event that metadata returned, in that
    order, and has handed each of them to the scheduler with
    [iot_schedule_add] before making the next: the discovery job for an
    event on the discovery path, a device job for any other. *)
Theorem retrieve_schedules_each_event s :
  fst (retrieve_scheduleevents E s) = Next tt ->
  let events :=
    fst (get_scheduleevents E (name (st_svc s)) (with_err EDGEX_OK s)) in
  (exists new,
     st_trace (snd (retrieve_scheduleevents E s)) = st_trace s ++ new
     /\ handed (filter is_scheduling new) = Some (map job_of events))
  /\ scheduled (st_trace (snd (retrieve_scheduleevents E s)))
     = scheduled (st_trace s) ++ map job_of events.
Proof.
  rewrite retrieve_scheduleevents_run. cbv zeta.
  destruct (failed (snd (get_scheduleevents E (name (st_svc s))
                           (with_err EDGEX_OK s)))); [discriminate|].
  intros Hnext. split.
  - destruct (for_each_hands _ _ Hnext) as (new & Hnew & Hh).
    exists (edgex_metadata_client_get_scheduleevents (name (st_svc s))
            :: new).
    split; [|exact Hh].
    rewrite Hnew. cbn [st_trace with_err after_call].
    rewrite <- app_assoc. reflexivity.
  - match goal with
    | |- context [for_each ?evs _ ?s1] =>
        pose proof (for_each_schedules evs (scheduled (st_trace s1)) s1
                      eq_refl) as H;
        destruct (for_each evs (schedule_event E) s1) as [[u|] s'];
        [|discriminate]
    end.
    cbn [snd]. rewrite H. f_equal.
    cbn [st_trace with_err after_call]. rewrite scheduled_app. simpl.
    now rewrite app_nil_r.
Qed.

End ScheduledJobs.

Lemma retrieve_schedules_each_event_witness :
  handed
    (filter is_scheduling
       (st_trace
          (snd (retrieve_scheduleevents (Scenario.env Scenario.normal)
                  (Scenario.configured_service Scenario.good_events)))))
  = Some [Fn_do_discovery; Fn_dev_invoker "all/temp"].
Proof.
  assert (H : fst (retrieve_scheduleevents (Scenario.env Scenario.normal)
                     (Scenario.configured_service Scenario.good_events))
              = Next tt) by (vm_compute; reflexivity).
  destruct (proj1 (retrieve_schedules_each_event
                     (Scenario.env Scenario.normal)
                     (Scenario.configured_service Scenario.good_events) H))
    as (new & Hnew & Hh).
  simpl app in Hnew. rewrite Hnew. exact Hh.
Defined.

(** ** Registration of the device service *)

Lemma fold_left_cons_rev {X} (l acc : list X) :
  fold_left (fun acc x => x :: acc) l acc = (rev l ++ acc)%list.
Proof.
  revert acc. induction l as [|x l IH]; intros acc; simpl; [reflexivity|].
  now rewrite IH, <- app_assoc.
Qed.

Section Registration.

Variable E : Env.
#[local] Open Scope list_scope.

(** The device service is created in metadata only when metadata does
    not know it: under the name of the service, enabled and unlocked,
    with the labels of the configuration in reverse order, and with an
    addressable that is either the one metadata already has under the
    name of the service, or a new one for the callback path, created at
    the same time as the device service. *)
Theorem deviceservice_registration s post d :
  st_trace (snd (register_deviceservice E s)) = st_trace s ++ post ->
  In (edgex_metadata_client_create_deviceservice d) post ->
  let svc := st_svc s in
  fst (get_deviceservice E (name svc) s) = None
  /\ ds_id d = None
  /\ ds_name d = name svc
  /\ ds_operatingState d = ENABLED
  /\ ds_adminState d = UNLOCKED
  /\ ds_labels d = rev (labels (service (config svc)))
  /\ (In (edgex_metadata_client_create_addressable
            (service_addressable svc (ds_created d))) post
      /\ addr_name (ds_addressable d) = name svc
      /\ addr_path (ds_addressable d) = EDGEX_DEV_API_CALLBACK
      /\ addr_origin (ds_addressable d) = ds_created d
      \/ (forall a, ~ In (edgex_metadata_client_create_addressable a) post)
         /\ exists s1,
              fst (get_addressable E (name svc) s1)
              = Some (ds_addressable d)).
Proof.
  cbv zeta. unfold register_deviceservice.
  unfold bind, get_svc, extcall, extcall_, get_err, when_, if_null, log, emit,
    return_, ret.
  cbn [st_svc st_err st_trace fst snd].
  destruct (get_deviceservice E (name (st_svc s)) s) as [[ds|] e1];
    cbn [fst snd].
  all: repeat
         (cbv beta iota; cbn [fst snd st_svc st_err st_trace];
          match goal with
          | |- context [failed ?e] => is_var e; destruct (failed e)
          | |- context [snd (get_addressable E ?n ?s1)] =>
              destruct (get_addressable E n s1) as [[?a|] ?e] eqn:?
          | |- context [snd (create_addressable E ?a ?s1)] =>
              destruct (create_addressable E a s1) as [? ?e]
          | |- context [snd (create_deviceservice E ?d ?s1)] =>
              destruct (create_deviceservice E d s1) as [? ?e]
          end).
  all: cbv beta iota; cbn [fst snd st_svc st_err st_trace];
    rewrite <- ?app_assoc; cbn [app];
    intros Htr; apply app_inv_head in Htr; subst post; simpl;
    intros Hin;
    repeat match type of Hin with
           | _ \/ _ => destruct Hin as [Hin|Hin]
           | False => destruct Hin
           end;
    try discriminate.
  all: injection Hin as <-;
    cbn [ds_id ds_name ds_addressable ds_operatingState ds_adminState
         ds_created ds_labels addr_name addr_path addr_origin];
    rewrite fold_left_cons_rev, app_nil_r;
    do 6 (split; [reflexivity|]).
  all: first
         [ left; split; [do 3 right; left; reflexivity|];
           repeat split; reflexivity
         | right; split;
           [ intros a0 Ha; simpl in Ha;
             repeat match type of Ha with
                    | _ \/ _ => destruct Ha as [Ha|Ha]
                    | False => destruct Ha
                    end; discriminate
           | eexists;
             match goal with
             | H : get_addressable E _ _ = _ |- _ => rewrite H
             end; reflexivity ] ].
Qed.

End Registration.

Lemma deviceservice_registration_witness :
  ds_labels demo_deviceservice = rev ["demo"]
  /\ ds_name demo_deviceservice = "device-demo".
Proof.
  assert (H1 : st_trace
                 (snd (register_deviceservice (Scenario.env Scenario.normal)
                         (Scenario.configured_service Scenario.good_events)))
               = (st_trace (Scenario.configured_service Scenario.good_events)
                  ++ st_trace
                       (snd (register_deviceservice
                               (Scenario.env Scenario.normal)
                               (Scenario.configured_service
                                  Scenario.good_events))))%list)
    by reflexivity.
  assert (H2 : In (edgex_metadata_client_create_deviceservice
                     demo_deviceservice)
                 (st_trace
                    (snd (register_deviceservice
                            (Scenario.env Scenario.normal)
                            (Scenario.configured_service
                               Scenario.good_events)))))
    by (vm_compute; do 4 right; left; reflexivity).
  pose proof (deviceservice_registration (Scenario.env Scenario.normal)
                (Scenario.configured_service Scenario.good_events)
                (st_trace
                   (snd (register_deviceservice
                           (Scenario.env Scenario.normal)
                           (Scenario.configured_service
                              Scenario.good_events))))
                demo_deviceservice H1 H2) as H.
  split; [exact (proj1 (proj2 (proj2 (proj2 (proj2 (proj2 H))))))
         | exact (proj1 (proj2 (proj2 H)))].
Defined.

(** ** The end of the startup sequence *)

Section LateSteps.

Variable E : Env.
#[local] Open Scope list_scope.
#[local] Open Scope nat_scope.

Lemma step_13 b : step_of b = Some 13 ->
  exists n, b = edgex_metadata_client_get_scheduleevents n.
Proof.
  destruct b; simpl; try discriminate; eauto.
  - repeat match goal with
           | |- context [if ?c then _ else _] => destruct c
           end; discriminate.
  - destruct ok; discriminate.
Qed.

Lemma step_of_scheduling a : is_scheduling a = true -> step_of a = Some 14.
Proof. destruct a; try discriminate; reflexivity. Qed.

Lemma step_of_schedule_reconciliation a :
  is_schedule_reconciliation a = true ->
  exists r, step_of a = Some r /\ 11 <= r <= 14.
Proof.
  destruct a; try discriminate; intros _; eexists; (split; [reflexivity|lia]).
Qed.

(** The scheduler is started once, after every schedule has been
    exchanged with metadata and handed to the scheduler, and before the
    metrics, config and ping handlers are registered. *)
Theorem scheduler_started_after_schedules
  registryURL profile confDir svc err pre post :
  trace_of (edgex_device_service_start E registryURL profile confDir) svc err
  = pre ++ iot_scheduler_start :: post ->
  In (userfns_init true) pre
  /\ (exists n, In (edgex_metadata_client_get_scheduleevents n) pre)
  /\ (forall a, In a post ->
        is_schedule_reconciliation a = false
        /\ is_scheduling a = false
        /\ is_scheduler_start a = false)
  /\ (forall j u, nth_error registration_order (3 + j) = Some u ->
        existsb (registers u) pre = false).
Proof.
  intros Htr.
  destruct (in_sequence_split _ _ _ _ 15
              (startup_in_sequence E registryURL profile confDir svc err)
              Htr eq_refl) as (Hpre & Hpost & Hman).
  split.
  { destruct (Hman 8) as [b [Hb Hs]]; [reflexivity | lia |].
    apply step_8 in Hs. now subst. }
  split.
  { destruct (Hman 13) as [b [Hb Hs]]; [reflexivity | lia |].
    apply step_13 in Hs. destruct Hs as [n ->]. eauto. }
  split.
  - intros a Ha. repeat split.
    + destruct (is_schedule_reconciliation a) eqn:Hr; [exfalso | reflexivity].
      destruct (step_of_schedule_reconciliation a Hr) as (r & Hs & Hle).
      specialize (Hpost _ _ Ha Hs). apply follows_le in Hpost. lia.
    + destruct (is_scheduling a) eqn:Hr; [exfalso | reflexivity].
      specialize (Hpost _ _ Ha (step_of_scheduling a Hr)).
      apply follows_le in Hpost. lia.
    + destruct a; try reflexivity.
      specialize (Hpost _ _ Ha eq_refl).
      apply follows_lt in Hpost; [lia | reflexivity].
  - intros j u Hj.
    destruct (existsb (registers u) pre) eqn:Hreg; [exfalso | reflexivity].
    apply existsb_exists in Hreg. destruct Hreg as (a & Ha & Hra).
    pose proof (registers_step _ _ _ Hj Hra) as Hs.
    pose proof (nth_error_order_lt _ _ Hj) as Hlt.
    specialize (Hpre _ _ Ha Hs). apply follows_le in Hpre.
    destruct (handler_steps_facts 3 (3 + j)) as (Hle & _); try lia.
    change (nth 3 [6; 9; 10; 16; 17; 18] 0) with 16 in Hle. lia.
Qed.

(** The registration in the registry is the last step of the startup:
    when it is made, the driver is initialised, the six handlers are
    registered and the scheduler is started, and none of the numbered
    calls of the startup follows it. *)
Theorem registry_registration_comes_last
  registryURL profile confDir svc err pre n h p i post :
  trace_of (edgex_device_service_start E registryURL profile confDir) svc err
  = pre ++ edgex_registry_register_service n h p i :: post ->
  In (userfns_init true) pre
  /\ (forall u, In u registration_order ->
        existsb (registers u) pre = true)
  /\ In iot_scheduler_start pre
  /\ (forall a, In a post -> step_of a = None).
Proof.
  intros Htr.
  destruct (in_sequence_split _ _ _ _ 19
              (startup_in_sequence E registryURL profile confDir svc err)
              Htr eq_refl) as (Hpre & Hpost & Hman).
  split.
  { destruct (Hman 8) as [b [Hb Hs]]; [reflexivity | lia |].
    apply step_8 in Hs. now subst. }
  split.
  { intros u Hu.
    destruct (In_nth_error registration_order u Hu) as [j Hj].
    pose proof (nth_error_order_lt _ _ Hj) as Hlt.
    destruct (handler_steps_facts j j) as (_ & _ & Hm & _); try lia.
    destruct (handler_steps_facts j 5) as (Hle & _); try lia.
    change (nth 5 [6; 9; 10; 16; 17; 18] 0) with 18 in Hle.
    destruct (Hman _ Hm) as (b & Hb & Hs); [lia|].
    apply existsb_exists. exists b. split; [exact Hb|].
    eapply step_registers; eauto. }
  split.
  { destruct (Hman 15) as [b [Hb Hs]]; [reflexivity | lia |].
    apply step_15 in Hs. now subst. }
  intros a Ha. destruct (step_of a) as [r|] eqn:Hs; [exfalso | reflexivity].
  pose proof (step_of_bound _ _ Hs) as Hb.
  specialize (Hpost _ _ Ha Hs). apply follows_lt in Hpost; [lia | reflexivity].
Qed.

End LateSteps.

Lemma scheduler_started_after_schedules_witness :
  In (userfns_init true) (before is_scheduler_start Scenario.startup).
Proof.
  assert (H : trace_of
                (edgex_device_service_start (Scenario.env Scenario.normal)
                   None None None) Scenario.fresh EDGEX_OK
              = (before is_scheduler_start Scenario.startup
                 ++ iot_scheduler_start
                    :: after is_scheduler_start Scenario.startup)%list)
    by (vm_compute; reflexivity).
  exact (proj1 (scheduler_started_after_schedules
                  (Scenario.env Scenario.normal) None None None
                  Scenario.fresh EDGEX_OK
                  (before is_scheduler_start Scenario.startup)
                  (after is_scheduler_start Scenario.startup) H)).
Defined.

Lemma registry_registration_comes_last_witness :
  In iot_scheduler_start (before is_registration registry_startup).
Proof.
  assert (H : trace_of
                (edgex_device_service_start (Scenario.env Scenario.normal)
                   (Some Scenario.registry_url) (Some "docker") None)
                Scenario.fresh EDGEX_OK
              = (before is_registration registry_startup
                 ++ edgex_registry_register_service "device-demo" "localhost"
                      49990 "10s"
                    :: after is_registration registry_startup)%list)
    by (vm_compute; reflexivity).
  exact (proj1 (proj2 (proj2
           (registry_registration_comes_last
              (Scenario.env Scenario.normal) (Some Scenario.registry_url)
              (Some "docker") None Scenario.fresh EDGEX_OK
              (before is_registration registry_startup)
              "device-demo" "localhost" 49990 "10s"
              (after is_registration registry_startup) H)))).
Defined.

(** ** Waiting for core-data and core-metadata *)

Section CoreServicesLimit.

Variable E : Env.
#[local] Open Scope list_scope.

Lemma in_true_pongs k : In true (repeat false k ++ [true]).
Proof. apply in_or_app. right. now left. Qed.

(** With a retry count of at least one, core-data and then
    core-metadata are pinged at most that many times each, [timeout]
    milliseconds apart.  The startup goes on, without an error, when
    both have answered; it ends with [EDGEX_REMOTE_SERVER_DOWN] when
    core-data has answered none of the pings, in which case
    core-metadata is not pinged at all, or when core-metadata has
    answered none. *)
Theorem core_services_pinged_within_limit s :
  1 <= connectretries (service (config (st_svc s))) < 2 ^ 31 ->
  let n := Z.to_nat (connectretries (service (config (st_svc s)))) in
  let delay := connect_delay (timeout (service (config (st_svc s)))) in
  exists dpongs mpongs tail,
    st_trace (snd (wait_for_core_services E s))
    = st_trace s ++ ping_trace edgex_data_client_ping delay dpongs
        ++ ping_trace edgex_metadata_client_ping delay mpongs ++ tail
    /\ (List.length dpongs <= n)%nat
    /\ (List.length mpongs <= n)%nat
    /\ ((In true dpongs /\ In true mpongs /\ tail = []
         /\ fst (wait_for_core_services E s) = Next tt
         /\ st_err (snd (wait_for_core_services E s)) = EDGEX_OK)
        \/ (dpongs = repeat false n /\ mpongs = []
            /\ tail = [iot_log LogError "core-data service not running"]
            /\ fst (wait_for_core_services E s) = Returned
            /\ st_err (snd (wait_for_core_services E s))
               = EDGEX_REMOTE_SERVER_DOWN)
        \/ (In true dpongs /\ mpongs = repeat false n
            /\ tail = [iot_log LogError "core-metadata service not running"]
            /\ fst (wait_for_core_services E s) = Returned
            /\ st_err (snd (wait_for_core_services E s))
               = EDGEX_REMOTE_SERVER_DOWN)).
Proof.
  intros Hc. cbv zeta.
  remember (wait_for_core_services E s) as res eqn:Hres.
  unfold wait_for_core_services in Hres. unfold bind at 1 in Hres.
  unfold get_svc at 1 in Hres. cbv zeta in Hres.
  rewrite (int_wrap_small (connectretries _)) in Hres by lia.
  set (n := connectretries (service (config (st_svc s)))) in *.
  set (delay := connect_delay (timeout (service (config (st_svc s))))) in *.
  destruct (retry_within_limit edgex_data_client_ping (data_client_ping E)
              delay n s Hc) as (dpongs & Hd & Hdlen & Hdcase).
  unfold bind at 1 in Hres.
  destruct (retry (extcall edgex_data_client_ping (data_client_ping E))
              delay n s) as [o1 s1].
  cbn [fst snd] in *.
  destruct Hdcase as [[-> ->] | (k & -> & left & Hleft & ->)].
  - exists (repeat false (Z.to_nat n)), [],
      [iot_log LogError "core-data service not running"].
    subst res. simpl. rewrite Hd, <- ?app_assoc. split; [reflexivity|].
    split; [exact Hdlen|]. split; [lia|]. right. left.
    repeat split; reflexivity.
  - apply Z.eqb_neq in Hleft. rewrite Hleft in Hres. cbn [when_] in Hres.
    unfold bind at 1 in Hres. cbn [ret] in Hres.
    destruct (retry_within_limit edgex_metadata_client_ping
                (metadata_client_ping E) delay n s1 Hc)
      as (mpongs & Hm & Hmlen & Hmcase).
    unfold bind at 1 in Hres.
    destruct (retry (extcall edgex_metadata_client_ping
                       (metadata_client_ping E)) delay n s1) as [o2 s2].
    cbn [fst snd] in *.
    destruct Hmcase as [[-> ->] | (k' & -> & left' & Hleft' & ->)].
    + exists (repeat false k ++ [true]), (repeat false (Z.to_nat n)),
        [iot_log LogError "core-metadata service not running"].
      subst res. simpl. rewrite Hm, Hd, <- !app_assoc.
      split; [reflexivity|].
      split; [exact Hdlen|]. split; [exact Hmlen|]. right. right.
      split; [apply in_true_pongs|]. repeat split; reflexivity.
    + apply Z.eqb_neq in Hleft'. rewrite Hleft' in Hres.
      cbn [when_] in Hres.
      exists (repeat false k ++ [true]), (repeat false k' ++ [true]), [].
      subst res. simpl. rewrite Hm, Hd, <- !app_assoc, app_nil_r.
      split; [reflexivity|].
      split; [exact Hdlen|]. split; [exact Hmlen|]. left.
      split; [apply in_true_pongs|]. split; [apply in_true_pongs|].
      repeat split; reflexivity.
Qed.

End CoreServicesLimit.

Lemma core_services_pinged_within_limit_witness :
  exists dpongs mpongs tail,
    st_trace
      (snd (wait_for_core_services (Scenario.env Scenario.slow_data)
              (Scenario.configured_service Scenario.good_events)))
    = (ping_trace edgex_data_client_ping (connect_delay 5000) dpongs
       ++ ping_trace edgex_metadata_client_ping (connect_delay 5000) mpongs
       ++ tail)%list
    /\ (List.length dpongs <= 3)%nat.
Proof.
  assert (H : 1 <= connectretries
                     (service (config (st_svc (Scenario.configured_service
                                                 Scenario.good_events))))
              < 2 ^ 31) by (vm_compute; split; [discriminate | reflexivity]).
  destruct (core_services_pinged_within_limit
              (Scenario.env Scenario.slow_data)
              (Scenario.configured_service Scenario.good_events) H)
    as (dpongs & mpongs & tail & Htr & Hd & _).
  exists dpongs, mpongs, tail. split; [exact Htr | exact Hd].
Defined.

(** ** The configuration read from file is uploaded *)

Lemma sound_after_upload n p : sound (after_upload n p).
Proof.
  repeat split; simpl.
  - intros a e s _ [c Hc]. exists c. simpl. apply in_or_app. now left.
  - intros e s Hs. exact Hs.
  - intros f s _ Hs. exact Hs.
Qed.

Lemma sound_seen a : sound (seen a).
Proof.
  repeat split; simpl.
  - intros b e s _ Hs. apply in_or_app. now left.
  - intros e s Hs. exact Hs.
  - intros f s _ Hs. exact Hs.
Qed.

Lemma retry_first_pong ping o delay retries s :
  fst (o s) = true ->
  retry (extcall ping o) delay retries s
  = (Next retries, after_call (ping true) (snd (o s)) s).
Proof.
  intros Hp. unfold retry. rewrite retry_loop_unroll. cbv zeta.
  now rewrite Hp.
Qed.

Ltac in_trace :=
  repeat first [ apply in_or_app; right; left; reflexivity
               | apply in_or_app; left ].

Section Upload.

Variable E : Env.
#[local] Open Scope list_scope.

Lemma configure_and_upload_uploads n p :
  (forall s, failed (snd (validateConfig E s)) = false) ->
  hoare (fun s => name (st_svc s) = n) (configure_and_upload E (Some p))
    (fun _ => uploaded n p) (uploaded n p).
Proof.
  intros Hval s Hs. unfold configure_and_upload.
  unfold bind, extcall, get_err, get_svc, when_, if_null, log, emit,
    modify_svc, ret, return_.
  cbn [st_svc st_err st_trace fst snd]. rewrite Hval.
  cbv beta iota. cbn [st_svc st_err st_trace fst snd].
  destruct (file (logging (config (st_svc s))));
    cbv beta iota; cbn [st_svc st_err st_trace fst snd];
    destruct (remoteurl (logging (config (st_svc s))));
    cbv beta iota;
    cbn [st_svc st_err st_trace fst snd add_logger set_logger name];
    match goal with
    | |- context [failed ?e] => destruct (failed e)
    end;
    cbv beta iota;
    cbn [st_svc st_err st_trace fst snd add_logger set_logger name];
    rewrite Hs; eexists; in_trace.
Qed.

Lemma startConfigured_uploads n p registry toml :
  (forall s, failed (snd (validateConfig E s)) = false) ->
  hoare (fun s => name (st_svc s) = n)
    (startConfigured E registry toml (Some p))
    (fun _ => uploaded n p) (uploaded n p).
Proof.
  intros Hval. unfold startConfigured.
  eapply hoare_bind; [apply configure_and_upload_uploads, Hval|].
  intros ?.
  lazymatch goal with
  | |- hoare _ ?m _ _ => change (preserves (after_upload n p) m)
  end.
  unfold wait_for_core_services, register_deviceservice, upload_schedule,
    upload_scheduleevent, retrieve_scheduleevents, schedule_event.
  preserves_tac (sound_after_upload n p) ltac:(intros ? ?; assumption).
Qed.

Lemma startConfigured_seen a registry toml profile :
  preserves (seen a) (startConfigured E registry toml profile).
Proof.
  unfold startConfigured, configure_and_upload, wait_for_core_services,
    register_deviceservice, upload_schedule, upload_scheduleevent,
    retrieve_scheduleevents, schedule_event.
  preserves_tac (sound_seen a) ltac:(intros ? ?; assumption).
Qed.

(** The counterpart of the lost upload: started with a registry that is
    up and has no configuration for the service, and with a profile
    name, the service reads its configuration from file and, once that
    configuration is found valid, pushes it to the registry under its
    name and that profile. *)
Theorem file_configuration_is_uploaded url r p confDir svc err :
  (forall s, registry_get_registry E url s = Some r) ->
  (forall s, fst (registry_ping E s) = true) ->
  (forall n q s, fst (registry_get_config E n q s) = None) ->
  (forall d q s, failed (snd (loadConfig E d q s)) = false) ->
  (forall s, failed (snd (validateConfig E s)) = false) ->
  exists d c,
    In (edgex_device_loadConfig d (Some p))
      (trace_of (edgex_device_service_start E (Some url) (Some p) confDir)
         svc err)
    /\ In (edgex_registry_put_config (name svc) p c)
         (trace_of (edgex_device_service_start E (Some url) (Some p) confDir)
            svc err).
Proof.
  intros Hreg Hping Hcfg Hload Hval.
  unfold trace_of, run.
  remember (edgex_device_service_start E (Some url) (Some p) confDir
              {| st_svc := svc; st_err := err; st_trace := [] |})
    as res eqn:Hres.
  unfold edgex_device_service_start in Hres.
  unfold bind at 1 in Hres. cbn [get_svc st_svc] in Hres.
  unfold bind at 1 in Hres. cbn [emit st_svc st_err st_trace] in Hres.
  unfold bind at 1 in Hres. cbn [modify_svc st_svc st_err st_trace] in Hres.
  unfold bind at 1 in Hres. cbn [set_err st_svc st_err st_trace] in Hres.
  unfold bind at 1 in Hres. cbn [if_null] in Hres.
  unfold bind at 1 in Hres. unfold extcall_ at 1 in Hres.
  rewrite Hreg in Hres. cbn [if_null ret is_some] in Hres.
  unfold bind at 1 in Hres. unfold bind at 1 in Hres.
  rewrite retry_first_pong in Hres by apply Hping.
  unfold bind at 1 in Hres. cbn [Z.eqb when_ ret] in Hres.
  unfold bind at 1 in Hres. unfold extcall at 1 in Hres.
  rewrite Hcfg in Hres. cbn [if_null] in Hres.
  unfold bind at 1 in Hres. cbn [log emit] in Hres.
  unfold bind at 1 in Hres. cbn [log emit] in Hres.
  unfold bind at 1 in Hres. cbn [set_err ret] in Hres.
  cbn [orb] in Hres.
  unfold bind at 1 in Hres. unfold bind at 1 in Hres.
  unfold extcall at 1 in Hres.
  unfold bind at 1 in Hres. cbn [get_err st_err] in Hres.
  rewrite Hload in Hres.
  unfold bind at 1 in Hres. cbn [when_ ret] in Hres.
  unfold bind at 1 in Hres. unfold extcall at 1 in Hres.
  unfold bind at 1 in Hres. cbn [modify_svc ret] in Hres.
  unfold bind at 1 in Hres. cbn [get_svc] in Hres.
  unfold bind at 1 in Hres.
  match type of Hres with
  | context [when_ ?b _] => destruct b
  end;
    cbn [when_ modify_svc ret] in Hres;
    unfold bind at 1 in Hres; unfold call at 1 in Hres;
    unfold bind at 1 in Hres; cbn [emit st_svc st_err st_trace] in Hres;
    match type of Hres with
    | context [startConfigured E ?reg ?t ?prof ?s3] =>
        pose proof (startConfigured_uploads (name svc) p reg t Hval s3
                      eq_refl) as Hup;
        assert (Hin : In (edgex_device_loadConfig
                            match confDir with
                            | None | Some EmptyString => "res"
                            | Some d => d
                            end (Some p)) (st_trace s3))
          by (cbn [st_trace after_call]; in_trace);
        pose proof (startConfigured_seen _ reg t prof s3 Hin) as Hseen;
        clear Hin;
        destruct (startConfigured E reg t prof s3) as [o4 s4]
    end;
    subst res; cbn [emit snd st_trace];
    (assert (Hup' : uploaded (name svc) p s4) by (destruct o4; exact Hup));
    (assert (Hseen' : In (edgex_device_loadConfig
                            match confDir with
                            | None | Some EmptyString => "res"
                            | Some d => d
                            end (Some p)) (st_trace s4))
       by (destruct o4; exact Hseen));
    destruct Hup' as [c Hc];
    eexists; exists c;
    (split; apply in_or_app; left; apply in_or_app; left; eassumption).
Qed.

End Upload.

Lemma file_configuration_is_uploaded_witness :
  exists d c,
    In (edgex_device_loadConfig d (Some "docker"))
      (trace_of
         (edgex_device_service_start Faults.any_config_valid
            (Some Scenario.registry_url) (Some "docker") None)
         Scenario.fresh EDGEX_OK)
    /\ In (edgex_registry_put_config (name Scenario.fresh) "docker" c)
         (trace_of
            (edgex_device_service_start Faults.any_config_valid
               (Some Scenario.registry_url) (Some "docker") None)
            Scenario.fresh EDGEX_OK).
Proof.
  exact (file_configuration_is_uploaded Faults.any_config_valid
           Scenario.registry_url (Registry Scenario.registry_url) "docker"
           None Scenario.fresh EDGEX_OK
           (fun _ => eq_refl) (fun _ => eq_refl) (fun _ _ _ => eq_refl)
           (fun _ _ _ => eq_refl) (fun _ => eq_refl)).
Defined.

(** ** The directory of the device profiles *)

Lemma sound_has_profilesdir : sound has_profilesdir.
Proof.
  repeat split; simpl.
  - intros a e s _ Hs. exact Hs.
  - intros e s Hs. exact Hs.
  - intros f s Hf Hs. now rewrite Hf.
Qed.

Section ProfilesDir.

Variable E : Env.

Lemma startConfigured_has_profilesdir registry toml profile :
  preserves has_profilesdir (startConfigured E registry toml profile).
Proof.
  unfold_startup.
  preserves_tac sound_has_profilesdir ltac:(intros ? ?; assumption).
Qed.

Lemma hoare_before_validation {A B} (U : state -> Prop) (m : M A)
  (k : A -> M B) Q :
  preserves (never is_validation) m ->
  (forall a, hoare (holds (never is_validation)) (k a) Q
               (fun s => holds (never is_validation) s \/ U s)) ->
  hoare (holds (never is_validation)) (bind m k) Q
    (fun s => holds (never is_validation) s \/ U s).
Proof.
  intros Hm Hk. eapply hoare_bind; [|exact Hk].
  eapply hoare_conseq; [exact Hm | auto | auto |].
  intros s Hs. now left.
Qed.

Lemma service_start_profilesdir registryURL profile confDir :
  hoare (holds (never is_validation))
    (edgex_device_service_start E registryURL profile confDir)
    (fun _ => holds has_profilesdir)
    (fun s => holds (never is_validation) s \/ holds has_profilesdir s).
Proof.
  unfold edgex_device_service_start.
  repeat
    lazymatch goal with
    | |- hoare _ (bind get_svc (fun _ => bind (when_ _ _) _)) _ _ => fail
    | |- hoare _ (bind _ _) _ _ =>
        apply hoare_before_validation; [ solve [never_tac] | intros ? ]
    end.
  intros s _. unfold bind at 1. cbn [get_svc]. unfold bind at 1.
  assert (Hdir : forall s2,
             holds has_profilesdir s2 ->
             holds has_profilesdir
               (snd ((call (startConfigured E a3 a5
                              (if a4 then profile else None)) ;;
                      emit (edgex_registry_free a3) ;;
                      emit (toml_free a5)) s2))
             /\ fst ((call (startConfigured E a3 a5
                              (if a4 then profile else None)) ;;
                      emit (edgex_registry_free a3) ;;
                      emit (toml_free a5)) s2) = Next tt).
  { intros s2 Hs2. unfold bind, call, emit. cbn [fst snd st_svc].
    pose proof (startConfigured_has_profilesdir a3 a5
                  (if a4 then profile else None) s2 Hs2) as H.
    split; [|reflexivity].
    destruct (startConfigured E a3 a5 _ s2) as [[u|] s3]; exact H. }
  destruct (profilesdir (config (st_svc s))) eqn:Hp;
    cbn [is_some negb when_ ret modify_svc];
    match goal with
    | |- context [bind _ _ ?s2] =>
        destruct (Hdir s2) as [H1 H2];
        [ cbn [holds has_profilesdir st_svc set_config config
               set_profilesdir profilesdir is_some];
          first [now rewrite Hp | reflexivity]
        | destruct (bind _ _ s2) as [[u|] s3];
          [exact H1 | discriminate] ]
    end.
Qed.

(** Once the startup has read its configuration, that is, from the
    validation of the configuration on, the configuration names a
    directory of device profiles: the configured one or, by default,
    the configuration directory. *)
Theorem profiles_directory_is_set registryURL profile confDir svc err :
  existsb is_validation
    (trace_of (edgex_device_service_start E registryURL profile confDir)
       svc err) = true ->
  exists d,
    profilesdir
      (config
         (st_svc
            (snd (run (edgex_device_service_start E registryURL profile
                         confDir) svc err))))
    = Some d.
Proof.
  unfold trace_of, run. intros Hval.
  pose proof (service_start_profilesdir registryURL profile confDir
                {| st_svc := svc; st_err := err; st_trace := [] |} eq_refl)
    as H.
  assert (Hdir : holds has_profilesdir
                   (snd (edgex_device_service_start E registryURL profile
                           confDir
                           {| st_svc := svc; st_err := err;
                              st_trace := [] |}))).
  { destruct (edgex_device_service_start E registryURL profile confDir _)
      as [[u|] s']; simpl in *; [exact H|].
    destruct H as [H|H]; [congruence | exact H]. }
  simpl in Hdir.
  destruct (profilesdir _) as [d|]; [eauto | discriminate].
Qed.

End ProfilesDir.

Lemma profiles_directory_is_set_witness :
  exists d,
    profilesdir
      (config
         (st_svc
            (snd (run (edgex_device_service_start
                         (Scenario.env Scenario.normal) None None None)
                    Scenario.fresh EDGEX_OK))))
    = Some d.
Proof.
  assert (H : existsb is_validation
                (trace_of
                   (edgex_device_service_start
                      (Scenario.env Scenario.normal) None None None)
                   Scenario.fresh EDGEX_OK) = true)
    by (vm_compute; reflexivity).
  exact (profiles_directory_is_set (Scenario.env Scenario.normal)
           None None None Scenario.fresh EDGEX_OK H).
Defined.

(** ** Creation, startup and teardown together *)

Lemma sound_handles sch : sound (handles sch).
Proof.
  split; [|split].
  - intros a e s _ [Hs Hd]. split; [exact Hs|]. intros H. simpl.
    rewrite existsb_app, (Hd H). reflexivity.
  - intros e s Hs. exact Hs.
  - intros f s Hf [Hs Hd]. simpl in *.
    injection (Hf (st_svc s)) as H1 H2. rewrite H1, H2. now split.
Qed.

Section Handles.

Variable E : Env.
#[local] Open Scope list_scope.

(** The REST server is created and stored in the service. *)
Lemma preserves_server_create {B} sch p o (k : unit -> M B) :
  preserves (handles sch) (k tt) ->
  preserves (handles sch)
    (bind (extcall (fun _ => edgex_rest_server_create p) o)
       (fun srv => bind (modify_svc (set_daemon srv)) k)).
Proof.
  intros Hk s [Hs _]. unfold bind, extcall, modify_svc. apply Hk.
  simpl. split; [exact Hs|]. intros _. rewrite existsb_app. simpl.
  apply orb_true_r.
Qed.

Ltac handles_tac sch special :=
  preserves_with (sound_handles sch) ltac:(intros ? ?; assumption)
    ltac:(idtac;
          first
            [ lazymatch goal with
              | |- preserves _
                     (bind (extcall (fun _ => edgex_rest_server_create _) _)
                        _) =>
                  apply preserves_server_create
              end
            | special ]).

Lemma startConfigured_handles sch registry toml profile :
  preserves (handles sch) (startConfigured E registry toml profile).
Proof. unfold_startup. handles_tac sch ltac:(fail). Qed.

Lemma service_start_handles sch registryURL profile confDir :
  preserves (handles sch)
    (edgex_device_service_start E registryURL profile confDir).
Proof.
  unfold edgex_device_service_start.
  handles_tac sch
    ltac:(idtac;
          lazymatch goal with
          | |- preserves _ (call _) =>
              apply preserves_call; [intros ? ?; assumption|];
              apply startConfigured_handles
          end).
Qed.

Lemma new_service glibc_2_1 nm ver data svc e l :
  edgex_device_service_new glibc_2_1 nm ver data = (Some svc, e, l) ->
  scheduler svc = Some (iot_scheduler_init (thpool_init POOL_THREADS))
  /\ daemon svc = None /\ sjobs svc = [].
Proof.
  unfold edgex_device_service_new. intros H.
  destruct data; [|discriminate].
  destruct nm as [[|c nm]|]; try discriminate.
  destruct ver as [[|c' ver]|]; try discriminate.
  injection H as <- _ _. repeat split.
Qed.

(** A service made by [edgex_device_service_new], started and then
    stopped: the stop stops and finalises the scheduler that the
    creation made, destroys the worker pool, destroys the REST server
    only if the startup created one, and frees exactly the device jobs
    that the startup handed to the scheduler. *)
Theorem stop_releases_what_was_acquired
  glibc_2_1 nm ver data svc e l registryURL profile confDir force err :
  edgex_device_service_new glibc_2_1 nm ver data = (Some svc, e, l) ->
  let s1 :=
    snd (run (edgex_device_service_start E registryURL profile confDir)
           svc err) in
  let stop :=
    trace_of (edgex_device_service_stop force) (st_svc s1) (st_err s1) in
  In iot_scheduler_stop stop
  /\ In iot_scheduler_fini stop
  /\ In thpool_destroy stop
  /\ (In edgex_rest_server_destroy stop ->
      exists p, In (edgex_rest_server_create p) (st_trace s1))
  /\ freed_jobs stop = rev (invoker_urls (st_trace s1)).
Proof.
  intros Hnew. destruct (new_service _ _ _ _ _ _ _ Hnew) as (Hsch & Hd & Hj).
  cbv zeta.
  assert (Hjobs :
            freed_jobs
              (trace_of (edgex_device_service_stop force)
                 (st_svc (snd (run (edgex_device_service_start E registryURL
                                      profile confDir) svc err)))
                 (st_err (snd (run (edgex_device_service_start E registryURL
                                      profile confDir) svc err))))
            = rev (invoker_urls
                     (st_trace
                        (snd (run (edgex_device_service_start E registryURL
                                     profile confDir) svc err))))).
  { rewrite freed_jobs_of_stop, service_start_job_list, Hj.
    apply app_nil_r. }
  unfold trace_of, run in *.
  pose proof (service_start_handles (scheduler svc) registryURL profile
                confDir {| st_svc := svc; st_err := err; st_trace := [] |})
    as H.
  assert (Hh : holds (handles (scheduler svc))
                 (snd (edgex_device_service_start E registryURL profile
                         confDir
                         {| st_svc := svc; st_err := err;
                            st_trace := [] |}))).
  { assert (H0 : holds (handles (scheduler svc))
                   {| st_svc := svc; st_err := err; st_trace := [] |}).
    { split; [reflexivity|]. simpl. rewrite Hd. discriminate. }
    specialize (H H0).
    destruct (edgex_device_service_start E registryURL profile confDir _)
      as [[u|] s']; exact H. }
  clear H. destruct Hh as [Hs Hsrv]. rewrite Hsch in Hs.
  split; [|split; [|split; [|split; [|exact Hjobs]]]].
  all: rewrite stop_trace; unfold teardown_order;
    cbn [snd st_trace st_svc app]; rewrite Hs; cbn [is_some app].
  - right. now left.
  - right. right. now left.
  - destruct (is_some (daemon _)); simpl; auto 10.
  - destruct (is_some (daemon _)) eqn:Hdm.
    + intros _. specialize (Hsrv eq_refl).
      apply existsb_exists in Hsrv. destruct Hsrv as (a & Ha & Hc).
      destruct a; try discriminate. eauto.
    + intros Hin.
      repeat match type of Hin with
             | _ \/ _ => destruct Hin as [Hin|Hin]
             | exists _, _ => destruct Hin as (? & Hin & _)
             | False => destruct Hin
             | In _ (_ ++ _) => apply in_app_or in Hin
             | In _ (map _ _) => apply in_map_iff in Hin
             | In _ (_ :: _) => destruct Hin as [Hin|Hin]
             | In _ [] => destruct Hin
             end; discriminate.
Qed.

End Handles.

Lemma stop_releases_what_was_acquired_witness :
  In iot_scheduler_fini
    (trace_of (edgex_device_service_stop false)
       (st_svc (snd (run (edgex_device_service_start
                            (Scenario.env Scenario.normal) None None None)
                       Scenario.fresh EDGEX_OK)))
       (st_err (snd (run (edgex_device_service_start
                            (Scenario.env Scenario.normal) None None None)
                       Scenario.fresh EDGEX_OK)))).
Proof.
  exact (proj1 (proj2
           (stop_releases_what_was_acquired (Scenario.env Scenario.normal)
              true (Some "device-demo") (Some "1.0") (Some 1%N)
              Scenario.fresh EDGEX_OK [] None None None false EDGEX_OK
              eq_refl))).
Defined.

(** ** What the startup leaves alone *)

Lemma sound_same_identity svc0 : sound (same_identity svc0).
Proof.
  split; [|split].
  - intros a e s _ Hs. exact Hs.
  - intros e s Hs. exact Hs.
  - intros f s Hf Hs. simpl in *. now rewrite Hf.
Qed.

(** The startup changes the logger, the configuration, the states, the
    REST server, the job list and the caches of the service, and nothing
    else: name, version, the driver's data, the worker pool, the
    scheduler and the locks are those that the service was created
    with, on every path. *)
Theorem start_keeps_identity E registryURL profile confDir svc err :
  identity_of
    (st_svc (snd (run (edgex_device_service_start E registryURL profile
                         confDir) svc err)))
  = identity_of svc.
Proof.
  assert (Hs : forall registry toml prof,
             preserves (same_identity svc)
               (startConfigured E registry toml prof)).
  { intros registry toml prof. unfold_startup.
    preserves_tac (sound_same_identity svc) ltac:(intros ? ?; assumption). }
  assert (H : preserves (same_identity svc)
                (edgex_device_service_start E registryURL profile confDir)).
  { unfold edgex_device_service_start.
    preserves_with (sound_same_identity svc) ltac:(intros ? ?; assumption)
      ltac:(idtac;
            lazymatch goal with
            | |- preserves _ (call _) =>
                apply preserves_call; [intros ? ?; assumption | apply Hs]
            end). }
  unfold run.
  specialize (H {| st_svc := svc; st_err := err; st_trace := [] |} eq_refl).
  destruct (edgex_device_service_start E registryURL profile confDir _)
    as [[u|] s']; exact H.
Qed.

(** ** Errors late in the startup *)

Section LateErrors.

Variable E : Env.
#[local] Open Scope list_scope.

Lemma hoare_before_scheduler {A B} (U : state -> Prop) (m : M A)
  (k : A -> M B) Q :
  preserves (never is_scheduler_start) m ->
  (forall a, hoare (holds (never is_scheduler_start)) (k a) Q
               (fun s => holds (never is_scheduler_start) s \/ U s)) ->
  hoare (holds (never is_scheduler_start)) (bind m k) Q
    (fun s => holds (never is_scheduler_start) s \/ U s).
Proof.
  intros Hm Hk. eapply hoare_bind; [|exact Hk].
  eapply hoare_conseq; [exact Hm | auto | auto |].
  intros s Hs. now left.
Qed.

Lemma startConfigured_late_error registry toml profile :
  hoare (holds (never is_scheduler_start))
    (startConfigured E registry toml profile)
    (fun _ s => no_error s \/ existsb is_registration (st_trace s) = true)
    (fun s => holds (never is_scheduler_start) s
              \/ (no_error s
                  \/ existsb is_registration (st_trace s) = true)).
Proof.
  unfold startConfigured.
  repeat
    lazymatch goal with
    | |- hoare _ (bind (retrieve_scheduleevents E) _) _ _ => fail
    | |- hoare _ (bind _ _) _ _ =>
        apply hoare_before_scheduler;
        [ solve [unfold_startup; never_tac] | intros ? ]
    end.
  eapply hoare_bind with (Q := fun _ => no_error).
  { intros s Hs.
    pose proof (ensures_no_error_retrieve_scheduleevents E s I) as H1.
    assert (H2 : preserves (never is_scheduler_start)
                   (retrieve_scheduleevents E))
      by (unfold_startup; never_tac).
    specialize (H2 s Hs).
    destruct (retrieve_scheduleevents E s) as [[u|] s'];
      [exact H1 | left; exact H2]. }
  intros _ s Hs. unfold no_error in Hs.
  unfold bind, emit, extcall, get_err, when_, if_null, log, emit, ret,
    return_.
  cbn [st_svc st_err st_trace fst snd].
  destruct registry as [reg|]; [destruct (checkinterval _) as [i|]|];
    cbv beta iota; cbn [st_svc st_err st_trace fst snd];
    repeat match goal with
           | |- context [failed ?e] => destruct (failed e) eqn:?
           | |- context [startupmsg ?c] => destruct (startupmsg c)
           end;
    cbv beta iota; cbn [st_svc st_err st_trace fst snd];
    try (left; exact Hs);
    right; try right; rewrite ?existsb_app; simpl;
    rewrite ?orb_true_r; reflexivity.
Qed.

(** Once the scheduler has been started, the startup can fail only in
    the registration with the registry: a startup that has started the
    scheduler and is not registered in the registry ends without an
    error. *)
Theorem only_registration_fails_after_scheduler_start
  registryURL profile confDir svc err :
  existsb is_scheduler_start
    (trace_of (edgex_device_service_start E registryURL profile confDir)
       svc err) = true ->
  err_of (edgex_device_service_start E registryURL profile confDir) svc err
  = EDGEX_OK
  \/ existsb is_registration
       (trace_of (edgex_device_service_start E registryURL profile confDir)
          svc err) = true.
Proof.
  assert (H : hoare (holds (never is_scheduler_start))
                (edgex_device_service_start E registryURL profile confDir)
                (fun _ s => holds (never is_scheduler_start) s
                            \/ (no_error s
                                \/ existsb is_registration (st_trace s)
                                   = true))
                (fun s => holds (never is_scheduler_start) s
                          \/ (no_error s
                              \/ existsb is_registration (st_trace s)
                                 = true))).
  { unfold edgex_device_service_start.
    repeat
      lazymatch goal with
      | |- hoare _ (bind (call _) _) _ _ => fail
      | |- hoare _ (bind _ _) _ _ =>
          apply hoare_before_scheduler; [ solve [never_tac] | intros ? ]
      end.
    intros s Hs. unfold bind, call, emit.
    cbn [st_svc st_err st_trace fst snd].
    pose proof (startConfigured_late_error a3 a5
                  (if a4 then profile else None) s Hs) as H.
    assert (H' : holds (never is_scheduler_start)
                   (snd (startConfigured E a3 a5
                           (if a4 then profile else None) s))
                 \/ (no_error (snd (startConfigured E a3 a5
                                     (if a4 then profile else None) s))
                     \/ existsb is_registration
                          (st_trace (snd (startConfigured E a3 a5
                                            (if a4 then profile else None)
                                            s))) = true)).
    { destruct (startConfigured E a3 a5 _ s) as [[u|] s'];
        [right; exact H | exact H]. }
    clear H. simpl in *. destruct H' as [H'|[H'|H']].
    - left. rewrite !existsb_app, H'. reflexivity.
    - right. left. exact H'.
    - right. right. rewrite !existsb_app, H'. reflexivity. }
  unfold trace_of, err_of, run. intros Hstart.
  specialize (H {| st_svc := svc; st_err := err; st_trace := [] |} eq_refl).
  destruct (edgex_device_service_start E registryURL profile confDir _)
    as [[u|] s']; simpl in *;
    (destruct H as [H|H]; [congruence | exact H]).
Qed.

(** Neither the startup nor the teardown reads the value that the
    caller left in [*err]. *)
Theorem start_and_stop_forget_stale_error
  registryURL profile confDir force svc err1 err2 :
  run (edgex_device_service_start E registryURL profile confDir) svc err1
  = run (edgex_device_service_start E registryURL profile confDir) svc err2
  /\ run (edgex_device_service_stop force) svc err1
     = run (edgex_device_service_stop force) svc err2.
Proof.
  split.
  - unfold run, edgex_device_service_start.
    unfold bind at 1 2 3 4 5 6 7 8.
    cbn [get_svc emit modify_svc set_err st_svc st_err st_trace].
    reflexivity.
  - unfold run. now rewrite !stop_trace.
Qed.

End LateErrors.

Lemma only_registration_fails_after_scheduler_start_witness :
  err_of
    (edgex_device_service_start (Scenario.env Scenario.normal)
       None None None) Scenario.fresh EDGEX_OK
  = EDGEX_OK
  \/ existsb is_registration Scenario.startup = true.
Proof.
  assert (H : existsb is_scheduler_start
                (trace_of
                   (edgex_device_service_start
                      (Scenario.env Scenario.normal) None None None)
                   Scenario.fresh EDGEX_OK) = true)
    by (vm_compute; reflexivity).
  exact (only_registration_fails_after_scheduler_start
           (Scenario.env Scenario.normal) None None None Scenario.fresh
           EDGEX_OK H).
Defined.

(** ** Runs of the demo deployment, continued *)

(** The demo configuration waits five seconds between two pings. *)
Lemma connect_delay_millis_witness :
  0 <= tv_nsec (connect_delay 5000) < 1000000000
  /\ 1000 * tv_sec (connect_delay 5000)
     + tv_nsec (connect_delay 5000) / 1000000 = 5000.
Proof.
  assert (H : 0 <= 5000) by discriminate.
  exact (connect_delay_millis 5000 H).
Defined.

(** ** The stages of a startup *)

Lemma startup_message_is_a_format : fmt_noargs "100%% up" = "100% up".
Proof. reflexivity. Qed.

Lemma sound_beyond r l p U : sound (beyond r l p U).
Proof.
  split; [|split]; simpl.
  - intros a e s Ha [Hab (rest & Htr & Hn)]. split; [exact Hab|].
    exists (rest ++ [a])%list. split.
    + rewrite Htr, <- app_assoc. reflexivity.
    + rewrite existsb_app, Hn. simpl.
      now rewrite (proj1 (negb_true_iff _) Ha).
  - intros e s Hs. exact Hs.
  - intros f s Hf [Hab Hr]. split; [|exact Hr].
    unfold about in *. simpl. now rewrite Hf.
Qed.

Lemma sound_same_service r : sound (same_service r).
Proof.
  split; [|split]; simpl.
  - intros a e s _ Hs. exact Hs.
  - intros e s Hs. exact Hs.
  - intros f s Hf Hs. unfold about in *. simpl. now rewrite Hf.
Qed.

Lemma beyond_leaves r l p U s :
  holds (beyond r l p U) s -> leaves (beyond r l p U) s.
Proof.
  intros [Hab (rest & Htr & Hn)].
  exists rest. split; [exact Htr | left; exact Hn].
Qed.

Lemma hoare_step (F : frame) {A B} (m : M A) (k : A -> M B) Q :
  preserves F m -> (forall a, hoare (holds F) (k a) Q (leaves F)) ->
  hoare (holds F) (bind m k) Q (leaves F).
Proof. intros Hm Hk. eapply hoare_bind; [exact Hm | exact Hk]. Qed.

Lemma hoare_about_svc r l p U {B} (k : edgex_device_service -> M B) Q R :
  (forall svc, (config svc, name svc) = (config r, name r) ->
               hoare (holds (beyond r l p U)) (k svc) Q R) ->
  hoare (holds (beyond r l p U)) (bind get_svc k) Q R.
Proof.
  intros Hk s Hs. unfold bind, get_svc. apply Hk; [apply Hs | exact Hs].
Qed.

(** A statement that always returns. *)
Lemma hoare_cut (F : frame) {A} (m : M A) :
  (forall s, fst (m s) = Returned) -> preserves F m ->
  hoare (holds F) m (fun _ _ => False) (leaves F).
Proof.
  intros Hr Hm s Hs. specialize (Hm s Hs). specialize (Hr s).
  destruct (m s) as [[a|] s']; simpl in *; [discriminate | exact Hm].
Qed.

(** The parts of [startConfigured], opened one at a time. *)
Ltac open_step :=
  lazymatch goal with
  | |- preserves _ (startConfigured _ _ _ _) => unfold startConfigured
  | |- preserves _ (configure_and_upload _ _) => unfold configure_and_upload
  | |- preserves _ (wait_for_core_services _) => unfold wait_for_core_services
  | |- preserves _ (register_deviceservice _) => unfold register_deviceservice
  | |- preserves _ (upload_schedule _ _ _) => unfold upload_schedule
  | |- preserves _ (upload_scheduleevent _ _ _) => unfold upload_scheduleevent
  | |- preserves _ (retrieve_scheduleevents _) =>
      unfold retrieve_scheduleevents
  | |- preserves _ (schedule_event _ _) => unfold schedule_event
  end.

(** A statement preserves a stage; [special] is tried first at every
    step. *)
Ltac stage_with special :=
  lazymatch goal with
  | |- preserves (beyond ?r ?l ?p ?U) _ =>
      cbv beta zeta; cbn [if_null is_some negb orb];
      repeat (first [ special
                    | preserves_step (sound_beyond r l p U)
                        ltac:(apply beyond_leaves)
                    | open_step ];
              cbv beta zeta; cbn [if_null is_some negb orb])
  end.

Ltac stage_tac := stage_with ltac:(fail).

(** The statements of [startConfigured] one after the other, up to the
    statement at which [stop] succeeds. *)
Ltac chain_with stop special :=
  unfold startConfigured;
  repeat (tryif stop then fail else
            lazymatch goal with
            | |- hoare _ (bind get_svc _) _ _ =>
                apply hoare_about_svc; intros ? ?
            | |- hoare _ (bind _ _) _ _ =>
                apply hoare_step; [ solve [stage_with special] | intros ? ]
            end).

Ltac at_discovery :=
  idtac;
  lazymatch goal with
  | |- hoare _
         (bind (emit (edgex_rest_server_register_handler
                        EDGEX_DEV_API_DISCOVERY _ _)) _) _ _ => idtac
  end.

Ltac at_schedules :=
  idtac;
  lazymatch goal with
  | |- hoare _ (bind (for_each (schedules _) _) _) _ _ => idtac
  end.

Ltac at_scheduleevents :=
  idtac;
  lazymatch goal with
  | |- hoare _ (bind (for_each (scheduleevents _) _) _) _ _ => idtac
  end.

Ltac at_retrieval :=
  idtac;
  lazymatch goal with
  | |- hoare _ (bind (retrieve_scheduleevents _) _) _ _ => idtac
  end.

(** *** Reading a trace around its first call of a kind *)




Lemma existsb_start_call p tr :
  (forall a, p a = true -> not_start_call a = true) ->
  existsb not_start_call tr = false -> existsb p tr = false.
Proof. apply never_weaken. Qed.

Section Stages.

Variable E : Env.
#[local] Open Scope list_scope.

(** [startConfigured] leaves the configuration and the name of the
    service alone. *)
Lemma startConfigured_same_service r registry toml profile :
  preserves (same_service r) (startConfigured E registry toml profile).
Proof.
  unfold_startup.
  preserves_tac (sound_same_service r) ltac:(intros ? ?; assumption).
Qed.

Lemma startConfigured_about registry toml profile s :
  about (st_svc s) (snd (startConfigured E registry toml profile s)).
Proof.
  pose proof (startConfigured_same_service (st_svc s) registry toml profile
                s eq_refl) as H.
  destruct (startConfigured E registry toml profile s) as [[u|] s'];
    exact H.
Qed.

(** A statement of [edgex_device_service_start] before the call of
    [startConfigured]. *)
Lemma hoare_start_call {A} (m : M A) :
  preserves (never not_start_call) m -> errs m ->
  hoare (holds (never not_start_call)) m
    (fun _ => holds (never not_start_call))
    (fun s => has_failed s /\ holds (never not_start_call) s).
Proof.
  intros Hm He s Hs. specialize (Hm s Hs). specialize (He s I).
  destruct (m s) as [[a|] s']; [exact Hm | split; assumption].
Qed.

(** [edgex_device_service_start] either returns with an error before
    it calls [startConfigured], or ends with what [startConfigured]
    leaves, the registry handle and the configuration table freed. *)
Lemma service_start_cases registryURL profile confDir :
  hoare (holds (never not_start_call))
    (edgex_device_service_start E registryURL profile confDir)
    (fun _ s' =>
       exists registry toml prof s,
         holds (never not_start_call) s
         /\ s' = freed registry toml
                   (snd (startConfigured E registry toml prof s)))
    (fun s' => has_failed s' /\ holds (never not_start_call) s').
Proof.
  unfold edgex_device_service_start.
  repeat
    lazymatch goal with
    | |- hoare _ (bind (call _) _) _ _ => fail
    | |- hoare _ (bind _ _) _ _ =>
        eapply hoare_bind;
        [ apply hoare_start_call; [ solve [never_tac] | solve [errs_tac] ]
        | intros ?; cbv zeta ]
    end.
  intros s Hs. unfold bind, call, emit. cbn [fst snd st_svc st_err st_trace].
  do 4 eexists. split; [exact Hs|]. unfold freed.
  rewrite <- app_assoc. reflexivity.
Qed.

Lemma service_start_ends registryURL profile confDir svc err :
  let s' :=
    snd (run (edgex_device_service_start E registryURL profile confDir)
           svc err) in
  (has_failed s' /\ existsb not_start_call (st_trace s') = false)
  \/ (exists registry toml prof s,
        existsb not_start_call (st_trace s) = false
        /\ s' = freed registry toml
                  (snd (startConfigured E registry toml prof s))).
Proof.
  unfold run. cbv zeta.
  pose proof (service_start_cases registryURL profile confDir
                {| st_svc := svc; st_err := err; st_trace := [] |} eq_refl)
    as H.
  destruct (edgex_device_service_start E registryURL profile confDir _)
    as [[u|] s']; cbn [snd]; [right | left]; exact H.
Qed.

End Stages.

Ltac not_start_tac :=
  let a := fresh "a" in
  let H := fresh "H" in
  intros a; destruct a; simpl; intros H; try reflexivity; discriminate.

Section StartAndStage.

Variable E : Env.
#[local] Open Scope list_scope.

(** When [startConfigured] cannot run to its end, the startup leaves an
    error. *)
Lemma service_start_fails registryURL profile confDir svc err :
  let s' :=
    snd (run (edgex_device_service_start E registryURL profile confDir)
           svc err) in
  (forall registry toml prof s,
     existsb not_start_call (st_trace s) = false ->
     about (st_svc s) s' ->
     fst (startConfigured E registry toml prof s) = Returned) ->
  failed (st_err s') = true.
Proof.
  cbv zeta. intros H.
  destruct (service_start_ends E registryURL profile confDir svc err)
    as [[Hf _] | (registry & toml & prof & s & Hn & Hs')]; [exact Hf|].
  rewrite Hs' in *. clear Hs'.
  pose proof (startConfigured_about E registry toml prof s) as Hab.
  specialize (H registry toml prof s Hn Hab).
  pose proof (keeps_startConfigured E registry toml prof (config (st_svc s)) s
                eq_refl) as Hk.
  destruct (startConfigured E registry toml prof s) as [[u|] s1];
    cbn [fst snd] in *; [discriminate | exact Hk].
Qed.

(** What a stage of [startConfigured] leaves, seen from
    [edgex_device_service_start]. *)
Lemma service_start_stage p U registryURL profile confDir svc err :
  let s' :=
    snd (run (edgex_device_service_start E registryURL profile confDir)
           svc err) in
  (forall a, p a = true -> not_start_call a = true) ->
  (forall r registry toml prof,
     about r s' ->
     hoare (holds (beyond r [] p U))
       (startConfigured E registry toml prof)
       (fun _ => leaves (beyond r [] p U)) (leaves (beyond r [] p U))) ->
  existsb p (st_trace s') = false
  \/ exists rest r t,
       st_trace s' = rest ++ [edgex_registry_free r; toml_free t]
       /\ U (st_err s') rest.
Proof.
  cbv zeta. intros Hp H.
  destruct (service_start_ends E registryURL profile confDir svc err)
    as [[_ Hn] | (registry & toml & prof & s & Hn & Hs')].
  { left. now apply (existsb_start_call p). }
  rewrite Hs' in *. clear Hs'.
  pose proof (startConfigured_about E registry toml prof s) as Hab.
  specialize (H (st_svc s) registry toml prof Hab s).
  assert (Hs : holds (beyond (st_svc s) [] p U) s).
  { split; [reflexivity|]. exists (st_trace s).
    split; [reflexivity | now apply (existsb_start_call p)]. }
  specialize (H Hs).
  assert (Hl : leaves (beyond (st_svc s) [] p U)
                 (snd (startConfigured E registry toml prof s))).
  { destruct (startConfigured E registry toml prof s) as [[u|] s1];
      exact H. }
  destruct Hl as (rest & Htr & [Hnp | HU]); cbn [app] in Htr.
  - left. cbn [freed st_trace]. rewrite existsb_app, Htr, Hnp.
    cbn [existsb orb].
    destruct (p (edgex_registry_free registry)) eqn:H1;
      [apply Hp in H1; discriminate|].
    destruct (p (toml_free toml)) eqn:H2; [apply Hp in H2; discriminate|].
    reflexivity.
  - right. exists rest, registry, toml. cbn [freed st_trace st_err].
    rewrite Htr. split; [reflexivity | exact HU].
Qed.

(** A triple that never falls through, as a stage. *)
Lemma hoare_no_next {A} (P : state -> Prop) (m : M A) Q R :
  hoare P m (fun _ _ => False) R -> hoare P m Q R.
Proof.
  intros H. eapply hoare_conseq; [exact H | auto | | auto].
  intros ? ? [].
Qed.

End StartAndStage.

(** ** Schedule events that are not valid *)

Lemma follows_upload_not_start a :
  follows_upload a = true -> not_start_call a = true.
Proof. revert a. not_start_tac. Qed.

Lemma registers_not_start u a :
  registers u a = true -> not_start_call a = true.
Proof. revert a. not_start_tac. Qed.

Lemma scheduler_start_not_start a :
  is_scheduler_start a = true -> not_start_call a = true.
Proof. revert a. not_start_tac. Qed.

Lemma get_scheduleevents_not_start a :
  is_get_scheduleevents a = true -> not_start_call a = true.
Proof. revert a. not_start_tac. Qed.

Section InvalidEvents.

Variable E : Env.
#[local] Open Scope list_scope.

(** When metadata refuses no schedule, the upload of the schedules
    falls through. *)
Lemma upload_schedules_tolerated r l R :
  (forall k f s, st_err s = EDGEX_OK ->
                 creation_of (snd (create_schedule E k f s)) <> Refused) ->
  hoare (about r)
    (for_each l (fun kv => upload_schedule E (fst kv) (snd kv)))
    (fun _ => about r) R.
Proof.
  intros Hs. induction l as [|kv l IH]; simpl.
  - intros s H. exact H.
  - eapply hoare_bind with (Q := fun _ => about r); [|intros ?; exact IH].
    intros s Hab. rewrite upload_schedule_run. cbv zeta.
    pose proof (Hs (fst kv) (snd kv) (with_err EDGEX_OK s) eq_refl) as Hc.
    destruct (creation_of
                (snd (create_schedule E (fst kv) (snd kv)
                        (with_err EDGEX_OK s)))) eqn:Hcr;
      cbn [continues]; [exact Hab | exact Hab | congruence].
Qed.

(** When metadata refuses no addressable and no schedule event, a turn
    of the upload of schedule events returns only to reject its
    event. *)
Lemma upload_scheduleevent_returns key schedevt s :
  (forall a s, st_err s = EDGEX_OK ->
               creation_of (snd (create_addressable E a s)) <> Refused) ->
  (forall k sc a n s,
     st_err s = EDGEX_OK ->
     creation_of (snd (create_scheduleevent E k sc a n s)) <> Refused) ->
  fst (upload_scheduleevent E key schedevt s) = Returned ->
  rejected_event [(key, schedevt)]
    (st_err (snd (upload_scheduleevent E key schedevt s)))
    (st_trace (snd (upload_scheduleevent E key schedevt s))).
Proof.
  intros Ha He.
  destruct (is_discovery_path (path schedevt) || is_device_path (path schedevt))
    eqn:Hv.
  - rewrite (upload_scheduleevent_run E key schedevt s Hv). cbv zeta.
    match goal with
    | |- context [creation_of (snd (create_addressable E ?a ?st))] =>
        pose proof (Ha a st eq_refl) as Hc1;
        destruct (creation_of (snd (create_addressable E a st))) eqn:E1;
        [ | | congruence ]
    end;
      match goal with
      | |- context [creation_of
                      (snd (create_scheduleevent E ?k ?sc ?a ?n ?st))] =>
          pose proof (He k sc a n st eq_refl) as Hc2;
          destruct (creation_of (snd (create_scheduleevent E k sc a n st)))
            eqn:E2;
          cbn [continues fst]; [discriminate | discriminate | congruence]
      end.
  - pose proof Hv as Hv'. apply orb_false_iff in Hv. destruct Hv as [H1 H2].
    rewrite (upload_scheduleevent_invalid E key schedevt s H1 H2).
    intros _. split; [reflexivity|].
    exists (st_trace s), key, schedevt.
    split; [reflexivity|]. split; [now left | exact Hv'].
Qed.

Lemma rejected_event_among events events' e tr :
  (forall kv, In kv events -> In kv events') ->
  rejected_event events e tr -> rejected_event events' e tr.
Proof.
  intros Hin [He (pre & key & schedevt & Htr & Hkv & Hv)].
  split; [exact He|]. exists pre, key, schedevt. auto.
Qed.

Lemma upload_stops_at_invalid_event events key schedevt :
  In (key, schedevt) events ->
  is_discovery_path (path schedevt) = false ->
  is_device_path (path schedevt) = false ->
  (forall a s, st_err s = EDGEX_OK ->
               creation_of (snd (create_addressable E a s)) <> Refused) ->
  (forall k sc a n s,
     st_err s = EDGEX_OK ->
     creation_of (snd (create_scheduleevent E k sc a n s)) <> Refused) ->
  forall s,
    let r := for_each events
               (fun kv => upload_scheduleevent E (fst kv) (snd kv)) s in
    fst r = Returned
    /\ rejected_event events (st_err (snd r)) (st_trace (snd r)).
Proof.
  intros Hin H1 H2 Ha He s. cbv zeta.
  apply in_split in Hin. destruct Hin as (l1 & l2 & ->).
  apply (for_each_returns
           (fun kv => upload_scheduleevent E (fst kv) (snd kv))
           (fun s' => rejected_event (l1 ++ (key, schedevt) :: l2)
                        (st_err s') (st_trace s'))).
  - intros y s0 Hy Hret.
    apply (rejected_event_among [(fst y, snd y)]).
    + intros kv [<- | []]. destruct y. apply in_or_app. now left.
    + now apply upload_scheduleevent_returns.
  - intros s0. cbn [fst snd].
    rewrite (upload_scheduleevent_invalid E key schedevt s0 H1 H2).
    split; [reflexivity|]. split; [reflexivity|].
    exists (st_trace s0), key, schedevt. split; [reflexivity|].
    split; [apply in_or_app; right; now left|].
    unfold valid_path. now rewrite H1, H2.
Qed.

(** With an invalid schedule event in the configuration, nothing that
    follows the upload is reached. *)
Lemma startConfigured_stops_at_upload r key schedevt registry toml profile :
  In (key, schedevt) (scheduleevents (config r)) ->
  is_discovery_path (path schedevt) = false ->
  is_device_path (path schedevt) = false ->
  hoare (holds (beyond r [] follows_upload no_exit))
    (startConfigured E registry toml profile)
    (fun _ _ => False) (leaves (beyond r [] follows_upload no_exit)).
Proof.
  intros Hin H1 H2. chain_with at_scheduleevents ltac:(fail).
  match goal with
  | H : (config ?svc, name ?svc) = _ |- _ => injection H as Hc Hn
  end.
  rewrite Hc.
  eapply hoare_bind with (Q := fun _ _ => False); [|intros ? ? []].
  apply hoare_cut; [|stage_tac].
  intros s. apply in_split in Hin. destruct Hin as (l1 & l2 & ->).
  now apply upload_with_invalid_event.
Qed.

(** When the upload is reached and metadata refuses no create call,
    the startup ends with [EDGEX_BAD_CONFIG] at the rejection of an
    event. *)
Lemma startConfigured_rejects_event r key schedevt registry toml profile :
  In (key, schedevt) (scheduleevents (config r)) ->
  is_discovery_path (path schedevt) = false ->
  is_device_path (path schedevt) = false ->
  (forall k f s, st_err s = EDGEX_OK ->
                 creation_of (snd (create_schedule E k f s)) <> Refused) ->
  (forall a s, st_err s = EDGEX_OK ->
               creation_of (snd (create_addressable E a s)) <> Refused) ->
  (forall k sc a n s,
     st_err s = EDGEX_OK ->
     creation_of (snd (create_scheduleevent E k sc a n s)) <> Refused) ->
  hoare
    (holds (beyond r [] (registers EDGEX_DEV_API_DISCOVERY)
              (rejected_event (scheduleevents (config r)))))
    (startConfigured E registry toml profile)
    (fun _ _ => False)
    (leaves (beyond r [] (registers EDGEX_DEV_API_DISCOVERY)
               (rejected_event (scheduleevents (config r))))).
Proof.
  intros Hin H1 H2 Hs Ha He. chain_with at_discovery ltac:(fail).
  match goal with
  | H : (config ?svc, name ?svc) = _ |- _ => injection H as Hc Hn
  end.
  rewrite Hc.
  eapply hoare_bind with (Q := fun _ => about r).
  { intros s [Hab _]. exact Hab. }
  intros ?.
  eapply hoare_bind with (Q := fun _ => about r);
    [apply upload_schedules_tolerated; assumption | intros ?].
  eapply hoare_bind with (Q := fun _ _ => False); [|intros ? ? []].
  intros s _.
  destruct (upload_stops_at_invalid_event _ _ _ Hin H1 H2 Ha He s)
    as [Hr Hrej].
  destruct (for_each _ _ s) as [[u|] s']; cbn [fst snd] in *; [discriminate|].
  cbn [leaves beyond]. exists (st_trace s').
  split; [reflexivity | right; exact Hrej].
Qed.

(** *** Events fetched from metadata *)

Lemma retrieve_stops_at_invalid_event ev :
  is_discovery_path (addr_path (se_addressable ev)) = false ->
  is_device_path (addr_path (se_addressable ev)) = false ->
  (forall n s, st_err s = EDGEX_OK -> In ev (fst (get_scheduleevents E n s))) ->
  forall s, fst (retrieve_scheduleevents E s) = Returned.
Proof.
  intros H1 H2 Hin s. rewrite retrieve_scheduleevents_run. cbv zeta.
  destruct (failed _); [reflexivity|].
  specialize (Hin (name (st_svc s)) (with_err EDGEX_OK s) eq_refl).
  apply in_split in Hin. destruct Hin as (l1 & l2 & ->).
  now apply retrieve_with_invalid_event.
Qed.

Lemma schedule_event_returns ev s :
  failed (snd (get_schedule E (se_schedule ev) s)) = false ->
  fst (schedule_event E ev s) = Returned ->
  st_err (snd (schedule_event E ev s)) = EDGEX_BAD_CONFIG.
Proof.
  unfold schedule_event, bind, extcall, get_err, when_, if_null, ret, log,
    emit, set_err, return_, modify_svc, strcmp, strncmp.
  cbn [fst snd st_svc st_err st_trace]. intros Hf. rewrite Hf.
  cbn [fst snd st_svc st_err st_trace].
  destruct (fst (parse8601 E _)); cbn [fst snd st_svc st_err st_trace];
    [reflexivity|].
  destruct (negb (negb (String.eqb _ _)));
    cbn [fst snd st_svc st_err st_trace]; [discriminate|].
  destruct (negb (negb (String.prefix _ _)));
    cbn [fst snd st_svc st_err st_trace]; [discriminate | reflexivity].
Qed.

Lemma retrieve_bad_config ev :
  is_discovery_path (addr_path (se_addressable ev)) = false ->
  is_device_path (addr_path (se_addressable ev)) = false ->
  (forall n s, st_err s = EDGEX_OK -> In ev (fst (get_scheduleevents E n s))) ->
  (forall n s, st_err s = EDGEX_OK ->
               failed (snd (get_scheduleevents E n s)) = false) ->
  (forall n s, failed (snd (get_schedule E n s)) = false) ->
  forall s,
    fst (retrieve_scheduleevents E s) = Returned
    /\ st_err (snd (retrieve_scheduleevents E s)) = EDGEX_BAD_CONFIG.
Proof.
  intros H1 H2 Hin Hev Hsch s. rewrite retrieve_scheduleevents_run. cbv zeta.
  rewrite (Hev (name (st_svc s)) (with_err EDGEX_OK s) eq_refl).
  specialize (Hin (name (st_svc s)) (with_err EDGEX_OK s) eq_refl).
  apply in_split in Hin. destruct Hin as (l1 & l2 & ->).
  apply (for_each_returns (schedule_event E)
           (fun s' => st_err s' = EDGEX_BAD_CONFIG)).
  - intros y s0 _. apply schedule_event_returns, Hsch.
  - intros s0. destruct (schedule_event_invalid E ev s0 H1 H2) as [Hr Hb].
    split; [exact Hr | apply Hb, Hsch].
Qed.

(** With an invalid schedule event in the answer of metadata, the
    scheduler is never started. *)
Lemma startConfigured_stops_at_retrieval r ev registry toml profile :
  is_discovery_path (addr_path (se_addressable ev)) = false ->
  is_device_path (addr_path (se_addressable ev)) = false ->
  (forall n s, st_err s = EDGEX_OK -> In ev (fst (get_scheduleevents E n s))) ->
  hoare (holds (beyond r [] is_scheduler_start no_exit))
    (startConfigured E registry toml profile)
    (fun _ _ => False) (leaves (beyond r [] is_scheduler_start no_exit)).
Proof.
  intros H1 H2 Hin. chain_with at_retrieval ltac:(fail).
  eapply hoare_bind with (Q := fun _ _ => False); [|intros ? ? []].
  apply hoare_cut; [|stage_tac].
  now apply retrieve_stops_at_invalid_event with (ev := ev).
Qed.

Lemma startConfigured_rejects_metadata_event r ev registry toml profile :
  is_discovery_path (addr_path (se_addressable ev)) = false ->
  is_device_path (addr_path (se_addressable ev)) = false ->
  (forall n s, st_err s = EDGEX_OK -> In ev (fst (get_scheduleevents E n s))) ->
  (forall n s, st_err s = EDGEX_OK ->
               failed (snd (get_scheduleevents E n s)) = false) ->
  (forall n s, failed (snd (get_schedule E n s)) = false) ->
  hoare
    (holds (beyond r [] is_get_scheduleevents
              (fun e _ => e = EDGEX_BAD_CONFIG)))
    (startConfigured E registry toml profile)
    (fun _ _ => False)
    (leaves (beyond r [] is_get_scheduleevents
               (fun e _ => e = EDGEX_BAD_CONFIG))).
Proof.
  intros H1 H2 Hin Hev Hsch. chain_with at_retrieval ltac:(fail).
  eapply hoare_bind with (Q := fun _ _ => False); [|intros ? ? []].
  intros s _.
  destruct (retrieve_bad_config ev H1 H2 Hin Hev Hsch s) as [Hr Hb].
  destruct (retrieve_scheduleevents E s) as [[u|] s'];
    cbn [fst snd] in *; [discriminate|].
  cbn [leaves beyond]. exists (st_trace s').
  split; [reflexivity | right; exact Hb].
Qed.

(** C6, as amended.  With a configured schedule event whose path is
    neither the discovery path nor under the device path,
    [edgex_device_service_start] never succeeds: it leaves an error, and
    nothing that follows the upload of the schedule events happens.
    When the startup has got as far as the upload (the discovery handler
    is registered) and metadata refuses no create call, the error is
    [EDGEX_BAD_CONFIG], and the trace ends with the error log that
    rejects a configured event whose path is not valid, and the two
    frees; a startup that an earlier step ends keeps the error of that
    step.  The same holds at the retrieval for
    a schedule event in the answer of metadata whose addressable has
    such a path: the startup leaves an error and never starts the
    scheduler, and the error is [EDGEX_BAD_CONFIG] when the events have
    been asked for and metadata fails neither that request nor the
    lookup of a schedule. *)
Theorem invalid_schedule_event_path registryURL profile confDir svc err p :
  is_discovery_path p = false ->
  is_device_path p = false ->
  let s' :=
    snd (run (edgex_device_service_start E registryURL profile confDir)
           svc err) in
  (forall key sched,
     In (key, {| schedule := sched; path := p |})
       (scheduleevents (config (st_svc s'))) ->
     failed (st_err s') = true
     /\ existsb follows_upload (st_trace s') = false
     /\ ((forall k f s,
            st_err s = EDGEX_OK ->
            creation_of (snd (create_schedule E k f s)) <> Refused) ->
         (forall a s,
            st_err s = EDGEX_OK ->
            creation_of (snd (create_addressable E a s)) <> Refused) ->
         (forall k sc a n s,
            st_err s = EDGEX_OK ->
            creation_of (snd (create_scheduleevent E k sc a n s))
            <> Refused) ->
         existsb (registers EDGEX_DEV_API_DISCOVERY) (st_trace s') = true ->
         st_err s' = EDGEX_BAD_CONFIG
         /\ exists pre k schedevt r t,
              st_trace s'
              = pre ++ [invalid_event_log k; edgex_registry_free r;
                        toml_free t]
              /\ In (k, schedevt) (scheduleevents (config (st_svc s')))
              /\ valid_path (path schedevt) = false))
  /\ (forall ev,
        addr_path (se_addressable ev) = p ->
        (forall n s, st_err s = EDGEX_OK ->
                     In ev (fst (get_scheduleevents E n s))) ->
        failed (st_err s') = true
        /\ existsb is_scheduler_start (st_trace s') = false
        /\ ((forall n s, st_err s = EDGEX_OK ->
                         failed (snd (get_scheduleevents E n s)) = false) ->
            (forall n s, failed (snd (get_schedule E n s)) = false) ->
            existsb is_get_scheduleevents (st_trace s') = true ->
            st_err s' = EDGEX_BAD_CONFIG)).
Proof.
  intros H1 H2. cbv zeta. split.
  - intros key sched Hin.
    assert (Hcfg : forall r,
               about r (snd (run (edgex_device_service_start E registryURL
                                    profile confDir) svc err)) ->
               In (key, {| schedule := sched; path := p |})
                 (scheduleevents (config r))).
    { intros r Hab. injection Hab as Hc _. now rewrite <- Hc. }
    split.
    { apply service_start_fails. intros registry toml prof s _ Hab.
      eapply startup_rejects_invalid_event; [apply (Hcfg _ Hab) | | ];
        assumption. }
    split.
    { destruct (service_start_stage E follows_upload no_exit registryURL
                  profile confDir svc err follows_upload_not_start)
        as [Hn | (rest & r & t & _ & [])]; [|exact Hn].
      intros r registry toml prof Hab. apply hoare_no_next.
      eapply startConfigured_stops_at_upload; [apply (Hcfg _ Hab) | | ];
        assumption. }
    intros Hs Ha He Hd.
    destruct (service_start_stage E (registers EDGEX_DEV_API_DISCOVERY)
                (rejected_event
                   (scheduleevents
                      (config
                         (st_svc
                            (snd (run (edgex_device_service_start E
                                         registryURL profile confDir)
                                    svc err))))))
                registryURL profile confDir svc err
                (registers_not_start _))
      as [Hn | (rest & r & t & Htr & Herr & pre & k & schedevt & Hrest
                & Hk & Hkv)].
    { intros r registry toml prof Hab. apply hoare_no_next.
      assert (Hc : config
                     (st_svc
                        (snd (run (edgex_device_service_start E registryURL
                                     profile confDir) svc err)))
                   = config r) by (injection Hab; auto).
      rewrite Hc.
      eapply startConfigured_rejects_event; [apply (Hcfg _ Hab) | ..];
        assumption. }
    { congruence. }
    split; [exact Herr|]. exists pre, k, schedevt, r, t.
    split; [|split; assumption].
    rewrite Htr, Hrest, <- app_assoc. reflexivity.
  - intros ev Hp Hin. subst p. split.
    { apply service_start_fails. intros registry toml prof s Hn _.
      pose proof (startConfigured_stops_at_retrieval (st_svc s) ev registry
                    toml prof H1 H2 Hin s) as H.
      assert (Hs : holds (beyond (st_svc s) [] is_scheduler_start no_exit)
                     s).
      { split; [reflexivity|]. exists (st_trace s).
        split; [reflexivity|].
        now apply (existsb_start_call _ _ scheduler_start_not_start). }
      specialize (H Hs).
      destruct (startConfigured E registry toml prof s) as [[u|] s1];
        [destruct H | reflexivity]. }
    split.
    { destruct (service_start_stage E is_scheduler_start no_exit registryURL
                  profile confDir svc err scheduler_start_not_start)
        as [Hn | (rest & r & t & _ & [])]; [|exact Hn].
      intros r registry toml prof _. apply hoare_no_next.
      now apply startConfigured_stops_at_retrieval with (ev := ev). }
    intros Hev Hsch Hd.
    destruct (service_start_stage E is_get_scheduleevents
                (fun e _ => e = EDGEX_BAD_CONFIG) registryURL profile confDir
                svc err get_scheduleevents_not_start)
      as [Hn | (rest & r & t & Htr & Herr)].
    { intros r registry toml prof _. apply hoare_no_next.
      now apply startConfigured_rejects_metadata_event with (ev := ev). }
    { congruence. }
    exact Herr.
Qed.

End InvalidEvents.

(** A schedule event on the ping path in the configuration, and one in
    the answer of metadata: both startups end with
    [EDGEX_BAD_CONFIG]. *)
Lemma invalid_schedule_event_path_witness :
  err_of
    (edgex_device_service_start (Scenario.env Scenario.bad_config)
       None None None) Scenario.fresh EDGEX_OK
  = EDGEX_BAD_CONFIG
  /\ err_of
       (edgex_device_service_start (Scenario.env Conflicts.bad_md_events)
          None None None) Scenario.fresh EDGEX_OK
     = EDGEX_BAD_CONFIG.
Proof.
  split.
  - assert (Hin : In ("e3", {| schedule := "s1"; path := "/api/v1/ping" |})
                    (scheduleevents
                       (config
                          (st_svc
                             (snd (run (edgex_device_service_start
                                          (Scenario.env Scenario.bad_config)
                                          None None None)
                                     Scenario.fresh EDGEX_OK))))))
      by (vm_compute; right; left; reflexivity).
    assert (Hd : existsb (registers EDGEX_DEV_API_DISCOVERY)
                   (st_trace
                      (snd (run (edgex_device_service_start
                                   (Scenario.env Scenario.bad_config)
                                   None None None)
                              Scenario.fresh EDGEX_OK))) = true)
      by (vm_compute; reflexivity).
    exact (proj1
             (proj2 (proj2
                (proj1 (invalid_schedule_event_path
                          (Scenario.env Scenario.bad_config) None None None
                          Scenario.fresh EDGEX_OK "/api/v1/ping"
                          eq_refl eq_refl)
                   "e3" "s1" Hin))
                (fun _ _ _ _ H => eq_ind Created
                   (fun c => match c with Created => True | _ => False end)
                   I Refused H)
                (fun _ _ _ H => eq_ind Created
                   (fun c => match c with Created => True | _ => False end)
                   I Refused H)
                (fun _ _ _ _ _ _ H => eq_ind Created
                   (fun c => match c with Created => True | _ => False end)
                   I Refused H)
                Hd)).
  - assert (Hd : existsb is_get_scheduleevents
                   (st_trace
                      (snd (run (edgex_device_service_start
                                   (Scenario.env Conflicts.bad_md_events)
                                   None None None)
                              Scenario.fresh EDGEX_OK))) = true)
      by (vm_compute; reflexivity).
    exact (proj2 (proj2
             (proj2 (invalid_schedule_event_path
                       (Scenario.env Conflicts.bad_md_events) None None None
                       Scenario.fresh EDGEX_OK "/api/v1/ping"
                       eq_refl eq_refl)
                Scenario.bad_md_event eq_refl
                (fun _ _ _ => or_intror (or_introl eq_refl))))
             (fun _ _ _ => eq_refl) (fun _ _ => eq_refl) Hd).
Defined.

(** C6 as stated fails: the configuration holds a schedule event on the
    ping path, and the startup ends with [EDGEX_DRIVER_UNSTART], because
    the driver's [init] fails before the schedule events are looked
    at. *)
Lemma invalid_event_after_failed_init :
  is_discovery_path "/api/v1/ping" = false
  /\ is_device_path "/api/v1/ping" = false
  /\ In ("e3", {| schedule := "s1"; path := "/api/v1/ping" |})
       (scheduleevents
          (config
             (st_svc
                (snd (run (edgex_device_service_start
                             (Scenario.env Conflicts.bad_config_init_fails)
                             None None None) Scenario.fresh EDGEX_OK)))))
  /\ err_of
       (edgex_device_service_start
          (Scenario.env Conflicts.bad_config_init_fails) None None None)
       Scenario.fresh EDGEX_OK
     = EDGEX_DRIVER_UNSTART.
Proof.
  split; [reflexivity|]. split; [reflexivity|]. split.
  - vm_compute. right. left. reflexivity.
  - vm_compute. reflexivity.
Qed.

(** ** Create calls of the upload *)










Section CreateCalls.

Variable E : Env.
#[local] Open Scope list_scope.

(** *** Success and conflict *)









(** *** A conflict is not the error of the startup *)




End CreateCalls.

Section Refusals.

Variable E : Env.
#[local] Open Scope list_scope.



(** *** Any other error *)








(** *** The service's own addressable *)



End Refusals.

Section CreateConflicts.

Variable E : Env.
#[local] Open Scope list_scope.


End CreateConflicts.

